(** * Verification of four leaves of the Blender tree

    - [BLI]      : [source/blender/blenlib/BLI_range.hpp], the integer range template;
    - [Palette]  : [source/blender/makesrna/intern/rna_palette.c], the palette bindings;
    - [LANPR]    : [source/blender/editors/lanpr/lanpr_ops.c], the grease-pencil operators;
    - [MapRange] : [intern/cycles/kernel/svm/svm_map_range.h], the range-map shader node.

    Machine integers are [Z] with the wrap-around written out. *)

From Stdlib Require Import String Ascii ZArith Zpower List Bool Lia SpecFloat FinFun
  Permutation.
Import ListNotations.
Local Open Scope Z_scope.

(** ** Debug assertions

    Modelled from the spec: [BLI_assert] comes from [BLI_utildefines.h], which is
    not part of the excerpt.  In a debug build a false condition aborts the
    program at that point ("fails fast"); in a release build the macro expands
    to nothing. *)

Inductive checked (A : Type) : Type :=
| Ok (a : A)
| AssertFail (site : nat).
Arguments Ok {A} a.
Arguments AssertFail {A} site.

Definition BLI_assert (debug : bool) (site : nat) (cond : bool) : checked unit :=
  if debug && negb cond then AssertFail site else Ok tt.

Definition cbind {A B} (c : checked A) (k : A -> checked B) : checked B :=
  match c with
  | Ok a => k a
  | AssertFail n => AssertFail n
  end.

Notation "c ;;; k" := (cbind c (fun _ => k)) (at level 61, right associativity).

Definition fails_at {A} (site : nat) (c : checked A) : Prop := c = AssertFail site.

Module BLI.

(** [template<typename T> class Range], a range of integers, at the 32-bit
    integer types: [T = int] ([T_signed = true]) and [T = uint]
    ([T_signed = false]).  [uint] is the type of [size()], of the index of
    [operator[]] and of the arguments of [after], [before] and [slice]. *)

Section RangeT.

Variable T_signed : bool.
Variable debug : bool.

Definition wordsize : Z := 2 ^ 32.

(** Conversion to [uint]: reduction modulo [2^32]. *)
Definition to_uint (z : Z) : Z := z mod wordsize.

(** Conversion to [T]. *)
Definition to_T (z : Z) : Z :=
  if T_signed then (z + 2 ^ 31) mod wordsize - 2 ^ 31 else z mod wordsize.

Definition T_min : Z := if T_signed then - 2 ^ 31 else 0.
Definition T_max : Z := if T_signed then 2 ^ 31 - 1 else 2 ^ 32 - 1.

(** The values of type [T]. *)
Definition inT (z : Z) : Prop := T_min <= z <= T_max.
Definition in_uint (z : Z) : Prop := 0 <= z < wordsize.

Record Range : Type := mkRange { m_start : Z; m_one_after_last : Z }.

(** Assertion sites, in source order. *)
Definition site_ctor : nat := 52.
Definition site_index : nat := 97.
Definition site_first : nat := 139.
Definition site_last : nat := 149.
Definition site_slice : nat := 180.

(** [Range(T start, T one_after_last)] *)
Definition Range_new (start one_after_last : Z) : checked Range :=
  BLI_assert debug site_ctor (start <=? one_after_last) ;;;
  Ok (mkRange start one_after_last).

(** [Iterator]: only [m_current] matters, [m_range] is never read. *)
Definition Iterator := Z.

Definition begin_ (r : Range) : Iterator := m_start r.
Definition end_ (r : Range) : Iterator := m_one_after_last r.
Definition iter_incr (it : Iterator) : Iterator := to_T (it + 1).
Definition iter_neq (a b : Iterator) : bool := negb (a =? b).
Definition iter_deref (it : Iterator) : Z := it.

(** [uint size() const] : the subtraction is done in [T], the result is
    converted to [uint]. *)
Definition size (r : Range) : Z := to_uint (to_T (m_one_after_last r - m_start r)).

(** [T operator[](uint index) const] *)
Definition index (r : Range) (i : Z) : checked Z :=
  BLI_assert debug site_index (i <? size r) ;;;
  Ok (to_T (m_start r + i)).

(** [friend bool operator==(Range<T> a, Range<T> b)] *)
Definition range_eq (a b : Range) : bool :=
  (m_start a =? m_start b) && (m_one_after_last a =? m_one_after_last b).

(** [Range after(uint n) const] and [Range before(uint n) const] *)
Definition after (r : Range) (n : Z) : checked Range :=
  Range_new (m_one_after_last r) (to_T (m_one_after_last r + n)).

Definition before (r : Range) (n : Z) : checked Range :=
  Range_new (to_T (m_start r - n)) (m_start r).

Definition first (r : Range) : checked Z :=
  BLI_assert debug site_first (0 <? size r) ;;; Ok (m_start r).

Definition last (r : Range) : checked Z :=
  BLI_assert debug site_last (0 <? size r) ;;; Ok (to_T (m_one_after_last r - 1)).

Definition one_after_last (r : Range) : Z := m_one_after_last r.
Definition start (r : Range) : Z := m_start r.

(** [bool contains(T value) const] *)
Definition contains (r : Range) (value : Z) : bool :=
  (value >=? m_start r) && (value <? m_one_after_last r).

(** [Range<T> slice(uint start, uint size) const].  [new_start] is a [uint];
    the comparison with [m_one_after_last] is made in [uint] after the usual
    arithmetic conversions; the constructor converts its arguments to [T]. *)
Definition slice_new_start (r : Range) (start : Z) : Z := to_uint (m_start r + start).

Definition slice_assertion (r : Range) (start sz : Z) : bool :=
  (to_uint (slice_new_start r start + sz) <=? to_uint (m_one_after_last r)) || (sz =? 0).

Definition slice (r : Range) (start sz : Z) : checked Range :=
  let new_start := slice_new_start r start in
  BLI_assert debug site_slice (slice_assertion r start sz) ;;;
  Range_new (to_T new_start) (to_T (to_uint (new_start + sz))).

(** The range-based [for] statement over a [Range]:
    [for (it = begin(); it != end(); ++it)], the body receiving the
    dereferenced iterator.
    The values handed to the body are collected; [None] means that the loop
    did not reach [end()] within [fuel] iterations. *)
Fixpoint range_for_from (fuel : nat) (it stop : Iterator) : option (list Z) :=
  if iter_neq it stop then
    match fuel with
    | O => None
    | S fuel' =>
        match range_for_from fuel' (iter_incr it) stop with
        | Some l => Some (iter_deref it :: l)
        | None => None
        end
    end
  else Some [].

Definition range_for (fuel : nat) (r : Range) : option (list Z) :=
  range_for_from fuel (begin_ r) (end_ r).

(** The numbers [a, a+1, ..., a+n-1]. *)
Definition upfrom (a : Z) (n : nat) : list Z :=
  map (fun i => a + Z.of_nat i) (seq 0 n).

End RangeT.

End BLI.

Module Palette.

(** A [PaletteColor] node of the intrusive list [palette->colors].  [self] is
    the address of the node: the list functions compare nodes by address.
    [info] is the [char info[64]] name; the colour channels and flags are not
    touched by the functions below and are left out. *)
Record PaletteColor : Type := mkColor { self : nat; info : string }.

(** [Palette]: [id.name] (with its two-character type prefix), the list of
    colours and the index of the active colour. *)
Record Palette : Type := mkPalette {
  id_name : string;
  colors : list PaletteColor;
  active_color : Z
}.

(** [PointerRNA]: [type], [id.data] and [data]; [None] is [NULL].  [id.data]
    is the owning palette, [data] the address of the colour node. *)
Record PointerRNA : Type := mkPointerRNA {
  ptr_type : option string;
  ptr_id_data : option string;
  ptr_data : nat
}.

Inductive ReportType : Type := RPT_INFO | RPT_WARNING | RPT_ERROR.
Definition Report : Type := (ReportType * string)%type.
Definition ReportList : Type := list Report.

(** Modelled from the spec: [BKE_reportf] (BKE_report.h is not part of the
    excerpt) appends one report of the given type to the host report list. *)
Definition BKE_reportf (reports : ReportList) (t : ReportType) (msg : string) : ReportList :=
  (reports ++ [(t, msg)])%list.

(** Modelled from the spec: [BLI_findindex] and [BLI_findlink] of
    BLI_listbase.h (not part of the excerpt), "resolved by linear list
    lookup": the position of a node in the list, [-1] when it is not linked,
    and the node at a position, [NULL] when the position is negative or past
    the end. *)
Fixpoint BLI_findindex (l : list PaletteColor) (vlink : nat) : Z :=
  match l with
  | [] => -1
  | c :: l' =>
      if Nat.eqb (self c) vlink then 0
      else let i := BLI_findindex l' vlink in
           if i =? -1 then -1 else i + 1
  end%list.

Definition BLI_findlink (l : list PaletteColor) (number : Z) : option PaletteColor :=
  if number <? 0 then None else nth_error l (Z.to_nat number).

(** [RNA_POINTER_INVALIDATE] (RNA_access.h): clears [type] and [id.data]. *)
Definition RNA_POINTER_INVALIDATE (p : PointerRNA) : PointerRNA :=
  mkPointerRNA None None (ptr_data p).

Definition is_invalidated (p : PointerRNA) : Prop :=
  ptr_type p = None /\ ptr_id_data p = None.

(** [palette->id.name + 2] *)
Definition name_without_prefix (n : string) : string :=
  String.substring 2 (String.length n - 2)%nat n.

Section Runtime.

(** The kernel functions of BKE_paint.h and blenlib that the bindings call
    are outside the excerpt; the bindings are modelled over them.
    [BKE_palette_color_remove palette color] is the palette after the call;
    [BLI_strncpy_utf8 value maxncpy] is the content of the destination buffer;
    [BLI_uniquename others defname delim name_len name] is the name left in
    the node when the other nodes of the list carry the names [others]. *)
Variable BKE_palette_color_remove : Palette -> nat -> Palette.
Variable BLI_strncpy_utf8 : string -> nat -> string.
Variable BLI_uniquename : list string -> string -> ascii -> nat -> string -> string.

(** [rna_Palette_color_remove] *)
Definition rna_Palette_color_remove
  (palette : Palette) (reports : ReportList) (color_ptr : PointerRNA)
  : Palette * ReportList * PointerRNA :=
  let color := ptr_data color_ptr in
  if BLI_findindex (colors palette) color =? -1 then
    (palette,
     BKE_reportf reports RPT_ERROR
       ("Palette '" ++ name_without_prefix (id_name palette)
                    ++ "' does not contain color given")%string,
     color_ptr)
  else
    (BKE_palette_color_remove palette color, reports,
     RNA_POINTER_INVALIDATE color_ptr).

(** [rna_Palette_active_color_set]; [value = None] is a [NULL] data pointer. *)
Definition rna_Palette_active_color_set (palette : Palette) (value : option nat) : Palette :=
  match value with
  | None => mkPalette (id_name palette) (colors palette) (-1)
  | Some color =>
      mkPalette (id_name palette) (colors palette) (BLI_findindex (colors palette) color)
  end.

(** The names of the nodes other than the one at position [i]. *)
Fixpoint other_names (l : list PaletteColor) (i : nat) : list string :=
  match l, i with
  | [], _ => []
  | _ :: l', O => map info l'
  | c :: l', S i' => info c :: other_names l' i'
  end%list.

Fixpoint set_info (l : list PaletteColor) (i : nat) (name : string) : list PaletteColor :=
  match l, i with
  | [], _ => []
  | c :: l', O => mkColor (self c) name :: l'
  | c :: l', S i' => c :: set_info l' i' name
  end%list.

(** [rna_PaletteColor_info_set].  The palette is [ptr->id.data]; the node that
    is renamed is the one [BLI_findlink] returns for [palette->active_color].
    [None] is the dereference of a [NULL] node.  The two calls that propagate
    the new name to grease-pencil datablocks and animation paths act outside
    the palette. *)
Definition rna_PaletteColor_info_set
  (palette : Palette) (ptr : PointerRNA) (value : string) : option Palette :=
  match BLI_findlink (colors palette) (active_color palette) with
  | None => None
  | Some palcolor =>
      let i := Z.to_nat (active_color palette) in
      let copied := BLI_strncpy_utf8 value 64%nat in
      let unique :=
        BLI_uniquename (other_names (colors palette) i) "Color"%string "."%char 64%nat copied in
      Some (mkPalette (id_name palette) (set_info (colors palette) i unique)
                      (active_color palette))
  end.

(** Reading the ['name'] property of the colour a pointer designates: the
    property is declared on the [info] field, without a getter. *)
Definition name_of (palette : Palette) (color : nat) : option string :=
  match BLI_findlink (colors palette) (BLI_findindex (colors palette) color) with
  | Some c => Some (info c)
  | None => None
  end.

End Runtime.

End Palette.

(** ** Single-precision floats

    [float] is IEEE 754 binary32: 24 bits of precision, exponents below 128.
    The operations are those of the Standard Library's executable
    specification of IEEE arithmetic: every operation rounds to nearest even,
    with gradual underflow. *)

Module F32.

Definition prec : Z := 24.
Definition emax : Z := 128.
Definition float : Type := spec_float.

Definition valid (x : float) : bool := valid_binary prec emax x.

Definition add : float -> float -> float := SFadd prec emax.
Definition sub : float -> float -> float := SFsub prec emax.
Definition mul : float -> float -> float := SFmul prec emax.
Definition div : float -> float -> float := SFdiv prec emax.

(** The C comparisons [==] and [!=]: a NaN is unequal to everything, the two
    zeros are equal. *)
Definition eq (x y : float) : bool := SFeqb x y.
Definition neq (x y : float) : bool := negb (SFeqb x y).

Definition zero : float := S754_zero false.
Definition one : float := S754_finite false 8388608 (-23).

Definition is_zero (x : float) : bool :=
  match x with S754_zero _ => true | _ => false end.

(** Zeros and finite numbers, as opposed to infinities and NaN. *)
Definition is_finite (x : float) : bool :=
  match x with
  | S754_zero _ | S754_finite _ _ _ => true
  | _ => false
  end.

(** A non-zero number or an infinity of sign [s]. *)
Definition finite_or_inf (s : bool) (x : float) : Prop :=
  (exists m e, x = S754_finite s m e) \/ x = S754_infinity s.

Definition not_zero_nor_nan (x : float) : Prop :=
  exists s, finite_or_inf s x.

(** The mantissa [m] is the canonical one at exponent [e]. *)
Definition canonical (m : positive) (e : Z) : Prop :=
  fexp prec emax (Zpos (digits2_pos m) + e) = e.

End F32.

Module LANPR.

(** *** Scene data read by the operators *)

(** Objects are referred to by address. *)
Abbreviation ObjectId := nat.

Inductive ObjectType : Type := OB_MESH | OB_GPENCIL | OB_OTHER.

Definition ObjectType_eqb (a b : ObjectType) : bool :=
  match a, b with
  | OB_MESH, OB_MESH | OB_GPENCIL, OB_GPENCIL | OB_OTHER, OB_OTHER => true
  | _, _ => false
  end.

Inductive MasterMode : Type :=
| LANPR_MASTER_MODE_SOFTWARE
| LANPR_MASTER_MODE_DPIX
| LANPR_MASTER_MODE_SNAKE.

Definition is_software (m : MasterMode) : bool :=
  match m with LANPR_MASTER_MODE_SOFTWARE => true | _ => false end.

(** The fields of a target object that are read through [flmd->target] and
    [col->lanpr.target]: its address and its type. *)
Record ObjectRef : Type := mkObjectRef { ref_id : ObjectId; ref_type : ObjectType }.

Record FeatureLineModifierData : Type := mkFlmd {
  flmd_target : option ObjectRef;
  flmd_layer : Z;
  flmd_level_begin : Z;
  flmd_level_end : Z;
  flmd_use_multiple_levels : bool;
  flmd_material : Z;
  flmd_types : Z
}.

(** [md->type == eModifierType_FeatureLine] selects the first constructor. *)
Inductive ModifierData : Type :=
| FeatureLine (flmd : FeatureLineModifierData)
| OtherModifier.

Record Object : Type := mkObject {
  ob_id : ObjectId;
  ob_type : ObjectType;
  modifiers : list ModifierData
}.

Inductive CollectionUsage : Type :=
| COLLECTION_LANPR_INCLUDE
| COLLECTION_LANPR_OTHER.

Record CollectionLANPR : Type := mkCollectionLANPR {
  usage : CollectionUsage;
  target : option ObjectRef;
  layer : Z;
  level_begin : Z;
  level_end : Z;
  use_multiple_levels : bool;
  material : Z;
  types : Z
}.

Local Unset Elimination Schemes.
Inductive Collection : Type :=
| mkCollection (gobject : list Object) (children : list Collection) (lanpr : CollectionLANPR).
Local Set Elimination Schemes.

Definition gobject (c : Collection) : list Object :=
  match c with mkCollection g _ _ => g end.
Definition children (c : Collection) : list Collection :=
  match c with mkCollection _ ch _ => ch end.
Definition lanpr (c : Collection) : CollectionLANPR :=
  match c with mkCollection _ _ l => l end.

(** Modelled from the spec: [BKE_collection_has_object_recursive]
    (BKE_collection.h is outside the excerpt): the object is linked in the
    collection or in one of its descendants. *)
Fixpoint BKE_collection_has_object_recursive (col : Collection) (ob : ObjectId) : bool :=
  match col with
  | mkCollection g ch _ =>
      existsb (fun o => Nat.eqb (ob_id o) ob) g ||
      (fix in_children (l : list Collection) : bool :=
         match l with
         | [] => false
         | c :: l' => BKE_collection_has_object_recursive c ob || in_children l'
         end) ch
  end.

(** [Scene], as the operators read it from the context: [r.cfra], [r.sfra],
    [r.efra] and the master collection. *)
Record Scene : Type := mkScene {
  cfra : Z;
  sfra : Z;
  efra : Z;
  master_collection : Collection
}.

(** The evaluation state of the dependency graph: of the evaluated scene
    ([DEG_get_evaluated_scene]) the current frame [r.cfra] and the LANPR
    settings [lanpr.master_mode] and [lanpr.gpencil_overwrite], and the
    evaluated objects that [DEG_OBJECT_ITER] visits (address of the original
    and type). *)
Record Depsgraph : Type := mkDepsgraph {
  dg_cfra : Z;
  dg_master_mode : MasterMode;
  dg_gpencil_overwrite : bool;
  dg_objects : list ObjectRef
}.

Record bContext : Type := mkContext {
  CTX_data_scene : Scene;
  CTX_data_active_object : Object
}.

(** *** The render buffer *)

Record LANPR_RenderLineChainItem : Type := mkChainItem {
  gpos : F32.float * F32.float * F32.float
}.

(** [object_ref] holds the address [object_ref->id.orig_id] of the original
    of the referenced object; [None] is a [NULL] [object_ref]. *)
Record LANPR_RenderLineChain : Type := mkChain {
  picked : bool;
  object_ref : option ObjectId;
  type : Z;
  level : Z;
  chain : list LANPR_RenderLineChainItem
}.

(** [rb_scene_gpencil_overwrite] is [rb->scene->lanpr.gpencil_overwrite]. *)
Record LANPR_RenderBuffer : Type := mkRenderBuffer {
  chains : list LANPR_RenderLineChain;
  cached_for_frame : Z;
  rb_scene_gpencil_overwrite : bool
}.

(** *** The grease-pencil store

    Modelled from the spec: the grease-pencil API (BKE_gpencil.h) is outside
    the excerpt; "target grease-pencil layer/frame is found or created",
    [addStroke] appends a stroke to a frame.  A layer is addressed by the
    object and its position in [gpd->layers], a frame by the layer and its
    frame number. *)

Definition StrokePoint : Type :=
  (F32.float * F32.float * F32.float * F32.float * F32.float)%type.

Record bGPDstroke : Type := mkStroke {
  gps_colorindex : Z;
  gps_totpoints : nat;
  gps_thickness : Z;
  gps_points : list StrokePoint;
  mat_nr : Z
}.

Record bGPDframe : Type := mkFrame {
  strokes : list bGPDstroke;
  flag_lanpr_cleared : bool        (* [flag & GP_FRAME_LANPR_CLEARED] *)
}.

Definition LayerKey : Type := (ObjectId * nat)%type.
Definition FrameKey : Type := (ObjectId * nat * Z)%type.

Definition FrameKey_eqb (a b : FrameKey) : bool :=
  let '(o1, l1, f1) := a in
  let '(o2, l2, f2) := b in
  Nat.eqb o1 o2 && Nat.eqb l1 l2 && Z.eqb f1 f2.

Record GPStore : Type := mkGPStore {
  gp_layers : ObjectId -> nat;                (* length of [gpd->layers] *)
  gp_frame : FrameKey -> option bGPDframe
}.

Definition set_frame (g : GPStore) (k : FrameKey) (f : bGPDframe) : GPStore :=
  mkGPStore (gp_layers g)
            (fun k' => if FrameKey_eqb k k' then Some f else gp_frame g k').

(** [BKE_gpencil_layer_get_index(gpd, index, 1)]: the layer at [index], the
    first layer when there is none at [index], [NULL] without layers. *)
Definition BKE_gpencil_layer_get_index (g : GPStore) (gpobj : ObjectId) (index : Z)
  : option LayerKey :=
  let n := gp_layers g gpobj in
  if Nat.eqb n 0 then None
  else if (0 <=? index) && (index <? Z.of_nat n) then Some (gpobj, Z.to_nat index)
  else Some (gpobj, O).

(** [BKE_gpencil_layer_addnew(gpd, "lanpr_layer", true)]: a new layer at the
    tail of [gpd->layers]. *)
Definition BKE_gpencil_layer_addnew (g : GPStore) (gpobj : ObjectId) : GPStore * LayerKey :=
  let n := gp_layers g gpobj in
  (mkGPStore (fun o => if Nat.eqb o gpobj then S n else gp_layers g o) (gp_frame g),
   (gpobj, n)).

(** [BKE_gpencil_layer_getframe(gpl, frame, GP_GETFRAME_ADD_NEW)]: the frame
    of the layer at [frame], added empty when the layer has none there. *)
Definition BKE_gpencil_layer_getframe (g : GPStore) (gpl : LayerKey) (frame : Z)
  : GPStore * FrameKey * bGPDframe :=
  let k := (gpl, frame) in
  match gp_frame g k with
  | Some f => (g, k, f)
  | None => let f := mkFrame [] false in (set_frame g k f, k, f)
  end.

(** [BKE_gpencil_free_strokes(gpf)] *)
Definition BKE_gpencil_free_strokes (f : bGPDframe) : bGPDframe :=
  mkFrame [] (flag_lanpr_cleared f).

(** [BKE_gpencil_add_stroke] followed by [BKE_gpencil_stroke_add_points] and
    the assignment of [mat_nr]: the stroke is linked at the tail of
    [gpf->strokes]. *)
Definition add_stroke_with_points
  (f : bGPDframe) (color_idx : Z) (count : nat) (thickness : Z)
  (stroke_data : list StrokePoint) (material_nr : Z) : bGPDframe :=
  mkFrame (strokes f ++ [mkStroke color_idx count thickness stroke_data material_nr])
          (flag_lanpr_cleared f).

(** *** Global state and the trace of calls *)

Inductive Event : Type :=
| EvCompute (frame : Z)      (* a call of [lanpr_compute_feature_lines_internal] *)
| EvClearPicked              (* a call of [lanpr_chain_clear_picked_flag] *)
| EvPicked (i : nat)         (* [rlc->picked = 1] on the chain at position [i] *)
| EvAddStroke (i : nat).     (* [BKE_gpencil_add_stroke] for the chain at position [i] *)

(** [render_buffer_shared] is [lanpr_share.render_buffer_shared]. *)
Record State : Type := mkState {
  render_buffer_shared : option LANPR_RenderBuffer;
  depsgraph : Depsgraph;
  gp : GPStore;
  trace : list Event
}.

Definition with_gp (s : State) (g : GPStore) : State :=
  mkState (render_buffer_shared s) (depsgraph s) g (trace s).

(** *** Stroke emission *)

(** The [continue] statements of the loop of
    [lanpr_generate_gpencil_from_chain], in source order. *)
Inductive Continue : Type :=
| ContinuePicked          (* [rlc->picked] *)
| ContinueNoObjectRef     (* [ob && !rlc->object_ref] *)
| ContinueType            (* [!(rlc->type & types)] *)
| ContinueLevel           (* [rlc->level > qi_end || rlc->level < qi_begin] *)
| ContinueObject          (* [ob && &ob->id != rlc->object_ref->id.orig_id] *)
| ContinueCollection.     (* [col && rlc->object_ref && !BKE_collection_has_object_recursive] *)

Definition is_some {A} (o : option A) : bool :=
  match o with Some _ => true | None => false end.

(** The six conditions, each as written in the source.  The fifth reads
    [rlc->object_ref] without a test: it is reached with [ob] set only when
    the second condition has found [object_ref] set. *)
Definition cond_picked (rlc : LANPR_RenderLineChain) : bool := picked rlc.

Definition cond_no_object_ref (ob : option Object) (rlc : LANPR_RenderLineChain) : bool :=
  is_some ob && negb (is_some (object_ref rlc)).

Definition cond_type (types : Z) (rlc : LANPR_RenderLineChain) : bool :=
  Z.land (type rlc) types =? 0.

Definition cond_level (qi_begin qi_end : Z) (rlc : LANPR_RenderLineChain) : bool :=
  (level rlc >? qi_end) || (level rlc <? qi_begin).

Definition cond_object (ob : option Object) (rlc : LANPR_RenderLineChain) : bool :=
  match ob, object_ref rlc with
  | Some o, Some r => negb (Nat.eqb (ob_id o) r)
  | _, _ => false
  end.

Definition cond_collection (col : option Collection) (rlc : LANPR_RenderLineChain) : bool :=
  match col, object_ref rlc with
  | Some c, Some r => negb (BKE_collection_has_object_recursive c r)
  | _, _ => false
  end.

(** The head of the loop body: the [continue] that is taken for a chain, or
    [None] when the chain goes on to be emitted. *)
Definition chain_filter
  (ob : option Object) (qi_begin qi_end : Z) (col : option Collection) (types : Z)
  (rlc : LANPR_RenderLineChain) : option Continue :=
  if cond_picked rlc then Some ContinuePicked
  else if cond_no_object_ref ob rlc then Some ContinueNoObjectRef
  else if cond_type types rlc then Some ContinueType
  else if cond_level qi_begin qi_end rlc then Some ContinueLevel
  else if cond_object ob rlc then Some ContinueObject
  else if cond_collection col rlc then Some ContinueCollection
  else None.

(** Modelled from the spec: [lanpr_count_chain] is declared but not defined
    in the excerpt; it counts the points of a chain. *)
Definition lanpr_count_chain (rlc : LANPR_RenderLineChain) : nat := List.length (chain rlc).

(** The inner loop filling [stroke_data]: five floats per point, the
    position, then thickness [1] and opacity [1.0f]. *)
Definition stroke_data_of (rlc : LANPR_RenderLineChain) : list StrokePoint :=
  map (fun rlci => let '(x, y, z) := gpos rlci in (x, y, z, F32.one, F32.one)) (chain rlc).

Definition set_picked (rlc : LANPR_RenderLineChain) : LANPR_RenderLineChain :=
  mkChain true (object_ref rlc) (type rlc) (level rlc) (chain rlc).

(** The loop [for (rlc = rb->chains.first; rlc; rlc = rlc->next)], from the
    chain at position [i] on: the chains as the loop leaves them, the target
    frame and the trace. *)
Fixpoint emit_chains
  (ob : option Object) (qi_begin qi_end : Z) (material_nr : Z)
  (col : option Collection) (types : Z)
  (i : nat) (l : list LANPR_RenderLineChain) (gpf : bGPDframe) (tr : list Event)
  : list LANPR_RenderLineChain * bGPDframe * list Event :=
  match l with
  | [] => ([], gpf, tr)
  | rlc :: l' =>
      match chain_filter ob qi_begin qi_end col types rlc with
      | Some _ =>
          let '(l'', gpf', tr') :=
            emit_chains ob qi_begin qi_end material_nr col types (S i) l' gpf tr in
          (rlc :: l'', gpf', tr')
      | None =>
          let rlc1 := set_picked rlc in
          let count := lanpr_count_chain rlc1 in
          let gpf1 := add_stroke_with_points gpf 0 count 1 (stroke_data_of rlc1) material_nr in
          let '(l'', gpf', tr') :=
            emit_chains ob qi_begin qi_end material_nr col types (S i) l' gpf1
                        (tr ++ [EvPicked i; EvAddStroke i]) in
          (rlc1 :: l'', gpf', tr')
      end
  end.

(** [lanpr_generate_gpencil_from_chain].  [gpf] is the key of the target
    frame, which exists in the store when the function is called. *)
Definition lanpr_generate_gpencil_from_chain
  (s : State) (ob : option Object) (gpf : FrameKey)
  (qi_begin qi_end : Z) (material_nr : Z) (col : option Collection) (types : Z)
  : State :=
  match render_buffer_shared s with
  | None => s                                   (* "NULL LANPR rb!" *)
  | Some rb =>
      if negb (is_software (dg_master_mode (depsgraph s))) then s
      else
        let f := match gp_frame (gp s) gpf with Some f => f | None => mkFrame [] false end in
        let '(l', f', tr') :=
          emit_chains ob qi_begin qi_end material_nr col types O (chains rb) f (trace s) in
        mkState (Some (mkRenderBuffer l' (cached_for_frame rb) (rb_scene_gpencil_overwrite rb)))
                (depsgraph s) (set_frame (gp s) gpf f') tr'
  end.

(** [lanpr_clear_gp_lanpr_flags]: on every evaluated grease-pencil object,
    the frame at [frame] of every layer loses [GP_FRAME_LANPR_CLEARED]. *)
Definition lanpr_clear_gp_lanpr_flags (s : State) (frame : Z) : State :=
  let g := gp s in
  let is_gp (o : ObjectId) :=
    existsb (fun r => Nat.eqb (ref_id r) o && ObjectType_eqb (ref_type r) OB_GPENCIL)
            (dg_objects (depsgraph s)) in
  with_gp s
    (mkGPStore (gp_layers g)
       (fun k => let '(o, l, fr) := k in
                 match gp_frame g k with
                 | Some f =>
                     if is_gp o && (fr =? frame) then Some (mkFrame (strokes f) false)
                     else Some f
                 | None => None
                 end)).

(** The part shared by the two update functions, from the lookup of the
    target layer to the call of the emission: [None] is the dereference of a
    [NULL] [lanpr_share.render_buffer_shared], which is read only when the
    target frame already has strokes.  [gpobj] names the grease-pencil data
    [gpobj->data] in which the layer is looked up: in this module every
    object has data of its own, in [LanprShared] objects can share it. *)
Definition emit_to_target
  (s : State) (gpobj : ObjectId) (layer_index : Z) (frame : Z)
  (ob : option Object) (qi_begin qi_end : Z) (material_nr : Z)
  (col : option Collection) (types : Z) : option State :=
  let '(g1, gpl) :=
    match BKE_gpencil_layer_get_index (gp s) gpobj layer_index with
    | Some gpl => (gp s, gpl)
    | None => BKE_gpencil_layer_addnew (gp s) gpobj
    end in
  let '(g2, gpf, f) := BKE_gpencil_layer_getframe g1 gpl frame in
  let s2 := with_gp s g2 in
  let proceed (s2 : State) : State :=
    let s3 :=
      if negb (flag_lanpr_cleared f) then
        with_gp s2 (set_frame g2 gpf (mkFrame (strokes (BKE_gpencil_free_strokes f)) true))
      else s2 in
    lanpr_generate_gpencil_from_chain s3 ob gpf qi_begin qi_end material_nr col types in
  match strokes f with
  | [] => Some (proceed s2)
  | _ :: _ =>
      match render_buffer_shared s2 with
      | None => None
      | Some rb => if negb (rb_scene_gpencil_overwrite rb) then Some s2 else Some (proceed s2)
      end
  end.

Definition target_excluded (target_only : option ObjectId) (gpobj : ObjectId) : bool :=
  match target_only with
  | Some t => negb (Nat.eqb t gpobj)
  | None => false
  end.

(** One round of the loop over [ob->modifiers].  The call of
    [DEG_id_tag_update] that closes the round flags [gpd->id] for
    re-evaluation; the recalculation flags of datablocks are not part of the
    state, and nothing is stated about them. *)
Definition update_modifier
  (frame : Z) (target_only : option ObjectId) (ob : Object) (md : ModifierData)
  (s : State) : option State :=
  match md with
  | OtherModifier => Some s
  | FeatureLine flmd =>
      match flmd_target flmd with
      | Some gpobj =>
          if ObjectType_eqb (ref_type gpobj) OB_GPENCIL then
            if target_excluded target_only (ref_id gpobj) then Some s
            else
              emit_to_target s (ref_id gpobj) (flmd_layer flmd) frame (Some ob)
                (flmd_level_begin flmd)
                (if flmd_use_multiple_levels flmd then flmd_level_end flmd
                 else flmd_level_begin flmd)
                (flmd_material flmd) None (flmd_types flmd)
          else Some s
      | None => Some s
      end
  end.

(** Sequencing of steps that can stop on a [NULL] dereference. *)
Fixpoint for_each {A} (step : A -> State -> option State) (l : list A) (s : State)
  : option State :=
  match l with
  | [] => Some s
  | a :: l' =>
      match step a s with
      | Some s' => for_each step l' s'
      | None => None
      end
  end.

Definition update_object (frame : Z) (target_only : option ObjectId) (ob : Object)
  : State -> option State :=
  for_each (update_modifier frame target_only ob) (modifiers ob).

(** [lanpr_update_gp_strokes_recursive].  With [source_only] set the first
    loop runs once, on that object, and the function returns from inside it;
    otherwise the objects of the collection are visited, then the child
    collections. *)
Fixpoint lanpr_update_gp_strokes_recursive
  (col : Collection) (frame : Z) (source_only : option Object)
  (target_only : option ObjectId) (s : State) : option State :=
  match source_only with
  | Some ob => update_object frame target_only ob s
  | None =>
      match col with
      | mkCollection g ch _ =>
          match for_each (update_object frame target_only) g s with
          | None => None
          | Some s1 =>
              (fix over_children (l : list Collection) (s : State) : option State :=
                 match l with
                 | [] => Some s
                 | cc :: l' =>
                     match lanpr_update_gp_strokes_recursive cc frame source_only
                             target_only s with
                     | Some s' => over_children l' s'
                     | None => None
                     end
                 end) ch s1
          end
      end
  end.

Definition is_include (u : CollectionUsage) : bool :=
  match u with COLLECTION_LANPR_INCLUDE => true | _ => false end.

(** The body of [lanpr_update_gp_strokes_collection] after the descent; of
    its closing [DEG_id_tag_update] the same is to be said as above. *)
Definition update_collection_here
  (col : Collection) (frame : Z) (target_only : option ObjectId) (s : State)
  : option State :=
  let cl := lanpr col in
  match target cl with
  | Some gpobj =>
      if negb (is_include (usage cl)) then Some s
      else if target_excluded target_only (ref_id gpobj) then Some s
      else
        emit_to_target s (ref_id gpobj) (layer cl) frame None
          (level_begin cl)
          (if use_multiple_levels cl then level_end cl else level_begin cl)
          (material cl) (Some col) (types cl)
  | None => Some s
  end.

(** [lanpr_update_gp_strokes_collection], depth first. *)
Fixpoint lanpr_update_gp_strokes_collection
  (col : Collection) (frame : Z) (this_only : bool)
  (target_only : option ObjectId) (s : State) : option State :=
  match col with
  | mkCollection _ ch _ =>
      let descent :=
        if this_only then Some s
        else
          (fix over_children (l : list Collection) (s : State) : option State :=
             match l with
             | [] => Some s
             | cc :: l' =>
                 match lanpr_update_gp_strokes_collection cc frame this_only
                         target_only s with
                 | Some s' => over_children l' s'
                 | None => None
                 end
             end) ch s in
      match descent with
      | Some s1 => update_collection_here col frame target_only s1
      | None => None
      end
  end.

(** *** The operators *)

(** [lanpr_render_buffer_found], [lanpr_active_is_gpencil_object] and
    [lanpr_active_is_source_object], the poll callbacks. *)
Definition lanpr_render_buffer_found (s : State) : bool :=
  is_some (render_buffer_shared s).

Definition lanpr_active_is_gpencil_object (C : bContext) : bool :=
  ObjectType_eqb (ob_type (CTX_data_active_object C)) OB_GPENCIL.

Definition lanpr_active_is_source_object (C : bContext) : bool :=
  let o := CTX_data_active_object C in
  if negb (ObjectType_eqb (ob_type o) OB_MESH) then false
  else existsb (fun md => match md with FeatureLine _ => true | OtherModifier => false end)
               (modifiers o).

Section Engine.

(** Modelled from the spec: the feature-line engine is outside the excerpt.
    "compute(depsgraph, intersectionsOnly) populates the shared RenderBuffer,
    tagged with the frame it was computed for".  [feature_lines] stands for
    the chains the engine extracts from an evaluated depsgraph. *)
Variable feature_lines : Depsgraph -> list LANPR_RenderLineChain.

Definition lanpr_compute_feature_lines_internal (s : State) : State :=
  let dg := depsgraph s in
  mkState (Some (mkRenderBuffer (feature_lines dg) (dg_cfra dg) (dg_gpencil_overwrite dg)))
          dg (gp s) (trace s ++ [EvCompute (dg_cfra dg)]).

(** Modelled from the spec: [lanpr_chain_clear_picked_flag] is declared but
    not defined in the excerpt; it "clears every chain's one-shot picked
    marker". *)
Definition clear_picked (rlc : LANPR_RenderLineChain) : LANPR_RenderLineChain :=
  mkChain false (object_ref rlc) (type rlc) (level rlc) (chain rlc).

Definition lanpr_chain_clear_picked_flag (s : State) : State :=
  mkState
    (match render_buffer_shared s with
     | Some rb =>
         Some (mkRenderBuffer (map clear_picked (chains rb)) (cached_for_frame rb)
                 (rb_scene_gpencil_overwrite rb))
     | None => None
     end)
    (depsgraph s) (gp s) (trace s ++ [EvClearPicked]).

(** The test [!lanpr_share.render_buffer_shared ||
    lanpr_share.render_buffer_shared->cached_for_frame != frame]. *)
Definition absent_or_stale (s : State) (frame : Z) : bool :=
  match render_buffer_shared s with
  | None => true
  | Some rb => negb (cached_for_frame rb =? frame)
  end.

Definition compute_if_needed (s : State) (frame : Z) : State :=
  if absent_or_stale s frame then lanpr_compute_feature_lines_internal s else s.

(** [ED_lanpr_update_data_for_external]; the scene is the evaluated one. *)
Definition ED_lanpr_update_data_for_external (s : State) : State :=
  if negb (is_software (dg_master_mode (depsgraph s))) then s
  else compute_if_needed s (dg_cfra (depsgraph s)).

Definition option_bind {A B} (o : option A) (k : A -> option B) : option B :=
  match o with Some a => k a | None => None end.

Notation "x <- c ;; k" := (option_bind c (fun x => k))
  (at level 61, c at next level, right associativity).

(** The common shape of the three single-frame operators. *)
Definition update_gp_exec
  (C : bContext) (source_only : option Object) (target_only : option ObjectId)
  (s : State) : option State :=
  let scene := CTX_data_scene C in
  let frame := cfra scene in
  let s1 := compute_if_needed s frame in
  let s2 := lanpr_chain_clear_picked_flag s1 in
  s3 <- lanpr_update_gp_strokes_recursive (master_collection scene) frame
          source_only target_only s2 ;;
  s4 <- lanpr_update_gp_strokes_collection (master_collection scene) frame false
          target_only s3 ;;
  Some (lanpr_clear_gp_lanpr_flags s4 frame).

(** [lanpr_update_gp_strokes_exec] *)
Definition lanpr_update_gp_strokes_exec (C : bContext) : State -> option State :=
  update_gp_exec C None None.

(** [lanpr_update_gp_target_exec] *)
Definition lanpr_update_gp_target_exec (C : bContext) : State -> option State :=
  update_gp_exec C None (Some (ob_id (CTX_data_active_object C))).

(** [lanpr_update_gp_source_exec] *)
Definition lanpr_update_gp_source_exec (C : bContext) : State -> option State :=
  update_gp_exec C (Some (CTX_data_active_object C)) None.

(** [DEG_evaluate_on_framechange]: the depsgraph is re-evaluated at [frame]. *)
Definition DEG_evaluate_on_framechange (s : State) (frame : Z) : State :=
  let dg := depsgraph s in
  mkState (render_buffer_shared s)
          (mkDepsgraph frame (dg_master_mode dg) (dg_gpencil_overwrite dg) (dg_objects dg))
          (gp s) (trace s).

(** One round of the loop of [lanpr_bake_gp_strokes_exec]. *)
Definition bake_frame (C : bContext) (frame : Z) (s : State) : option State :=
  let scene := CTX_data_scene C in
  let s0 := DEG_evaluate_on_framechange s frame in
  let s1 := lanpr_compute_feature_lines_internal s0 in
  let s2 := lanpr_chain_clear_picked_flag s1 in
  s3 <- lanpr_update_gp_strokes_recursive (master_collection scene) frame None None s2 ;;
  lanpr_update_gp_strokes_collection (master_collection scene) frame false None s3.

(** The frames [frame_begin, ..., frame_end] of the loop
    [for (frame = frame_begin; frame <= frame_end; frame++)]; scene frame
    numbers stay far below [INT_MAX], so the increment does not wrap. *)
Definition bake_frames (frame_begin frame_end : Z) : list Z :=
  map (fun i => frame_begin + Z.of_nat i)
      (seq 0 (Z.to_nat (frame_end - frame_begin + 1))).

(** [lanpr_bake_gp_strokes_exec] *)
Definition lanpr_bake_gp_strokes_exec (C : bContext) (s : State) : option State :=
  let scene := CTX_data_scene C in
  for_each (bake_frame C) (bake_frames (sfra scene) (efra scene)) s.

End Engine.

End LANPR.

Module MapRange.
Import F32.

(** Modelled from the spec: the SVM stack helpers ([read_node],
    [stack_load_float], [stack_store_float] of svm.h) are outside the
    excerpt.  The node "writes one output slot": the stack is an array of
    floats addressed by slot number, [read_node] fetches the next node word
    and advances the offset. *)
Record uint4 : Type := mkUint4 { x : nat; y : nat; z : nat; w : nat }.

Record KernelGlobals : Type := mkKernelGlobals { svm_nodes : list uint4 }.

Definition read_node (kg : KernelGlobals) (offset : nat) : uint4 * nat :=
  (nth offset (svm_nodes kg) (mkUint4 0 0 0 0), S offset).

(** A slot past the end reads as zero and is not written: the kernel asserts
    that slots are below [SVM_STACK_SIZE]. *)
Definition stack_load_float (stack : list float) (a : nat) : float :=
  nth a stack zero.

Fixpoint stack_store_float (stack : list float) (a : nat) (f : float) : list float :=
  match stack, a with
  | [], _ => []
  | _ :: st, O => f :: st
  | v :: st, S a' => v :: stack_store_float st a' f
  end.

(** The arithmetic of the node on the five loaded values. *)
Definition map_range (value fromMin fromMax toMin toMax : float) : float :=
  if neq fromMax fromMin && neq toMax toMin then
    add toMin (mul (div (sub value fromMin) (sub fromMax fromMin)) (sub toMax toMin))
  else zero.

(** [svm_node_map_range]: the stack and the node offset after the call. *)
Definition svm_node_map_range
  (kg : KernelGlobals) (stack : list float)
  (value_offset fromMin_offset fromMax_offset : nat) (offset : nat)
  : list float * nat :=
  let '(node1, offset') := read_node kg offset in
  let value := stack_load_float stack value_offset in
  let fromMin := stack_load_float stack fromMin_offset in
  let fromMax := stack_load_float stack fromMax_offset in
  let toMin := stack_load_float stack (y node1) in
  let toMax := stack_load_float stack (z node1) in
  let r := map_range value fromMin fromMax toMin toMax in
  (stack_store_float stack (w node1) r, offset').

End MapRange.

(** ** The active colour of a palette *)

Module PaletteActive.
Import Palette.

(** [rna_Palette_active_color_get].  The palette is [ptr->data].

    Modelled from the spec: [rna_pointer_inherit_refine] (rna_access.c) is
    outside the excerpt; the active colour is "a pointer-like reference
    resolved by linear list lookup".  The result is a pointer of the given
    type to the given data that inherits [id.data] from [ptr]; for [NULL]
    data it is the null pointer, here [None]. *)
Definition rna_Palette_active_color_get (ptr : PointerRNA) (palette : Palette)
  : option PointerRNA :=
  match BLI_findlink (colors palette) (active_color palette) with
  | Some color => Some (mkPointerRNA (Some "PaletteColor"%string) (ptr_id_data ptr) (self color))
  | None => None
  end.

End PaletteActive.

(** ** The line layers of a scene

    [ED_lanpr_copy_data] and [ED_lanpr_free_everything] of lanpr_ops.c, over
    the allocated blocks and the layer list of each scene. *)

Module LanprData.
Local Open Scope nat_scope.

Section Layers.

(** The fields of [LANPR_LineLayer] and [LANPR_LineLayerComponent] other than
    the list links and the component list: what [memcpy] carries over. *)
Variables LayerFields ComponentFields : Type.

(** Nodes are named by the address of their block. *)
Record LANPR_LineLayerComponent : Type := mkComponent {
  llc_self : nat;
  llc_fields : ComponentFields
}.

Record LANPR_LineLayer : Type := mkLineLayer {
  ll_self : nat;
  ll_fields : LayerFields;
  components : list LANPR_LineLayerComponent
}.

(** The allocated blocks, and [lanpr.line_layers] of each scene (scenes are
    named by address too). *)
Record Memory : Type := mkMemory {
  live : list nat;
  line_layers : nat -> list LANPR_LineLayer
}.

(** Modelled from the spec: the guarded allocator (MEM_guardedalloc.h) and
    the list functions (BLI_listbase.h) are outside the excerpt, which keeps
    a "manual allocate/copy/free symmetry for linked-list nodes".
    [callocN] is the address the allocator hands out, given the blocks in
    use; [MEM_callocN] marks that block as allocated; [MEM_freeN] releases an
    allocated block, [None] being the release of a block that is not
    allocated; [BLI_addtail] links a node at the tail of a list and
    [BLI_pophead] unlinks the head. *)
Variable callocN : list nat -> nat.

Definition MEM_callocN (m : Memory) : nat * Memory :=
  let a := callocN (live m) in (a, mkMemory (a :: live m) (line_layers m)).

Definition MEM_freeN (m : Memory) (a : nat) : option Memory :=
  if existsb (Nat.eqb a) (live m)
  then Some (mkMemory (filter (fun b => negb (Nat.eqb b a)) (live m)) (line_layers m))
  else None.

Definition set_line_layers (m : Memory) (scene : nat) (l : list LANPR_LineLayer) : Memory :=
  mkMemory (live m) (fun sc => if Nat.eqb sc scene then l else line_layers m sc).

(** Modelled from the spec: [list_handle_empty] is outside the excerpt too.
    It is applied to the list heads that a [memcpy] has just duplicated, of
    the scene and of each new layer: the head is reset, and the nodes it
    pointed to, which belong to the source, are not released. *)
Definition list_handle_empty (m : Memory) (scene : nat) : Memory :=
  set_line_layers m scene [].

(** The inner loop of [ED_lanpr_copy_data]: one new block for each
    component, filled by [memcpy], its links cleared, linked at the tail. *)
Fixpoint copy_components (llcs : list LANPR_LineLayerComponent) (m : Memory)
  : list LANPR_LineLayerComponent * Memory :=
  match llcs with
  | [] => ([], m)
  | llc :: rest =>
      let '(new_llc, m1) := MEM_callocN m in
      let '(cs, m2) := copy_components rest m1 in
      (mkComponent new_llc (llc_fields llc) :: cs, m2)
  end.

(** The outer loop: the block of the layer is allocated, filled by
    [memcpy], its component list reset and its links cleared; then the
    components are copied.  The new layer is linked at the tail of the list
    of [to], which is not read while it is built. *)
Fixpoint copy_layers (lls : list LANPR_LineLayer) (m : Memory)
  : list LANPR_LineLayer * Memory :=
  match lls with
  | [] => ([], m)
  | ll :: rest =>
      let '(new_ll, m1) := MEM_callocN m in
      let '(cs, m2) := copy_components (components ll) m1 in
      let '(ls, m3) := copy_layers rest m2 in
      (mkLineLayer new_ll (ll_fields ll) cs :: ls, m3)
  end.

(** [ED_lanpr_copy_data]: the list of [from] is walked after the head of
    [to] has been reset. *)
Definition ED_lanpr_copy_data (from to : nat) (m : Memory) : Memory :=
  let m0 := list_handle_empty m to in
  let '(ls, m1) := copy_layers (line_layers m0 from) m0 in
  set_line_layers m1 to ls.

Fixpoint free_components (cs : list LANPR_LineLayerComponent) (m : Memory) : option Memory :=
  match cs with
  | [] => Some m
  | llc :: rest =>
      match MEM_freeN m (llc_self llc) with
      | Some m1 => free_components rest m1
      | None => None
      end
  end.

Fixpoint free_layers (lls : list LANPR_LineLayer) (m : Memory) : option Memory :=
  match lls with
  | [] => Some m
  | ll :: rest =>
      match free_components (components ll) m with
      | Some m1 =>
          match MEM_freeN m1 (ll_self ll) with
          | Some m2 => free_layers rest m2
          | None => None
          end
      | None => None
      end
  end.

(** [ED_lanpr_free_everything]: every layer is popped, its components are
    popped and released, then the layer is released. *)
Definition ED_lanpr_free_everything (s : nat) (m : Memory) : option Memory :=
  match free_layers (line_layers m s) m with
  | Some m1 => Some (set_line_layers m1 s [])
  | None => None
  end.

End Layers.

Arguments mkComponent {ComponentFields}.
Arguments llc_self {ComponentFields}.
Arguments llc_fields {ComponentFields}.
Arguments mkLineLayer {LayerFields ComponentFields}.
Arguments ll_self {LayerFields ComponentFields}.
Arguments ll_fields {LayerFields ComponentFields}.
Arguments components {LayerFields ComponentFields}.
Arguments mkMemory {LayerFields ComponentFields}.
Arguments live {LayerFields ComponentFields}.
Arguments line_layers {LayerFields ComponentFields}.
Arguments MEM_callocN {LayerFields ComponentFields}.
Arguments MEM_freeN {LayerFields ComponentFields}.
Arguments set_line_layers {LayerFields ComponentFields}.
Arguments list_handle_empty {LayerFields ComponentFields}.
Arguments copy_components {LayerFields ComponentFields}.
Arguments copy_layers {LayerFields ComponentFields}.
Arguments ED_lanpr_copy_data {LayerFields ComponentFields}.
Arguments free_components {LayerFields ComponentFields}.
Arguments free_layers {LayerFields ComponentFields}.
Arguments ED_lanpr_free_everything {LayerFields ComponentFields}.

End LanprData.

(** ** The update passes over shared grease-pencil data *)

Module LanprShared.
Import LANPR.

Section Datablocks.

(** [ob->data] of a grease-pencil object, the address of its [bGPdata]:
    the update functions reach layers and frames through [gpobj->data], and
    several objects can use one datablock.  In this module the keys of the
    grease-pencil store are the addresses of the datablocks; [LANPR] is the
    case where every object has a datablock of its own. *)
Variable data : ObjectId -> ObjectId.

(** One round of the loop over [ob->modifiers]: the test of [target_only]
    compares objects, the layer is looked up in [gpobj->data]. *)
Definition update_modifier
  (frame : Z) (target_only : option ObjectId) (ob : Object) (md : ModifierData)
  (s : State) : option State :=
  match md with
  | OtherModifier => Some s
  | FeatureLine flmd =>
      match flmd_target flmd with
      | Some gpobj =>
          if ObjectType_eqb (ref_type gpobj) OB_GPENCIL then
            if target_excluded target_only (ref_id gpobj) then Some s
            else
              emit_to_target s (data (ref_id gpobj)) (flmd_layer flmd) frame (Some ob)
                (flmd_level_begin flmd)
                (if flmd_use_multiple_levels flmd then flmd_level_end flmd
                 else flmd_level_begin flmd)
                (flmd_material flmd) None (flmd_types flmd)
          else Some s
      | None => Some s
      end
  end.

Definition update_object (frame : Z) (target_only : option ObjectId) (ob : Object)
  : State -> option State :=
  for_each (update_modifier frame target_only ob) (modifiers ob).

(** [lanpr_update_gp_strokes_recursive] *)
Fixpoint lanpr_update_gp_strokes_recursive
  (col : Collection) (frame : Z) (source_only : option Object)
  (target_only : option ObjectId) (s : State) : option State :=
  match source_only with
  | Some ob => update_object frame target_only ob s
  | None =>
      match col with
      | mkCollection g ch _ =>
          match for_each (update_object frame target_only) g s with
          | None => None
          | Some s1 =>
              (fix over_children (l : list Collection) (s : State) : option State :=
                 match l with
                 | [] => Some s
                 | cc :: l' =>
                     match lanpr_update_gp_strokes_recursive cc frame source_only
                             target_only s with
                     | Some s' => over_children l' s'
                     | None => None
                     end
                 end) ch s1
          end
      end
  end.

(** The body of [lanpr_update_gp_strokes_collection] after the descent. *)
Definition update_collection_here
  (col : Collection) (frame : Z) (target_only : option ObjectId) (s : State)
  : option State :=
  let cl := lanpr col in
  match target cl with
  | Some gpobj =>
      if negb (is_include (usage cl)) then Some s
      else if target_excluded target_only (ref_id gpobj) then Some s
      else
        emit_to_target s (data (ref_id gpobj)) (layer cl) frame None
          (level_begin cl)
          (if use_multiple_levels cl then level_end cl else level_begin cl)
          (material cl) (Some col) (types cl)
  | None => Some s
  end.

(** [lanpr_update_gp_strokes_collection], depth first. *)
Fixpoint lanpr_update_gp_strokes_collection
  (col : Collection) (frame : Z) (this_only : bool)
  (target_only : option ObjectId) (s : State) : option State :=
  match col with
  | mkCollection _ ch _ =>
      let descent :=
        if this_only then Some s
        else
          (fix over_children (l : list Collection) (s : State) : option State :=
             match l with
             | [] => Some s
             | cc :: l' =>
                 match lanpr_update_gp_strokes_collection cc frame this_only
                         target_only s with
                 | Some s' => over_children l' s'
                 | None => None
                 end
             end) ch s in
      match descent with
      | Some s1 => update_collection_here col frame target_only s1
      | None => None
      end
  end.

(** [lanpr_clear_gp_lanpr_flags]: the frames at [frame] of the datablock of
    every evaluated grease-pencil object lose [GP_FRAME_LANPR_CLEARED]. *)
Definition lanpr_clear_gp_lanpr_flags (s : State) (frame : Z) : State :=
  let g := gp s in
  let is_gp (d : ObjectId) :=
    existsb (fun r => Nat.eqb (data (ref_id r)) d && ObjectType_eqb (ref_type r) OB_GPENCIL)
            (dg_objects (depsgraph s)) in
  with_gp s
    (mkGPStore (gp_layers g)
       (fun k => let '(d, l, fr) := k in
                 match gp_frame g k with
                 | Some f =>
                     if is_gp d && (fr =? frame) then Some (mkFrame (strokes f) false)
                     else Some f
                 | None => None
                 end)).

Section Engine.

Variable feature_lines : Depsgraph -> list LANPR_RenderLineChain.

(** [lanpr_update_gp_target_exec] *)
Definition lanpr_update_gp_target_exec (C : bContext) (s : State) : option State :=
  let scene := CTX_data_scene C in
  let gpo := ob_id (CTX_data_active_object C) in
  let frame := cfra scene in
  let s1 := compute_if_needed feature_lines s frame in
  let s2 := lanpr_chain_clear_picked_flag s1 in
  match lanpr_update_gp_strokes_recursive (master_collection scene) frame None (Some gpo) s2
  with
  | Some s3 =>
      match lanpr_update_gp_strokes_collection (master_collection scene) frame false
              (Some gpo) s3 with
      | Some s4 => Some (lanpr_clear_gp_lanpr_flags s4 frame)
      | None => None
      end
  | None => None
  end.

End Engine.

End Datablocks.

End LanprShared.

(** * Part II: the vocabulary of the properties *)

Module RangeProps.
Import BLI.

(** Following the spec's words: [slice(start, size)] "asserts
    [m_start + start + size <= m_one_after_last] unless [size == 0]", the
    comparison being that of the integers. *)
Definition slice_assertion_claimed (r : Range) (start sz : Z) : bool :=
  (m_start r + start + sz <=? m_one_after_last r) || (sz =? 0).

End RangeProps.

Module PaletteProps.
Import Palette.

(** [BLI_remlink]: the list without the node at address [vlink]. *)
Definition BLI_remlink (l : list PaletteColor) (vlink : nat) : list PaletteColor :=
  filter (fun c => negb (Nat.eqb (self c) vlink)) l.

(** A palette contains a colour when the node is linked in [palette->colors]. *)
Definition contains_color (palette : Palette) (color : nat) : Prop :=
  In color (map self (colors palette)).

(** A kernel function that unlinks the node and keeps the active index inside
    the list, as an instance of the parameter. *)
Definition remove_and_clamp (p : Palette) (c : nat) : Palette :=
  let l := BLI_remlink (colors p) c in
  mkPalette (id_name p) l (Z.min (active_color p) (Z.of_nat (length l) - 1)).

Definition two_colors : Palette :=
  mkPalette "PLSketch" [mkColor 10 "Red"; mkColor 20 "Blue"] 0.

End PaletteProps.

Module LanprProps.
Import LANPR.

(** *** Induction on collections *)

Fixpoint Collection_ind' (P : Collection -> Prop)
  (H : forall g ch l, Forall P ch -> P (mkCollection g ch l)) (c : Collection) : P c :=
  match c with
  | mkCollection g ch l =>
      H g ch l
        ((fix go (cs : list Collection) : Forall P cs :=
            match cs with
            | [] => Forall_nil P
            | c' :: cs' => Forall_cons c' (Collection_ind' P H c') (go cs')
            end) ch)
  end.

(** A chain survives the filters of a pass when it is unmarked, carries an
    object reference if a source object is given, has a type of the mask and
    a level in the range, and belongs to the source object and to the
    collection, as far as these are given. *)
Definition survives
  (ob : option Object) (qi_begin qi_end : Z) (col : option Collection) (types : Z)
  (rlc : LANPR_RenderLineChain) : Prop :=
  picked rlc = false /\
  (ob <> None -> object_ref rlc <> None) /\
  Z.land (type rlc) types <> 0 /\
  qi_begin <= level rlc <= qi_end /\
  (forall o, ob = Some o -> object_ref rlc = Some (ob_id o)) /\
  (forall c r, col = Some c -> object_ref rlc = Some r ->
               BKE_collection_has_object_recursive c r = true).

(** The trace of the emission of the chains at the positions [em]. *)
Definition pairs (em : list nat) : list Event :=
  flat_map (fun i => [EvPicked i; EvAddStroke i]) em.

Section Walk.

Variable ob : option Object.
Variables qi_begin qi_end material_nr : Z.
Variable col : option Collection.
Variable types : Z.

(** No [continue] is taken for the chain. *)
Definition accepts (rlc : LANPR_RenderLineChain) : bool :=
  negb (is_some (chain_filter ob qi_begin qi_end col types rlc)).

(** The positions, counted from [i], of the chains of [l] that pass. *)
Fixpoint accepted (i : nat) (l : list LANPR_RenderLineChain) : list nat :=
  match l with
  | [] => []
  | rlc :: l' => if accepts rlc then i :: accepted (S i) l' else accepted (S i) l'
  end.

(** The stroke an emitted chain leaves in the target frame. *)
Definition stroke_of (rlc : LANPR_RenderLineChain) : bGPDstroke :=
  mkStroke 0 (List.length (chain rlc)) 1 (stroke_data_of rlc) material_nr.

End Walk.

(** The mark of the chain at position [i]. *)
Definition picked_in (rb : LANPR_RenderBuffer) (i : nat) : bool :=
  match nth_error (chains rb) i with
  | Some rlc => picked rlc
  | None => false
  end.

Definition picked_at (s : State) (i : nat) : bool :=
  match render_buffer_shared s with
  | Some rb => picked_in rb i
  | None => false
  end.

Definition mem (i : nat) (em : list nat) : bool := existsb (Nat.eqb i) em.

(** [emits s s' em]: from [s] to [s'] exactly the chains at the positions
    [em] were emitted, in that order, each one marked and then stroked; they
    were unmarked in [s]; the marks of [s'] are those of [s] and those of
    [em]; the buffer is otherwise the same. *)
Definition emits (s s' : State) (em : list nat) : Prop :=
  exists rb rb',
    render_buffer_shared s = Some rb /\
    render_buffer_shared s' = Some rb' /\
    depsgraph s' = depsgraph s /\
    cached_for_frame rb' = cached_for_frame rb /\
    rb_scene_gpencil_overwrite rb' = rb_scene_gpencil_overwrite rb /\
    List.length (chains rb') = List.length (chains rb) /\
    trace s' = trace s ++ pairs em /\
    NoDup em /\
    (forall i, In i em -> picked_in rb i = false /\ (i < List.length (chains rb))%nat) /\
    (forall i, picked_in rb' i = picked_in rb i || mem i em).

Definition has_buffer (s : State) : Prop := render_buffer_shared s <> None.

(** A step is an emitter when, started with a buffer, it returns and emits. *)
Definition Emitter (f : State -> option State) : Prop :=
  forall s, has_buffer s -> exists s' em, f s = Some s' /\ emits s s' em.

Definition is_compute (e : Event) : bool :=
  match e with EvCompute _ => true | _ => false end.

(** The number of calls of the feature-line computation in a trace. *)
Definition computes (t : list Event) : nat := List.length (filter is_compute t).

(** The buffer is absent, or cached for another frame than [frame]. *)
Definition needs_compute (s : State) (frame : Z) : Prop :=
  render_buffer_shared s = None \/
  exists rb, render_buffer_shared s = Some rb /\ cached_for_frame rb <> frame.

(** The buffer exists and is cached for [frame]. *)
Definition cached_for (s : State) (frame : Z) : Prop :=
  exists rb, render_buffer_shared s = Some rb /\ cached_for_frame rb = frame.

(** The events [compute_if_needed] adds. *)
Definition computed (s : State) (frame : Z) : list Event :=
  if absent_or_stale s frame then [EvCompute (dg_cfra (depsgraph s))] else [].

(** The shape of a run of a single-frame operator: the computation if it is
    needed, the clearing of the marks, then the emissions, no position
    twice; in the end the marked chains are the emitted ones. *)
Definition single_frame_run (C : bContext) (s : State) (r : option State) : Prop :=
  exists s' em,
    r = Some s' /\
    trace s' = trace s ++ computed s (cfra (CTX_data_scene C))
                       ++ EvClearPicked :: pairs em /\
    NoDup em /\
    (forall i, picked_at s' i = true <-> In i em).

(** The trace of a bake over the frames [fs], the chains emitted for each
    frame being [ems]. *)
Definition bake_trace (fs : list Z) (ems : list (list nat)) : list Event :=
  flat_map (fun fe => EvCompute (fst fe) :: EvClearPicked :: pairs (snd fe))
           (combine fs ems).

(** The chains emitted by a bake, each named by the frame its buffer was
    computed for and its position in that buffer. *)
Definition bake_emitted (fs : list Z) (ems : list (list nat)) : list (Z * nat) :=
  flat_map (fun fe => map (pair (fst fe)) (snd fe)) (combine fs ems).

(** [computes_iff_needed s frame s']: from [s] to [s'] the feature-line
    computation was called once when the buffer of [s] was absent or cached
    for another frame than [frame], and not at all when it was cached for
    [frame]. *)
Definition computes_iff_needed (s : State) (frame : Z) (s' : State) : Prop :=
  (needs_compute s frame -> computes (trace s') = S (computes (trace s))) /\
  (cached_for s frame -> computes (trace s') = computes (trace s)) /\
  (computes (trace s') = S (computes (trace s)) -> needs_compute s frame).

Definition no_layers : GPStore := mkGPStore (fun _ => O) (fun _ => None).

Definition empty_collection : Collection :=
  mkCollection [] [] (mkCollectionLANPR COLLECTION_LANPR_OTHER None 0 0 0 false 0 0).

(** A session without a buffer whose scene runs the DPIX master mode, and one
    that runs the software mode. *)
Definition dpix_session : State :=
  mkState None (mkDepsgraph 1 LANPR_MASTER_MODE_DPIX false []) no_layers [].

Definition software_session : State :=
  mkState None (mkDepsgraph 1 LANPR_MASTER_MODE_SOFTWARE false []) no_layers [].

(** The condition of each [continue], and the source order. *)
Definition fires
  (ob : option Object) (qi_begin qi_end : Z) (col : option Collection) (types : Z)
  (rlc : LANPR_RenderLineChain) (k : Continue) : bool :=
  match k with
  | ContinuePicked => cond_picked rlc
  | ContinueNoObjectRef => cond_no_object_ref ob rlc
  | ContinueType => cond_type types rlc
  | ContinueLevel => cond_level qi_begin qi_end rlc
  | ContinueObject => cond_object ob rlc
  | ContinueCollection => cond_collection col rlc
  end.

Definition earlier (k : Continue) : list Continue :=
  match k with
  | ContinuePicked => []
  | ContinueNoObjectRef => [ContinuePicked]
  | ContinueType => [ContinuePicked; ContinueNoObjectRef]
  | ContinueLevel => [ContinuePicked; ContinueNoObjectRef; ContinueType]
  | ContinueObject => [ContinuePicked; ContinueNoObjectRef; ContinueType; ContinueLevel]
  | ContinueCollection =>
      [ContinuePicked; ContinueNoObjectRef; ContinueType; ContinueLevel; ContinueObject]
  end.

(** Following the spec's words: "already-picked (skip), collection/object/
    source filters, type bitmask filter, level-range filter". *)
Definition chain_filter_claimed_order
  (ob : option Object) (qi_begin qi_end : Z) (col : option Collection) (types : Z)
  (rlc : LANPR_RenderLineChain) : option Continue :=
  if cond_picked rlc then Some ContinuePicked
  else if cond_no_object_ref ob rlc then Some ContinueNoObjectRef
  else if cond_object ob rlc then Some ContinueObject
  else if cond_collection col rlc then Some ContinueCollection
  else if cond_type types rlc then Some ContinueType
  else if cond_level qi_begin qi_end rlc then Some ContinueLevel
  else None.

(** A small scene: a mesh with two feature-line modifiers in the master
    collection, a second mesh in a child collection that is itself included
    with a grease-pencil target, all aimed at the grease-pencil object 100;
    an engine that extracts five chains, the first one arriving marked. *)
Definition gp_target : ObjectRef := mkObjectRef 100 OB_GPENCIL.
Definition contour_modifier : ModifierData :=
  FeatureLine (mkFlmd (Some gp_target) 0 0 0 false 7 1).
Definition crease_modifier : ModifierData :=
  FeatureLine (mkFlmd (Some gp_target) 0 0 1 true 8 3).
Definition mesh_a : Object := mkObject 1 OB_MESH [contour_modifier; crease_modifier].
Definition mesh_b : Object := mkObject 2 OB_MESH [contour_modifier].
Definition child_collection : Collection :=
  mkCollection [mesh_b] []
    (mkCollectionLANPR COLLECTION_LANPR_INCLUDE (Some gp_target) 0 0 2 true 9 3).
Definition root_collection : Collection :=
  mkCollection [mesh_a] [child_collection]
    (mkCollectionLANPR COLLECTION_LANPR_OTHER None 0 0 0 false 0 0).
Definition small_context : bContext :=
  mkContext (mkScene 5 1 3 root_collection) mesh_a.
Definition a_point : LANPR_RenderLineChainItem := mkChainItem (F32.one, F32.zero, F32.one).
Definition five_chains (dg : Depsgraph) : list LANPR_RenderLineChain :=
  [mkChain true (Some 1%nat) 1 0 [a_point; a_point];
   mkChain false (Some 2%nat) 1 0 [a_point];
   mkChain false None 2 1 [a_point];
   mkChain false (Some 1%nat) 2 1 [a_point];
   mkChain false (Some 2%nat) 2 2 []].
Definition fresh_session (overwrite : bool) : State :=
  mkState None (mkDepsgraph 5 LANPR_MASTER_MODE_SOFTWARE overwrite [gp_target]) no_layers [].

Definition mesh_one : option Object := Some (mkObject 1 OB_MESH []).
Definition chain_of_object_two : LANPR_RenderLineChain := mkChain false (Some 2%nat) 1 0 [].

End LanprProps.

Module MapRangeProps.
Import F32 MapRange.

Definition two : float := S754_finite false 8388608 (-22).
Definition three : float := S754_finite false 12582912 (-22).
Definition p30 : float := S754_finite false 8388608 7.
Definition max_float : float := S754_finite false 16777215 104.

Definition example_kernel : KernelGlobals := mkKernelGlobals [mkUint4 0 3 4 5].
Definition example_stack : list float := [two; one; three; zero; two; zero].

End MapRangeProps.

Module LanprSteps.
Import LANPR LanprProps.

(** The layer the update functions emit into: the one
    [BKE_gpencil_layer_get_index] finds, or the one added at the tail. *)
Definition target_layer (g : GPStore) (gpobj : ObjectId) (layer_index : Z) : LayerKey :=
  match BKE_gpencil_layer_get_index g gpobj layer_index with
  | Some gpl => gpl
  | None => snd (BKE_gpencil_layer_addnew g gpobj)
  end.

Definition target_frame (s : State) (gpobj : ObjectId) (layer_index : Z) (frame : Z)
  : FrameKey :=
  (target_layer (gp s) gpobj layer_index, frame).

(** The strokes and the [GP_FRAME_LANPR_CLEARED] flag of a frame of the
    store; a frame that does not exist has neither. *)
Definition strokes_at (s : State) (k : FrameKey) : list bGPDstroke :=
  match gp_frame (gp s) k with Some f => strokes f | None => [] end.

Definition cleared_at (s : State) (k : FrameKey) : bool :=
  match gp_frame (gp s) k with Some f => flag_lanpr_cleared f | None => false end.

(** [rb->scene->lanpr.gpencil_overwrite] of the shared buffer. *)
Definition overwrite (s : State) : bool :=
  match render_buffer_shared s with
  | Some rb => rb_scene_gpencil_overwrite rb
  | None => false
  end.

Definition software (s : State) : bool := is_software (dg_master_mode (depsgraph s)).

Definition buffer_chains (s : State) : list LANPR_RenderLineChain :=
  match render_buffer_shared s with Some rb => chains rb | None => [] end.

(** The target frame is left alone: it has strokes and overwriting is off. *)
Definition protected (s : State) (k : FrameKey) : bool :=
  negb (overwrite s) && negb (match strokes_at s k with [] => true | _ => false end).

(** The strokes one emission leaves in its target frame [k]: those of the
    frame if it was already cleared in this run, then one stroke for each
    chain that passes the filter, in buffer order. *)
Definition emitted_strokes
  (s : State) (k : FrameKey) (ob : option Object) (qi_begin qi_end material_nr : Z)
  (col : option Collection) (types : Z) : list bGPDstroke :=
  (if cleared_at s k then strokes_at s k else []) ++
  (if software s
   then map (stroke_of material_nr)
            (filter (accepts ob qi_begin qi_end col types) (buffer_chains s))
   else []).

(** A run of emissions at [frame] into targets that satisfy [allowed],
    started with a buffer. *)
Inductive emission_steps (allowed : ObjectId -> Prop) (frame : Z) : State -> State -> Prop :=
| steps_done (s : State) : emission_steps allowed frame s s
| steps_emit (s s1 s' : State) (gpobj : ObjectId) (layer_index : Z)
    (ob : option Object) (qi_begin qi_end material_nr : Z)
    (col : option Collection) (types : Z) :
    allowed gpobj ->
    has_buffer s ->
    emit_to_target s gpobj layer_index frame ob qi_begin qi_end material_nr col types
    = Some s1 ->
    emission_steps allowed frame s1 s' ->
    emission_steps allowed frame s s'.

(** The evaluated objects contain the grease-pencil object [o]. *)
Definition evaluated_gpencil (s : State) (o : ObjectId) : bool :=
  existsb (fun r => Nat.eqb (ref_id r) o && ObjectType_eqb (ref_type r) OB_GPENCIL)
          (dg_objects (depsgraph s)).

(** A step all of whose effects are emissions into allowed targets. *)
Definition Stepper (allowed : ObjectId -> Prop) (frame : Z) (f : State -> option State)
  : Prop :=
  forall s s', has_buffer s -> f s = Some s' -> emission_steps allowed frame s s'.

(** The targets a pass restricted by [target_only] may emit into. *)
Definition not_excluded (target_only : option ObjectId) (gpobj : ObjectId) : Prop :=
  target_excluded target_only gpobj = false.

Section Operators.
Variable feature_lines : Depsgraph -> list LANPR_RenderLineChain.

(** The three single-frame operators. *)
Definition update_operators (C : bContext) : list (State -> option State) :=
  [lanpr_update_gp_strokes_exec feature_lines C;
   lanpr_update_gp_target_exec feature_lines C;
   lanpr_update_gp_source_exec feature_lines C].

End Operators.

End LanprSteps.

Module LanprScenes.
Import LANPR LanprProps LanprSteps.

(** A session whose target object 100 already has a hand-drawn stroke in the
    frame 5 of its only layer. *)
Definition a_stroke : bGPDstroke := mkStroke 0 0 1 [] 0.

Definition drawn_store : GPStore :=
  mkGPStore (fun o => if Nat.eqb o 100 then 1%nat else O)
            (fun k => if FrameKey_eqb k (100%nat, O, 5)
                      then Some (mkFrame [a_stroke] false) else None).

Definition drawn_session (mode : MasterMode) (overwrite : bool) : State :=
  mkState None (mkDepsgraph 5 mode overwrite [gp_target]) drawn_store [].

(** The trace of a bake that emits nothing. *)
Definition quiet_bake_trace (fs : list Z) : list Event :=
  flat_map (fun f => [EvCompute f; EvClearPicked]) fs.

End LanprScenes.

Module LanprStrokes.
Import LANPR LanprProps LanprSteps.

(** What the operators never change in a chain: everything but the mark. *)
Definition unmarked (rlc : LANPR_RenderLineChain) : LANPR_RenderLineChain :=
  mkChain false (object_ref rlc) (type rlc) (level rlc) (chain rlc).

(** The stroke comes from a chain of the shared buffer. *)
Definition drawn_from (s : State) (st : bGPDstroke) : Prop :=
  exists material_nr rlc, In rlc (buffer_chains s) /\ st = stroke_of material_nr rlc.

End LanprStrokes.

Module LanprScript.
Import LANPR LanprProps LanprSteps.

(** The arguments of one emission: the target object and layer, and what
    [lanpr_generate_gpencil_from_chain] is called with. *)
Record Emission : Type := mkEmission {
  em_target : ObjectId;
  em_layer : Z;
  em_source : option Object;
  em_level_begin : Z;
  em_level_end : Z;
  em_material : Z;
  em_collection : option Collection;
  em_types : Z
}.

Definition emit (frame : Z) (e : Emission) (s : State) : option State :=
  emit_to_target s (em_target e) (em_layer e) frame (em_source e)
    (em_level_begin e) (em_level_end e) (em_material e) (em_collection e) (em_types e).

(** The emissions of the passes, as the scene alone determines them. *)
Definition modifier_emissions (target_only : option ObjectId) (ob : Object)
  (md : ModifierData) : list Emission :=
  match md with
  | OtherModifier => []
  | FeatureLine flmd =>
      match flmd_target flmd with
      | Some gpobj =>
          if ObjectType_eqb (ref_type gpobj) OB_GPENCIL then
            if target_excluded target_only (ref_id gpobj) then []
            else
              [mkEmission (ref_id gpobj) (flmd_layer flmd) (Some ob)
                 (flmd_level_begin flmd)
                 (if flmd_use_multiple_levels flmd then flmd_level_end flmd
                  else flmd_level_begin flmd)
                 (flmd_material flmd) None (flmd_types flmd)]
          else []
      | None => []
      end
  end.

Definition object_emissions (target_only : option ObjectId) (ob : Object) : list Emission :=
  flat_map (modifier_emissions target_only ob) (modifiers ob).

Fixpoint recursive_emissions (col : Collection) (source_only : option Object)
  (target_only : option ObjectId) : list Emission :=
  match source_only with
  | Some ob => object_emissions target_only ob
  | None =>
      match col with
      | mkCollection g ch _ =>
          flat_map (object_emissions target_only) g ++
          (fix over_children (l : list Collection) : list Emission :=
             match l with
             | [] => []
             | cc :: l' => recursive_emissions cc source_only target_only ++ over_children l'
             end) ch
      end
  end.

Definition here_emissions (col : Collection) (target_only : option ObjectId)
  : list Emission :=
  let cl := lanpr col in
  match target cl with
  | Some gpobj =>
      if negb (is_include (usage cl)) then []
      else if target_excluded target_only (ref_id gpobj) then []
      else
        [mkEmission (ref_id gpobj) (layer cl) None (level_begin cl)
           (if use_multiple_levels cl then level_end cl else level_begin cl)
           (material cl) (Some col) (types cl)]
  | None => []
  end.

Fixpoint collection_emissions (col : Collection) (this_only : bool)
  (target_only : option ObjectId) : list Emission :=
  match col with
  | mkCollection _ ch _ =>
      (if this_only then []
       else
         (fix over_children (l : list Collection) : list Emission :=
            match l with
            | [] => []
            | cc :: l' => collection_emissions cc this_only target_only ++ over_children l'
            end) ch) ++
      here_emissions col target_only
  end.

(** The emissions of a single-frame operator. *)
Definition operator_emissions (C : bContext) (source_only : option Object)
  (target_only : option ObjectId) : list Emission :=
  recursive_emissions (master_collection (CTX_data_scene C)) source_only target_only ++
  collection_emissions (master_collection (CTX_data_scene C)) false target_only.

(** Two runs of the same emissions in step: [a] is the state of the first
    run, [b] that of a later run.  They share buffer and depsgraph and
    overwriting is on; an object has the same layers in both, or none in [a]
    and one in [b]; a frame carries the flag in neither, or is the same in
    both and flagged. *)
Definition in_step (a b : State) : Prop :=
  has_buffer a /\
  render_buffer_shared a = render_buffer_shared b /\
  depsgraph a = depsgraph b /\
  overwrite a = true /\
  (forall o, gp_layers (gp a) o = gp_layers (gp b) o \/
             (gp_layers (gp a) o = O /\ gp_layers (gp b) o = 1%nat)) /\
  (forall k, (cleared_at a k = false /\ cleared_at b k = false) \/
             (gp_frame (gp a) k = gp_frame (gp b) k /\ cleared_at a k = true)).

(** The buffer after an emission that is not held back. *)
Definition mark_buffer (ob : option Object) (qi_begin qi_end : Z)
  (col : option Collection) (types : Z) (s : State) : option LANPR_RenderBuffer :=
  match render_buffer_shared s with
  | Some rb =>
      if software s then
        Some (mkRenderBuffer
                (map (fun rlc => if accepts ob qi_begin qi_end col types rlc
                                 then set_picked rlc else rlc) (chains rb))
                (cached_for_frame rb) (rb_scene_gpencil_overwrite rb))
      else Some rb
  | None => None
  end.

(** The object is the target of one of the emissions. *)
Definition targeted (es : list Emission) (o : ObjectId) : bool :=
  existsb (fun e => Nat.eqb (em_target e) o) es.

(** Every target of the emissions of the operator is an evaluated
    grease-pencil object. *)
Definition targets_evaluated (C : bContext) (source_only : option Object)
  (target_only : option ObjectId) (s : State) : Prop :=
  forall o, targeted (operator_emissions C source_only target_only) o = true ->
            evaluated_gpencil s o = true.

(** The operator returns twice in a row, and the second run leaves in every
    frame the strokes the first run has left, and the buffer as it was. *)
Definition runs_twice_alike (op : State -> option State) (s : State) : Prop :=
  exists s1 s2,
    op s = Some s1 /\ op s1 = Some s2 /\
    render_buffer_shared s2 = render_buffer_shared s1 /\
    forall k, strokes_at s2 k = strokes_at s1 k.

End LanprScript.

Module LanprDataProps.
Import LanprData.
Local Open Scope nat_scope.

Section Layers.

Context {LayerFields ComponentFields : Type}.

(** The blocks of a list of layers, and what the layers hold. *)
Definition nodes (lls : list (LANPR_LineLayer LayerFields ComponentFields)) : list nat :=
  flat_map (fun ll => ll_self ll :: map llc_self (components ll)) lls.

Definition contents (lls : list (LANPR_LineLayer LayerFields ComponentFields))
  : list (LayerFields * list ComponentFields) :=
  map (fun ll => (ll_fields ll, map llc_fields (components ll))) lls.

(** The allocated blocks [l] without the blocks [gone]. *)
Definition released (gone : list nat) (l : list nat) : list nat :=
  filter (fun a => negb (existsb (Nat.eqb a) gone)) l.

(** The release of a sequence of blocks, and the order in which
    [ED_lanpr_free_everything] releases the blocks of a list of layers. *)
Fixpoint free_all (l : list nat) (m : Memory LayerFields ComponentFields)
  : option (Memory LayerFields ComponentFields) :=
  match l with
  | [] => Some m
  | a :: rest =>
      match MEM_freeN m a with
      | Some m1 => free_all rest m1
      | None => None
      end
  end.

Definition release_order (lls : list (LANPR_LineLayer LayerFields ComponentFields)) : list nat :=
  flat_map (fun ll => map llc_self (components ll) ++ [ll_self ll]) lls.

End Layers.

(** An allocator that hands out the address after the largest one in use,
    and a scene 1 with two layers, the first with two components. *)
Definition next_address (l : list nat) : nat := S (list_max l).

Definition two_layers : Memory string Z :=
  mkMemory [10; 11; 12; 13]
    (fun sc => if Nat.eqb sc 1
               then [mkLineLayer 10 "contour"%string [mkComponent 11 1%Z; mkComponent 12 2%Z];
                     mkLineLayer 13 "crease"%string []]
               else []).

End LanprDataProps.

Module MapRangeSpecial.
Import F32 MapRange MapRangeProps.

Definition is_nan (x : float) : bool :=
  match x with S754_nan => true | _ => false end.

(** A stack whose slot 0 holds a NaN. *)
Definition nan_stack : list float := [S754_nan; one; three; zero; two; zero].

End MapRangeSpecial.

Module LanprSharedProps.
Import LANPR LanprProps LanprSteps.

(** A step that returns when started with a buffer, all of whose effects
    are emissions into allowed keys of the store. *)
Definition Runner (allowed : ObjectId -> Prop) (frame : Z) (f : State -> option State)
  : Prop :=
  forall s, has_buffer s ->
            exists s', f s = Some s' /\ emission_steps allowed frame s s'.

End LanprSharedProps.

(** * Part III: properties *)

Module RangeFacts.
Import BLI RangeProps.

Section RangeT.

Variable T_signed : bool.

Local Abbreviation to_T := (to_T T_signed).
Local Abbreviation inT := (inT T_signed).
Local Abbreviation size := (size T_signed).
Local Abbreviation range_for := (range_for T_signed).
Local Abbreviation range_for_from := (range_for_from T_signed).

Ltac unfold_words :=
  unfold BLI.to_T, BLI.inT, BLI.in_uint, to_uint, T_min, T_max, wordsize in *;
  change (2 ^ 32) with 4294967296 in *; change (2 ^ 31) with 2147483648 in *.

Lemma to_T_inT (z : Z) : inT z -> to_T z = z.
Proof.
  unfold_words. destruct T_signed; intros H.
  - rewrite Z.mod_small; lia.
  - rewrite Z.mod_small; lia.
Qed.

Lemma to_T_range (z : Z) : inT (to_T z).
Proof.
  unfold_words. destruct T_signed.
  - pose proof (Z.mod_pos_bound (z + 2147483648) 4294967296). lia.
  - pose proof (Z.mod_pos_bound z 4294967296). lia.
Qed.

Lemma to_uint_to_T (z : Z) : to_uint (to_T z) = to_uint z.
Proof.
  unfold_words. destruct T_signed; [|apply Z.mod_mod; lia].
  rewrite <- Zminus_mod_idemp_l.
  rewrite Z.mod_mod by lia.
  rewrite Zminus_mod_idemp_l. f_equal. lia.
Qed.

Lemma size_diff (s e : Z) :
  inT s -> inT e -> s <= e -> size (mkRange s e) = e - s.
Proof.
  intros Hs He Hle. unfold BLI.size. cbn [m_start m_one_after_last].
  rewrite to_uint_to_T. unfold_words.
  apply Z.mod_small. destruct T_signed; lia.
Qed.

Lemma upfrom_cons (a : Z) (n : nat) : upfrom a (S n) = a :: upfrom (a + 1) n.
Proof.
  unfold upfrom. cbn [seq map]. f_equal; [lia|].
  rewrite <- seq_shift, map_map. apply map_ext. intros i. lia.
Qed.

Lemma upfrom_length (a : Z) (n : nat) : length (upfrom a n) = n.
Proof. unfold upfrom. now rewrite length_map, length_seq. Qed.

(** The loop reaches [stop] from any position at or below it, after exactly
    [stop - it] rounds. *)
Lemma range_for_from_upfrom (n : nat) :
  forall (fuel : nat) (it stop : Z),
    inT it -> inT stop -> it <= stop -> n = Z.to_nat (stop - it) ->
    (n <= fuel)%nat ->
    range_for_from fuel it stop = Some (upfrom it n).
Proof.
  induction n as [|n IH]; intros fuel it stop Hit Hstop Hle Hn Hfuel.
  - assert (it = stop) as -> by lia.
    destruct fuel; cbn; unfold iter_neq; now rewrite Z.eqb_refl.
  - destruct fuel as [|fuel]; [lia|].
    cbn [BLI.range_for_from]. unfold iter_neq.
    destruct (Z.eqb_spec it stop) as [->|Hne]; [lia|]. cbn [negb].
    assert (Hin : inT (it + 1)) by (unfold_words; destruct T_signed; lia).
    unfold iter_incr. rewrite (to_T_inT _ Hin).
    rewrite (IH fuel (it + 1) stop) by (auto; lia).
    unfold iter_deref. now rewrite upfrom_cons.
Qed.

Lemma contains_iff (r : Range) (v : Z) :
  contains r v = true <-> m_start r <= v < m_one_after_last r.
Proof. unfold contains. rewrite andb_true_iff, Z.geb_le, Z.ltb_lt. lia. Qed.

End RangeT.

Lemma Range_new_debug (s e : Z) :
  Range_new true s e = if s <=? e then Ok (mkRange s e) else AssertFail site_ctor.
Proof. unfold Range_new, BLI_assert. now destruct (s <=? e). Qed.

(** C6: for every [Range(start, one_after_last)] with
    [start <= one_after_last], at [T = int] and at [T = uint]: the constructor
    accepts the pair, [size()] is [one_after_last - start], the range-based
    loop from [begin()] to [end()] terminates and hands out exactly [size()]
    values, namely [start, start+1, ...] in increasing order with step one,
    and [contains(v)] holds iff [start <= v < one_after_last]. *)
Theorem range_size_iteration_contains :
  forall (T_signed debug : bool) (start one_after_last : Z),
    inT T_signed start -> inT T_signed one_after_last ->
    start <= one_after_last ->
    let r := mkRange start one_after_last in
    Range_new debug start one_after_last = Ok r /\
    size T_signed r = one_after_last - start /\
    (forall fuel : nat,
        (Z.to_nat (size T_signed r) <= fuel)%nat ->
        exists l,
          range_for T_signed fuel r = Some l /\
          length l = Z.to_nat (size T_signed r) /\
          l = upfrom start (Z.to_nat (size T_signed r)) /\
          (forall i : nat, (i < length l)%nat ->
                           nth i l 0 = start + Z.of_nat i)) /\
    (forall v : Z, contains r v = true <-> start <= v < one_after_last).
Proof.
  intros T_signed debug s e Hs He Hle r.
  assert (Hsize : size T_signed r = e - s) by now apply size_diff.
  split; [|split; [exact Hsize|split]].
  - unfold Range_new, BLI_assert.
    destruct (Z.leb_spec s e); [|lia]. now rewrite andb_false_r.
  - intros fuel Hfuel. exists (upfrom s (Z.to_nat (size T_signed r))).
    split; [|split; [apply upfrom_length|split; [reflexivity|]]].
    + unfold range_for, begin_, end_. cbn [m_start m_one_after_last r].
      apply range_for_from_upfrom with (stop := e); auto.
      now rewrite Hsize.
    + intros i Hi. rewrite upfrom_length in Hi. unfold upfrom.
      rewrite (nth_indep _ 0 ((fun i => s + Z.of_nat i) O))
        by now rewrite length_map, length_seq.
      rewrite (map_nth (fun i => s + Z.of_nat i)).
      rewrite seq_nth by exact Hi. reflexivity.
  - intros v. apply contains_iff.
Qed.

Lemma range_size_iteration_contains_witness :
  inT true (-2) /\ inT true 3 /\ -2 <= 3 /\
  size true (mkRange (-2) 3) = 5 /\
  range_for true 5 (mkRange (-2) 3) = Some [-2; -1; 0; 1; 2] /\
  contains (mkRange (-2) 3) 2 = true.
Proof.
  assert (H1 : inT true (-2)) by (vm_compute; split; discriminate).
  assert (H2 : inT true 3) by (vm_compute; split; discriminate).
  assert (H3 : -2 <= 3) by lia.
  destruct (range_size_iteration_contains true true (-2) 3 H1 H2 H3)
    as (_ & Hsz & Hit & Hc).
  split; [exact H1|]. split; [exact H2|]. split; [exact H3|].
  split; [exact Hsz|]. split.
  - destruct (Hit 5%nat) as (l & Hl & _ & -> & _); [rewrite Hsz; simpl; lia|].
    rewrite Hl, Hsz. reflexivity.
  - apply Hc. lia.
Defined.

Lemma slice_assertion_nowrap (T_signed : bool) (r : Range) (st sz : Z) :
  0 <= m_start r -> 0 <= st -> 0 <= sz ->
  m_start r + st + sz < wordsize ->
  0 <= m_one_after_last r < wordsize ->
  slice_assertion r st sz = true <->
  (m_start r + st + sz <= m_one_after_last r \/ sz = 0).
Proof.
  intros H1 H2 H3 H4 H5. unfold slice_assertion, slice_new_start, to_uint.
  rewrite orb_true_iff, Z.leb_le, Z.eqb_eq.
  rewrite (Z.mod_small (m_start r + st)) by lia.
  rewrite (Z.mod_small (m_start r + st + sz)) by lia.
  rewrite (Z.mod_small (m_one_after_last r)) by lia.
  reflexivity.
Qed.

Lemma slice_fails_iff (T_signed : bool) (r : Range) (st sz : Z) :
  fails_at site_slice (slice T_signed true r st sz) <->
  slice_assertion r st sz = false.
Proof.
  unfold fails_at, slice, BLI_assert. cbn [andb].
  destruct (slice_assertion r st sz); cbn [negb cbind].
  - rewrite Range_new_debug. split; [|discriminate].
    destruct (_ <=? _); discriminate.
  - split; reflexivity.
Qed.

(** In a debug build the constructor's assertion [start <= one_after_last]
    fails for every pair with [start > one_after_last] and holds for every
    pair with [start <= one_after_last]; [slice(start, size)] fails at its own
    assertion exactly when [size != 0] and [new_start + size], computed in
    [uint], exceeds [m_one_after_last]; where the range starts at or above
    zero and nothing wraps this is
    [m_start + start + size > m_one_after_last]. *)
Lemma range_contract_assertions :
  forall T_signed : bool,
    (forall s e : Z, fails_at site_ctor (Range_new true s e) <-> s > e) /\
    (forall s e : Z, Range_new true s e = Ok (mkRange s e) <-> s <= e) /\
    (forall (r : Range) (st sz : Z),
        fails_at site_slice (slice T_signed true r st sz) <->
        (to_uint (to_uint (m_start r + st) + sz) > to_uint (m_one_after_last r)
         /\ sz <> 0)) /\
    (forall (r : Range) (st sz : Z),
        0 <= m_start r -> 0 <= st -> 0 <= sz ->
        m_start r + st + sz < wordsize ->
        0 <= m_one_after_last r < wordsize ->
        (fails_at site_slice (slice T_signed true r st sz) <->
         (m_start r + st + sz > m_one_after_last r /\ sz <> 0))).
Proof.
  intros T_signed. split; [|split; [|split]].
  - intros s e. unfold fails_at. rewrite Range_new_debug.
    destruct (Z.leb_spec s e); split; try discriminate; try lia; reflexivity.
  - intros s e. rewrite Range_new_debug.
    destruct (Z.leb_spec s e); split; try discriminate; try lia; reflexivity.
  - intros r st sz. rewrite slice_fails_iff. unfold slice_assertion, slice_new_start.
    rewrite orb_false_iff, Z.leb_gt, Z.eqb_neq. lia.
  - intros r st sz H1 H2 H3 H4 H5. rewrite slice_fails_iff.
    pose proof (slice_assertion_nowrap T_signed r st sz H1 H2 H3 H4 H5) as Hs.
    destruct (slice_assertion r st sz).
    + split; [discriminate|]. intros [Hgt Hne].
      destruct (proj1 Hs eq_refl); lia.
    + split; [intros _|reflexivity].
      split.
      * destruct (Z.le_gt_cases (m_start r + st + sz) (m_one_after_last r)); [|lia].
        assert (false = true) by (apply Hs; now left). discriminate.
      * intros ->. assert (false = true) by (apply Hs; now right). discriminate.
Qed.

Lemma to_uint_negative (z : Z) : - wordsize <= z < 0 -> to_uint z = z + wordsize.
Proof.
  intros H. unfold to_uint.
  rewrite <- (Z.mod_add z 1 wordsize) by (unfold wordsize; lia).
  apply Z.mod_small. lia.
Qed.

(** C7: the assertion of the constructor is the claimed one: in a debug build
    it fails for every pair with [start > one_after_last] and holds for every
    other pair.  The assertion of [slice] is not the claimed comparison of
    integers: [new_start] is a [uint].  On the [int] range from [-5] to [5]
    the slice at [2] of size [2], the numbers [-3] and [-2], satisfies
    [m_start + start + size <= m_one_after_last] and fails the assertion in a
    debug build, while a release build returns that slice and [operator[]]
    reaches its first element.  Ranges below zero are what [before] returns:
    the slice of size [2] at the start of [Range<int>(0, 5).before(3)] fails
    the assertion too.  The same holds of every slice of positive size that
    ends below zero, of an [int] range that ends at or above zero. *)
Theorem slice_asserts_inside_negative_range :
  (forall s e : Z, fails_at site_ctor (Range_new true s e) <-> s > e) /\
  (forall s e : Z, Range_new true s e = Ok (mkRange s e) <-> s <= e) /\
  Range_new true (-5) 5 = Ok (mkRange (-5) 5) /\
  slice_assertion_claimed (mkRange (-5) 5) 2 2 = true /\
  slice true true (mkRange (-5) 5) 2 2 = AssertFail site_slice /\
  slice true false (mkRange (-5) 5) 2 2 = Ok (mkRange (-3) (-1)) /\
  index true true (mkRange (-5) 5) 2 = Ok (-3) /\
  before true true (mkRange 0 5) 3 = Ok (mkRange (-3) 0) /\
  slice_assertion_claimed (mkRange (-3) 0) 0 2 = true /\
  slice true true (mkRange (-3) 0) 0 2 = AssertFail site_slice /\
  (forall s e st sz : Z,
      inT true s -> inT true e -> 0 <= st -> 0 < sz ->
      s + st + sz < 0 -> 0 <= e ->
      slice_assertion_claimed (mkRange s e) st sz = true /\
      slice true true (mkRange s e) st sz = AssertFail site_slice).
Proof.
  destruct (range_contract_assertions true) as (Hc & Ho & _ & _).
  split; [exact Hc|]. split; [exact Ho|].
  split; [reflexivity|]. split; [reflexivity|]. split; [reflexivity|].
  split; [reflexivity|]. split; [reflexivity|].
  split; [reflexivity|]. split; [reflexivity|]. split; [reflexivity|].
  intros s e st sz Hs He Hst Hsz Hneg He0.
  assert (Hb : - 2 ^ 31 <= s /\ e <= 2 ^ 31 - 1) by (unfold inT, T_min, T_max in *; lia).
  change (2 ^ 31) with 2147483648 in Hb.
  assert (Hw : wordsize = 4294967296) by reflexivity.
  split.
  - unfold slice_assertion_claimed. cbn [m_start m_one_after_last].
    apply orb_true_iff. left. apply Z.leb_le. lia.
  - unfold slice, slice_assertion, slice_new_start, BLI_assert.
    cbn [m_start m_one_after_last].
    rewrite (to_uint_negative (s + st)) by lia.
    replace (s + st + wordsize + sz) with (s + st + sz + wordsize) by lia.
    assert (Hsum : to_uint (s + st + sz + wordsize) = s + st + sz + wordsize).
    { unfold to_uint. apply Z.mod_small. lia. }
    assert (Hend : to_uint e = e) by (unfold to_uint; apply Z.mod_small; lia).
    rewrite Hsum, Hend.
    destruct (Z.leb_spec (s + st + sz + wordsize) e); [lia|].
    destruct (Z.eqb_spec sz 0); [lia|]. reflexivity.
Qed.

(** C10: [operator==] compares the two fields and nothing else: it holds iff
    both [m_start] and [m_one_after_last] agree, so the empty ranges
    [Range(1,1)] and [Range(2,2)], both well-formed and both without any
    element, compare unequal. *)
Theorem range_eq_representational :
  (forall a b : Range,
      range_eq a b = true <->
      (m_start a = m_start b /\ m_one_after_last a = m_one_after_last b)) /\
  (forall debug : bool,
      Range_new debug 1 1 = Ok (mkRange 1 1) /\
      Range_new debug 2 2 = Ok (mkRange 2 2)) /\
  (forall T_signed : bool,
      size T_signed (mkRange 1 1) = 0 /\ size T_signed (mkRange 2 2) = 0) /\
  (forall v : Z,
      contains (mkRange 1 1) v = false /\ contains (mkRange 2 2) v = false) /\
  range_eq (mkRange 1 1) (mkRange 2 2) = false.
Proof.
  split; [|split; [|split; [|split]]].
  - intros a b. unfold range_eq. now rewrite andb_true_iff, !Z.eqb_eq.
  - intros []; split; reflexivity.
  - intros []; split; reflexivity.
  - intros v. unfold contains. cbn [m_start m_one_after_last].
    split; apply andb_false_iff; rewrite Z.geb_leb, Z.leb_gt, Z.ltb_ge; lia.
  - reflexivity.
Qed.

End RangeFacts.

Module PaletteFacts.
Import Palette PaletteProps.

Lemma BLI_findindex_bounds (l : list PaletteColor) (v : nat) :
  -1 <= BLI_findindex l v < Z.of_nat (length l).
Proof.
  induction l as [|c l IH]; cbn [BLI_findindex length]; [lia|].
  destruct (Nat.eqb (self c) v); [lia|].
  destruct (Z.eqb_spec (BLI_findindex l v) (-1)); lia.
Qed.

Lemma BLI_findindex_none (l : list PaletteColor) (v : nat) :
  BLI_findindex l v = -1 <-> ~ In v (map self l).
Proof.
  induction l as [|c l IH]; cbn [BLI_findindex map In]; [tauto|].
  destruct (Nat.eqb_spec (self c) v) as [->|Hne].
  - split; [discriminate|tauto].
  - pose proof (BLI_findindex_bounds l v).
    destruct (Z.eqb_spec (BLI_findindex l v) (-1)) as [He|Hn].
    + split; [|reflexivity]. intros _ [H'|H']; [congruence|]. now apply IH.
    + split; [lia|]. intros Hnot. exfalso. apply Hn, IH. tauto.
Qed.

Lemma BLI_findindex_remlink (l : list PaletteColor) (v : nat) :
  BLI_findindex (BLI_remlink l v) v = -1.
Proof.
  apply BLI_findindex_none. unfold BLI_remlink. rewrite in_map_iff.
  intros (c & Hc & Hin). apply filter_In in Hin as [_ Hf].
  rewrite Hc, Nat.eqb_refl in Hf. discriminate.
Qed.

Lemma BLI_remlink_others (l : list PaletteColor) (v : nat) (c : PaletteColor) :
  self c <> v -> (In c (BLI_remlink l v) <-> In c l).
Proof.
  intros Hne. unfold BLI_remlink. rewrite filter_In.
  apply Nat.eqb_neq in Hne. rewrite Hne. tauto.
Qed.

Section Runtime.

Variable BKE_palette_color_remove : Palette -> nat -> Palette.
Variable BLI_strncpy_utf8 : string -> nat -> string.
Variable BLI_uniquename : list string -> string -> ascii -> nat -> string -> string.

Local Abbreviation color_remove := (rna_Palette_color_remove BKE_palette_color_remove).
Local Abbreviation info_set := (rna_PaletteColor_info_set BLI_strncpy_utf8 BLI_uniquename).

Lemma info_set_ignores_pointer (palette : Palette) (p q : PointerRNA) (value : string) :
  info_set palette p value = info_set palette q value.
Proof. reflexivity. Qed.

Lemma set_info_other (l : list PaletteColor) (i j : nat) (name : string) :
  i <> j -> nth_error (set_info l i name) j = nth_error l j.
Proof.
  revert i j. induction l as [|c l IH]; intros [|i] [|j] Hne; cbn; auto; try easy.
Qed.

Lemma set_info_same (l : list PaletteColor) (i : nat) (name : string) (c : PaletteColor) :
  nth_error l i = Some c ->
  nth_error (set_info l i name) i = Some (mkColor (self c) name).
Proof.
  revert i. induction l as [|d l IH]; intros [|i] H; cbn in *; try discriminate.
  - now inversion H.
  - now apply IH.
Qed.

(** What the setter does to the list: the node at [active_color] gets the new
    name, every other node keeps its name, whatever the pointer designates. *)
Lemma info_set_effect (palette palette' : Palette) (ptr : PointerRNA) (value : string) :
  info_set palette ptr value = Some palette' ->
  exists c, BLI_findlink (colors palette) (active_color palette) = Some c /\
    let i := Z.to_nat (active_color palette) in
    nth_error (colors palette') i =
      Some (mkColor (self c)
              (BLI_uniquename (other_names (colors palette) i) "Color"%string "."%char
                 64%nat (BLI_strncpy_utf8 value 64%nat))) /\
    forall j, j <> i -> nth_error (colors palette') j = nth_error (colors palette) j.
Proof.
  unfold rna_PaletteColor_info_set.
  destruct (BLI_findlink (colors palette) (active_color palette)) as [c|] eqn:Hf;
    [|discriminate].
  intros H. inversion H; subst palette'; clear H. exists c. split; [reflexivity|].
  cbn [colors]. split.
  - apply set_info_same. unfold BLI_findlink in Hf.
    now destruct (active_color palette <? 0).
  - intros j Hj. apply set_info_other. congruence.
Qed.

End Runtime.

(** C8: when the colour handed to [remove] is not linked in the palette, one
    error report is appended to the report list and the palette and the
    pointer are returned as they were; when it is linked, the palette is the
    one [BKE_palette_color_remove] leaves, which no longer links the colour
    and still links every other one, no report is made and the pointer is
    invalidated. *)
Theorem palette_color_remove_reports_or_removes :
  forall (BKE_palette_color_remove : Palette -> nat -> Palette)
         (palette : Palette) (reports : ReportList) (color_ptr : PointerRNA),
    (forall p c, colors (BKE_palette_color_remove p c) = BLI_remlink (colors p) c) ->
    let color := ptr_data color_ptr in
    let '(palette', reports', color_ptr') :=
      rna_Palette_color_remove BKE_palette_color_remove palette reports color_ptr in
    (~ contains_color palette color ->
       palette' = palette /\ color_ptr' = color_ptr /\
       exists msg, reports' = (reports ++ [(RPT_ERROR, msg)])%list) /\
    (contains_color palette color ->
       palette' = BKE_palette_color_remove palette color /\
       ~ contains_color palette' color /\
       (forall c, self c <> color -> (In c (colors palette') <-> In c (colors palette))) /\
       reports' = reports /\
       is_invalidated color_ptr' /\ ptr_data color_ptr' = color).
Proof.
  intros remove palette reports color_ptr Hremove color.
  unfold rna_Palette_color_remove. fold color.
  destruct (Z.eqb_spec (BLI_findindex (colors palette) color) (-1)) as [He|Hne].
  - apply BLI_findindex_none in He. split; [|intros Hc; now elim He].
    intros _. split; [reflexivity|]. split; [reflexivity|].
    eexists. reflexivity.
  - split.
    + intros Hnot. elim Hne. now apply BLI_findindex_none.
    + intros _. split; [reflexivity|]. split; [|split; [|split; [|split]]].
      * unfold contains_color. rewrite Hremove.
        apply BLI_findindex_none, BLI_findindex_remlink.
      * intros c Hc. rewrite Hremove. now apply BLI_remlink_others.
      * reflexivity.
      * split; reflexivity.
      * reflexivity.
Qed.

Lemma palette_color_remove_reports_or_removes_witness :
  (forall p c, colors (remove_and_clamp p c) = BLI_remlink (colors p) c) /\
  contains_color two_colors 20 /\
  let '(palette', reports', color_ptr') :=
    rna_Palette_color_remove remove_and_clamp two_colors []
      (mkPointerRNA (Some "PaletteColor"%string) (Some "PLSketch"%string) 20) in
  palette' = mkPalette "PLSketch" [mkColor 10 "Red"] 0 /\
  ~ contains_color palette' 20 /\ reports' = [] /\ is_invalidated color_ptr'.
Proof.
  assert (H : forall p c, colors (remove_and_clamp p c) = BLI_remlink (colors p) c)
    by reflexivity.
  assert (Hin : contains_color two_colors 20) by (right; left; reflexivity).
  split; [exact H|]. split; [exact Hin|].
  pose proof (palette_color_remove_reports_or_removes remove_and_clamp two_colors []
                (mkPointerRNA (Some "PaletteColor"%string) (Some "PLSketch"%string) 20) H)
    as H20.
  cbv zeta in H20. cbn [ptr_data] in H20.
  destruct (rna_Palette_color_remove remove_and_clamp two_colors []
      (mkPointerRNA (Some "PaletteColor"%string) (Some "PLSketch"%string) 20))
    as [[palette' reports'] color_ptr'].
  destruct H20 as [_ H20]. destruct (H20 Hin) as (Hp & Hnc & _ & Hr & Hi & _).
  split; [rewrite Hp; reflexivity|]. split; [exact Hnc|]. split; [exact Hr|exact Hi].
Defined.

(** C9, at a palette whose active colour is not the one being renamed: the
    palette holds "Red" (active) and "Blue"; setting the name of "Blue" to
    "Green" leaves "Blue" as it was and renames "Red". *)
Theorem info_set_renames_active_color_instead :
  forall (BLI_strncpy_utf8 : string -> nat -> string)
         (BLI_uniquename : list string -> string -> ascii -> nat -> string -> string),
    let blue := mkPointerRNA (Some "PaletteColor"%string) (Some "PLSketch"%string) 20 in
    exists palette',
      rna_PaletteColor_info_set BLI_strncpy_utf8 BLI_uniquename two_colors blue "Green"%string
      = Some palette' /\
      name_of palette' 20 = Some "Blue"%string /\
      name_of palette' 10 =
        Some (BLI_uniquename ["Blue"%string] "Color"%string "."%char 64%nat
                (BLI_strncpy_utf8 "Green"%string 64%nat)) /\
      name_of two_colors 10 = Some "Red"%string.
Proof.
  intros cpy uniq blue. eexists. split; [reflexivity|]. repeat split.
Qed.

End PaletteFacts.

Module LanprFacts.
Import LANPR LanprProps.

(** *** The filter *)

Lemma cond_level_false (qi_begin qi_end : Z) (rlc : LANPR_RenderLineChain) :
  cond_level qi_begin qi_end rlc = false <-> qi_begin <= level rlc <= qi_end.
Proof.
  unfold cond_level. rewrite orb_false_iff, Z.gtb_ltb, !Z.ltb_ge. lia.
Qed.

Lemma chain_filter_none ob qi_begin qi_end col types rlc :
  chain_filter ob qi_begin qi_end col types rlc = None <->
  survives ob qi_begin qi_end col types rlc.
Proof.
  unfold chain_filter, survives, cond_picked, cond_no_object_ref, cond_type,
    cond_object, cond_collection.
  pose proof (cond_level_false qi_begin qi_end rlc) as Hl.
  destruct (picked rlc); [split; [discriminate|intros [? _]; discriminate]|].
  destruct ob as [o|], (object_ref rlc) as [r|]; cbn [is_some andb negb].
  - destruct (Z.eqb_spec (Z.land (type rlc) types) 0) as [Ht|Ht];
      [split; [discriminate|intros (_ & _ & ? & _); contradiction]|].
    destruct (cond_level qi_begin qi_end rlc);
      [split; [discriminate|intros (_ & _ & _ & H & _); apply Hl in H; discriminate]|].
    destruct (Nat.eqb_spec (ob_id o) r) as [He|He]; cbn [negb].
    + destruct col as [c|].
      * destruct (BKE_collection_has_object_recursive c r) eqn:Hc; cbn [negb].
        -- split; [intros _|reflexivity].
           repeat split; try (apply Hl; reflexivity); try congruence.
        -- split; [discriminate|]. intros (_ & _ & _ & _ & _ & H).
           specialize (H c r eq_refl eq_refl). congruence.
      * split; [intros _|reflexivity].
        repeat split; try (apply Hl; reflexivity); try congruence.
    + split; [discriminate|]. intros (_ & _ & _ & _ & H & _).
      specialize (H o eq_refl). congruence.
  - split; [discriminate|]. intros (_ & H & _). elim H; congruence.
  - destruct (Z.eqb_spec (Z.land (type rlc) types) 0) as [Ht|Ht];
      [split; [discriminate|intros (_ & _ & ? & _); contradiction]|].
    destruct (cond_level qi_begin qi_end rlc);
      [split; [discriminate|intros (_ & _ & _ & H & _); apply Hl in H; discriminate]|].
    destruct col as [c|].
    + destruct (BKE_collection_has_object_recursive c r) eqn:Hc; cbn [negb].
      * split; [intros _|reflexivity].
        repeat split; try (apply Hl; reflexivity); try congruence.
      * split; [discriminate|]. intros (_ & _ & _ & _ & _ & H).
        specialize (H c r eq_refl eq_refl). congruence.
    + split; [intros _|reflexivity].
      repeat split; try (apply Hl; reflexivity); try congruence.
  - destruct (Z.eqb_spec (Z.land (type rlc) types) 0) as [Ht|Ht];
      [split; [discriminate|intros (_ & _ & ? & _); contradiction]|].
    destruct (cond_level qi_begin qi_end rlc);
      [split; [discriminate|intros (_ & _ & _ & H & _); apply Hl in H; discriminate]|].
    destruct col as [c|]; (split; [intros _|reflexivity]);
      repeat split; try (apply Hl; reflexivity); try congruence.
Qed.

(** Which [continue] is taken: the first condition, in source order, that
    holds. *)
Lemma chain_filter_first ob qi_begin qi_end col types rlc (k : Continue) :
  chain_filter ob qi_begin qi_end col types rlc = Some k <->
  match k with
  | ContinuePicked => cond_picked rlc = true
  | ContinueNoObjectRef =>
      cond_picked rlc = false /\ cond_no_object_ref ob rlc = true
  | ContinueType =>
      cond_picked rlc = false /\ cond_no_object_ref ob rlc = false /\
      cond_type types rlc = true
  | ContinueLevel =>
      cond_picked rlc = false /\ cond_no_object_ref ob rlc = false /\
      cond_type types rlc = false /\ cond_level qi_begin qi_end rlc = true
  | ContinueObject =>
      cond_picked rlc = false /\ cond_no_object_ref ob rlc = false /\
      cond_type types rlc = false /\ cond_level qi_begin qi_end rlc = false /\
      cond_object ob rlc = true
  | ContinueCollection =>
      cond_picked rlc = false /\ cond_no_object_ref ob rlc = false /\
      cond_type types rlc = false /\ cond_level qi_begin qi_end rlc = false /\
      cond_object ob rlc = false /\ cond_collection col rlc = true
  end.
Proof.
  unfold chain_filter.
  destruct (cond_picked rlc), (cond_no_object_ref ob rlc), (cond_type types rlc),
    (cond_level qi_begin qi_end rlc), (cond_object ob rlc), (cond_collection col rlc),
    k; intuition congruence.
Qed.

(** *** One walk over the chain list *)

Lemma pairs_app (a b : list nat) : pairs (a ++ b) = pairs a ++ pairs b.
Proof. apply flat_map_app. Qed.

Section Walk.

Variable ob : option Object.
Variables qi_begin qi_end material_nr : Z.
Variable col : option Collection.
Variable types : Z.

Local Abbreviation accepts := (LanprProps.accepts ob qi_begin qi_end col types).
Local Abbreviation accepted := (LanprProps.accepted ob qi_begin qi_end col types).
Local Abbreviation stroke_of := (LanprProps.stroke_of material_nr).

Lemma emit_chains_walk (l : list LANPR_RenderLineChain) :
  forall (i : nat) (gpf : bGPDframe) (tr : list Event),
    emit_chains ob qi_begin qi_end material_nr col types i l gpf tr =
    (map (fun rlc => if accepts rlc then set_picked rlc else rlc) l,
     mkFrame (strokes gpf ++ map stroke_of (filter accepts l)) (flag_lanpr_cleared gpf),
     tr ++ pairs (accepted i l)).
Proof.
  induction l as [|rlc l IH]; intros i gpf tr; cbn [emit_chains map filter accepted].
  - unfold pairs; cbn. rewrite !app_nil_r. now destruct gpf.
  - destruct (chain_filter ob qi_begin qi_end col types rlc) as [k|] eqn:Hf.
    + assert (Hp : accepts rlc = false) by (unfold accepts; now rewrite Hf).
      rewrite Hp, IH. reflexivity.
    + assert (Hp : accepts rlc = true) by (unfold accepts; now rewrite Hf).
      rewrite Hp, IH.
      cbn [add_stroke_with_points strokes flag_lanpr_cleared map pairs flat_map].
      rewrite <- !app_assoc. reflexivity.
Qed.

Lemma accepted_In (l : list LANPR_RenderLineChain) :
  forall i j, In j (accepted i l) <->
              exists rlc, (i <= j)%nat /\ nth_error l (j - i) = Some rlc /\ accepts rlc = true.
Proof.
  induction l as [|rlc l IH]; intros i j; cbn [accepted].
  - split; [contradiction|]. intros (c & _ & H & _). now destruct (j - i)%nat.
  - assert (Htail : In j (accepted (S i) l) <->
                    exists c, (S i <= j)%nat /\ nth_error l (j - S i) = Some c /\
                              accepts c = true) by apply IH.
    destruct (accepts rlc) eqn:Hp; cbn [In]; rewrite Htail; split.
    + intros [->|(c & Hle & Hn & Hc)].
      * exists rlc. rewrite Nat.sub_diag. auto.
      * exists c. replace (j - i)%nat with (S (j - S i)) by lia. auto with arith.
    + intros (c & Hle & Hn & Hc).
      destruct (Nat.eq_dec i j) as [->|Hne]; [now left|right].
      exists c. replace (j - i)%nat with (S (j - S i)) in Hn by lia.
      split; [lia|]. auto.
    + intros (c & Hle & Hn & Hc).
      exists c. replace (j - i)%nat with (S (j - S i)) by lia. auto with arith.
    + intros (c & Hle & Hn & Hc).
      destruct (Nat.eq_dec i j) as [->|Hne].
      * rewrite Nat.sub_diag in Hn. cbn in Hn. congruence.
      * exists c. replace (j - i)%nat with (S (j - S i)) in Hn by lia.
        split; [lia|]. auto.
Qed.

Lemma accepted_lower (l : list LANPR_RenderLineChain) (i j : nat) :
  In j (accepted i l) -> (i <= j)%nat.
Proof. intros H. apply accepted_In in H as (c & Hle & _). exact Hle. Qed.

Lemma accepted_NoDup (l : list LANPR_RenderLineChain) :
  forall i, NoDup (accepted i l).
Proof.
  induction l as [|rlc l IH]; intros i; cbn [accepted]; [constructor|].
  destruct (accepts rlc); [|apply IH].
  constructor; [|apply IH]. intros H. apply accepted_lower in H. lia.
Qed.

End Walk.

(** *** Emission passes *)

Lemma mem_In (i : nat) (em : list nat) : mem i em = true <-> In i em.
Proof.
  unfold mem. rewrite existsb_exists. split.
  - intros (j & Hj & He). apply Nat.eqb_eq in He. now subst.
  - intros H. exists i. split; [exact H|apply Nat.eqb_refl].
Qed.

Lemma emits_has_buffer (s s' : State) (em : list nat) :
  emits s s' em -> has_buffer s'.
Proof. intros (rb & rb' & _ & H & _). unfold has_buffer. congruence. Qed.

Lemma emits_refl (s : State) : has_buffer s -> emits s s [].
Proof.
  unfold has_buffer. destruct (render_buffer_shared s) as [rb|] eqn:Hrb; [|congruence].
  intros _. exists rb, rb. repeat split; auto.
  - cbn. now rewrite app_nil_r.
  - constructor.
  - contradiction.
  - contradiction.
  - intros i. cbn. now rewrite orb_false_r.
Qed.

Lemma emits_gp (s : State) (g : GPStore) : has_buffer s -> emits s (with_gp s g) [].
Proof.
  intros H. destruct (emits_refl s H) as (rb & rb' & H1 & H2 & H3).
  exists rb, rb'. unfold with_gp. cbn [render_buffer_shared depsgraph trace]. auto.
Qed.

Lemma emits_trans (s s1 s2 : State) (em1 em2 : list nat) :
  emits s s1 em1 -> emits s1 s2 em2 -> emits s s2 (em1 ++ em2).
Proof.
  intros (rb & rb1 & Ha & Hb & Hdg & Hcf & Hov & Hlen & Htr & Hnd & Hun & Hpk)
         (rb1' & rb2 & Ha' & Hb' & Hdg' & Hcf' & Hov' & Hlen' & Htr' & Hnd' & Hun' & Hpk').
  assert (rb1' = rb1) by congruence. subst rb1'.
  exists rb, rb2. repeat split; try congruence.
  - rewrite Htr', Htr, pairs_app, app_assoc. reflexivity.
  - apply NoDup_app; [exact Hnd|exact Hnd'|].
    intros i Hi1 Hi2. destruct (Hun' i Hi2) as [Hfalse _].
    rewrite Hpk in Hfalse. apply mem_In in Hi1. rewrite Hi1, orb_true_r in Hfalse.
    discriminate.
  - apply in_app_or in H as [H|H]; [now apply Hun|].
    destruct (Hun' i H) as [Hfalse _]. rewrite Hpk in Hfalse.
    now apply orb_false_iff in Hfalse.
  - apply in_app_or in H as [H|H]; [now apply Hun|].
    destruct (Hun' i H) as [_ Hlt]. lia.
  - intros i. rewrite Hpk', Hpk. unfold mem. rewrite existsb_app, orb_assoc. reflexivity.
Qed.

Lemma Emitter_for_each {A} (step : A -> State -> option State) (l : list A) :
  (forall a, In a l -> Emitter (step a)) -> Emitter (for_each step l).
Proof.
  induction l as [|a l IH]; intros Hstep s Hs; cbn [for_each].
  - exists s, []. split; [reflexivity|now apply emits_refl].
  - destruct (Hstep a (or_introl eq_refl) s Hs) as (s1 & em1 & He1 & Hem1).
    rewrite He1.
    destruct (IH (fun b Hb => Hstep b (or_intror Hb)) s1 (emits_has_buffer _ _ _ Hem1))
      as (s2 & em2 & He2 & Hem2).
    exists s2, (em1 ++ em2). split; [exact He2|]. eapply emits_trans; eauto.
Qed.

Lemma nth_error_map_picked (f : LANPR_RenderLineChain -> LANPR_RenderLineChain)
  (l : list LANPR_RenderLineChain) (i : nat) :
  match nth_error (map f l) i with Some c => picked c | None => false end =
  match nth_error l i with Some c => picked (f c) | None => false end.
Proof. rewrite nth_error_map. now destruct (nth_error l i). Qed.

(** The emission function, started with a buffer, emits the chains that pass
    its filter, in list order. *)
Lemma generate_emits (s : State) (rb : LANPR_RenderBuffer) ob gpf qb qe m col ty :
  render_buffer_shared s = Some rb ->
  emits s (lanpr_generate_gpencil_from_chain s ob gpf qb qe m col ty)
        (if is_software (dg_master_mode (depsgraph s))
         then accepted ob qb qe col ty O (chains rb) else []).
Proof.
  intros Hrb. unfold lanpr_generate_gpencil_from_chain. rewrite Hrb.
  destruct (is_software (dg_master_mode (depsgraph s))); cbn [negb].
  2:{ apply emits_refl. unfold has_buffer. congruence. }
  rewrite emit_chains_walk.
  exists rb. eexists. split; [exact Hrb|]. split; [reflexivity|].
  cbn [depsgraph trace chains cached_for_frame rb_scene_gpencil_overwrite].
  repeat split.
  - apply length_map.
  - apply accepted_NoDup.
  - apply accepted_In in H as (c & _ & Hn & Hp). rewrite Nat.sub_0_r in Hn.
    unfold picked_in. rewrite Hn. unfold accepts, chain_filter, cond_picked in Hp.
    now destruct (picked c).
  - apply accepted_In in H as (c & _ & Hn & _). rewrite Nat.sub_0_r in Hn.
    apply nth_error_Some. congruence.
  - intros i. unfold picked_in. cbn [chains]. rewrite nth_error_map_picked.
    destruct (nth_error (chains rb) i) as [c|] eqn:Hn.
    + destruct (accepts ob qb qe col ty c) eqn:Hp.
      * assert (Hin : In i (accepted ob qb qe col ty O (chains rb))).
        { apply accepted_In. exists c. rewrite Nat.sub_0_r. auto with arith. }
        apply mem_In in Hin. rewrite Hin, orb_true_r. reflexivity.
      * destruct (mem i (accepted ob qb qe col ty O (chains rb))) eqn:Hm;
          [|now rewrite orb_false_r].
        apply mem_In, accepted_In in Hm as (c' & _ & Hn' & Hp').
        rewrite Nat.sub_0_r in Hn'. congruence.
    + destruct (mem i (accepted ob qb qe col ty O (chains rb))) eqn:Hm; [|reflexivity].
      apply mem_In, accepted_In in Hm as (c' & _ & Hn' & _).
      rewrite Nat.sub_0_r in Hn'. congruence.
Qed.

Lemma Emitter_emit_to_target gpobj layer_index frame ob qb qe m col ty :
  Emitter (fun s => emit_to_target s gpobj layer_index frame ob qb qe m col ty).
Proof.
  intros s Hs. unfold emit_to_target.
  destruct (match BKE_gpencil_layer_get_index (gp s) gpobj layer_index with
            | Some gpl => (gp s, gpl)
            | None => BKE_gpencil_layer_addnew (gp s) gpobj
            end) as [g1 gpl].
  destruct (BKE_gpencil_layer_getframe g1 gpl frame) as [[g2 gpf] f].
  assert (H2 : emits s (with_gp s g2) []) by now apply emits_gp.
  assert (Hproceed : forall s3, emits s s3 [] ->
            exists em, emits s (lanpr_generate_gpencil_from_chain s3 ob gpf qb qe m col ty) em).
  { intros s3 H3. pose proof H3 as (rb & rb3 & _ & Hrb3 & _).
    eexists. eapply emits_trans; [exact H3|]. apply generate_emits. exact Hrb3. }
  assert (Hgo : exists s' em,
            Some (lanpr_generate_gpencil_from_chain
                    (if negb (flag_lanpr_cleared f)
                     then with_gp (with_gp s g2)
                            (set_frame g2 gpf
                               (mkFrame (strokes (BKE_gpencil_free_strokes f)) true))
                     else with_gp s g2) ob gpf qb qe m col ty) = Some s' /\
            emits s s' em).
  { destruct (negb (flag_lanpr_cleared f)).
    - destruct (Hproceed (with_gp (with_gp s g2)
                            (set_frame g2 gpf
                               (mkFrame (strokes (BKE_gpencil_free_strokes f)) true))))
        as [em Hem].
      + change [] with (@nil nat ++ []). eapply emits_trans; [exact H2|].
        apply emits_gp. eapply emits_has_buffer; eauto.
      + eauto.
    - destruct (Hproceed (with_gp s g2) H2) as [em Hem]. eauto. }
  destruct (strokes f) as [|st sts]; [exact Hgo|].
  pose proof H2 as (rb & rb2 & _ & Hrb2 & _). rewrite Hrb2.
  destruct (negb (rb_scene_gpencil_overwrite rb2)); [|exact Hgo].
  eauto.
Qed.

Lemma Emitter_ret : Emitter Some.
Proof. intros s Hs. exists s, []. split; [reflexivity|now apply emits_refl]. Qed.

Lemma Emitter_update_modifier frame target_only ob md :
  Emitter (update_modifier frame target_only ob md).
Proof.
  unfold update_modifier. destruct md as [flmd|]; [|apply Emitter_ret].
  destruct (flmd_target flmd) as [gpobj|]; [|apply Emitter_ret].
  destruct (ObjectType_eqb (ref_type gpobj) OB_GPENCIL); [|apply Emitter_ret].
  destruct (target_excluded target_only (ref_id gpobj)); [apply Emitter_ret|].
  apply Emitter_emit_to_target.
Qed.

Lemma Emitter_update_object frame target_only ob :
  Emitter (update_object frame target_only ob).
Proof.
  unfold update_object. apply Emitter_for_each.
  intros md _. apply Emitter_update_modifier.
Qed.

Lemma Emitter_recursive col frame source_only target_only :
  Emitter (lanpr_update_gp_strokes_recursive col frame source_only target_only).
Proof.
  induction col as [g ch l IH] using Collection_ind'.
  destruct source_only as [so|].
  - intros s Hs. cbn [lanpr_update_gp_strokes_recursive].
    now apply Emitter_update_object.
  - intros s Hs. cbn [lanpr_update_gp_strokes_recursive].
    destruct (Emitter_for_each (update_object frame target_only) g
                (fun a _ => Emitter_update_object frame target_only a) s Hs)
      as (s1 & em1 & He1 & Hem1).
    rewrite He1. pose proof (emits_has_buffer _ _ _ Hem1) as Hs1.
    assert (Hch : exists s2 em2,
               (fix over_children (l : list Collection) (s : State) : option State :=
                  match l with
                  | [] => Some s
                  | cc :: l' =>
                      match lanpr_update_gp_strokes_recursive cc frame None target_only s with
                      | Some s' => over_children l' s'
                      | None => None
                      end
                  end) ch s1 = Some s2 /\ emits s1 s2 em2).
    { clear He1 Hem1 Hs. revert s1 Hs1.
      induction IH as [|cc ch Hcc _ IHch]; intros s1 Hs1.
      - exists s1, []. split; [reflexivity|now apply emits_refl].
      - destruct (Hcc s1 Hs1) as (sa & ema & Hea & Hema). rewrite Hea.
        destruct (IHch sa (emits_has_buffer _ _ _ Hema)) as (sb & emb & Heb & Hemb).
        exists sb, (ema ++ emb). split; [exact Heb|]. eapply emits_trans; eauto. }
    destruct Hch as (s2 & em2 & He2 & Hem2).
    exists s2, (em1 ++ em2). split; [exact He2|]. eapply emits_trans; eauto.
Qed.

Lemma Emitter_update_collection_here col frame target_only :
  Emitter (update_collection_here col frame target_only).
Proof.
  unfold update_collection_here.
  destruct (target (lanpr col)) as [gpobj|]; [|apply Emitter_ret].
  destruct (negb (is_include (usage (lanpr col)))); [apply Emitter_ret|].
  destruct (target_excluded target_only (ref_id gpobj)); [apply Emitter_ret|].
  apply Emitter_emit_to_target.
Qed.

Lemma Emitter_collection col frame this_only target_only :
  Emitter (lanpr_update_gp_strokes_collection col frame this_only target_only).
Proof.
  induction col as [g ch l IH] using Collection_ind'.
  intros s Hs. cbn [lanpr_update_gp_strokes_collection].
  assert (Hd : exists s1 em1,
             (if this_only then Some s
              else
                (fix over_children (l : list Collection) (s : State) : option State :=
                   match l with
                   | [] => Some s
                   | cc :: l' =>
                       match lanpr_update_gp_strokes_collection cc frame this_only
                               target_only s with
                       | Some s' => over_children l' s'
                       | None => None
                       end
                   end) ch s) = Some s1 /\ emits s s1 em1).
  { destruct this_only.
    - exists s, []. split; [reflexivity|now apply emits_refl].
    - revert s Hs. induction IH as [|cc ch Hcc _ IHch]; intros s Hs.
      + exists s, []. split; [reflexivity|now apply emits_refl].
      + destruct (Hcc s Hs) as (sa & ema & Hea & Hema). rewrite Hea.
        destruct (IHch sa (emits_has_buffer _ _ _ Hema)) as (sb & emb & Heb & Hemb).
        exists sb, (ema ++ emb). split; [exact Heb|]. eapply emits_trans; eauto. }
  destruct Hd as (s1 & em1 & He1 & Hem1). rewrite He1.
  destruct (Emitter_update_collection_here (mkCollection g ch l) frame target_only s1
              (emits_has_buffer _ _ _ Hem1)) as (s2 & em2 & He2 & Hem2).
  exists s2, (em1 ++ em2). split; [exact He2|]. eapply emits_trans; eauto.
Qed.

(** *** The operators *)

Lemma computes_app (a b : list Event) : computes (a ++ b) = (computes a + computes b)%nat.
Proof. unfold computes. now rewrite filter_app, length_app. Qed.

Lemma computes_pairs (em : list nat) : computes (pairs em) = O.
Proof. induction em as [|i em IH]; [reflexivity|exact IH]. Qed.

Lemma absent_or_stale_true (s : State) (frame : Z) :
  absent_or_stale s frame = true <-> needs_compute s frame.
Proof.
  unfold absent_or_stale, needs_compute.
  destruct (render_buffer_shared s) as [rb|]; [|tauto].
  rewrite negb_true_iff, Z.eqb_neq. split.
  - intros H. right. exists rb. auto.
  - intros [H|(rb' & H & Hne)]; congruence.
Qed.

Lemma absent_or_stale_false (s : State) (frame : Z) :
  absent_or_stale s frame = false <-> cached_for s frame.
Proof.
  unfold absent_or_stale, cached_for.
  destruct (render_buffer_shared s) as [rb|].
  - rewrite negb_false_iff, Z.eqb_eq. split.
    + intros H. exists rb. auto.
    + intros (rb' & H & He). congruence.
  - split; [discriminate|]. intros (rb & H & _). discriminate.
Qed.

Lemma needs_compute_or_cached (s : State) (frame : Z) :
  needs_compute s frame <-> ~ cached_for s frame.
Proof.
  rewrite <- absent_or_stale_true, <- absent_or_stale_false.
  destruct (absent_or_stale s frame); split; congruence.
Qed.

Section Engine.

Variable feature_lines : Depsgraph -> list LANPR_RenderLineChain.

Local Abbreviation compute_if_needed := (compute_if_needed feature_lines).
Local Abbreviation update_gp_exec := (update_gp_exec feature_lines).
Local Abbreviation bake_frame := (bake_frame feature_lines).

Lemma compute_if_needed_trace (s : State) (frame : Z) :
  trace (compute_if_needed s frame) = trace s ++ computed s frame /\
  has_buffer (compute_if_needed s frame).
Proof.
  unfold LANPR.compute_if_needed, computed, has_buffer, absent_or_stale.
  destruct (render_buffer_shared s) as [rb|] eqn:Hrb; cbn.
  - destruct (negb (cached_for_frame rb =? frame)); cbn.
    + split; [reflexivity|discriminate].
    + rewrite app_nil_r, Hrb. split; [reflexivity|discriminate].
  - split; [reflexivity|discriminate].
Qed.

Lemma clear_picked_flag_spec (s : State) :
  has_buffer s ->
  has_buffer (lanpr_chain_clear_picked_flag s) /\
  trace (lanpr_chain_clear_picked_flag s) = trace s ++ [EvClearPicked] /\
  forall i, picked_at (lanpr_chain_clear_picked_flag s) i = false.
Proof.
  unfold has_buffer, lanpr_chain_clear_picked_flag, picked_at.
  cbn [render_buffer_shared trace].
  destruct (render_buffer_shared s) as [rb|]; [|congruence].
  intros _. split; [discriminate|]. split; [reflexivity|].
  intros i. unfold picked_in. cbn [chains]. rewrite nth_error_map_picked.
  now destruct (nth_error (chains rb) i).
Qed.

(** After the marks are cleared, a run of emitters leaves marked exactly the
    chains it has emitted. *)
Lemma emits_after_clear (s s' : State) (em : list nat) :
  (forall i, picked_at s i = false) -> emits s s' em ->
  forall i, picked_at s' i = true <-> In i em.
Proof.
  intros Hclear (rb & rb' & Ha & Hb & _ & _ & _ & _ & _ & _ & _ & Hpk) i.
  specialize (Hclear i). unfold picked_at in *. rewrite Ha in Hclear. rewrite Hb, Hpk, Hclear.
  cbn [orb]. apply mem_In.
Qed.

Lemma update_gp_exec_run (C : bContext) source_only target_only (s : State) :
  single_frame_run C s (update_gp_exec C source_only target_only s).
Proof.
  unfold single_frame_run, LANPR.update_gp_exec.
  set (frame := cfra (CTX_data_scene C)).
  destruct (compute_if_needed_trace s frame) as [Ht1 Hb1].
  destruct (clear_picked_flag_spec _ Hb1) as (Hb2 & Ht2 & Hclear).
  destruct (Emitter_recursive (master_collection (CTX_data_scene C)) frame
              source_only target_only _ Hb2) as (s3 & em3 & He3 & Hem3).
  rewrite He3. cbn [option_bind].
  destruct (Emitter_collection (master_collection (CTX_data_scene C)) frame false
              target_only s3 (emits_has_buffer _ _ _ Hem3)) as (s4 & em4 & He4 & Hem4).
  rewrite He4. cbn [option_bind].
  pose proof (emits_trans _ _ _ _ _ Hem3 Hem4) as Hem.
  exists (lanpr_clear_gp_lanpr_flags s4 frame), (em3 ++ em4).
  split; [reflexivity|].
  pose proof Hem as (rb & rb' & _ & _ & _ & _ & _ & _ & Htr & Hnd & _).
  split; [|split; [exact Hnd|]].
  - cbn [lanpr_clear_gp_lanpr_flags with_gp trace].
    rewrite Htr, Ht2, Ht1, <- !app_assoc. reflexivity.
  - intros i. rewrite <- (emits_after_clear _ _ _ Hclear Hem i).
    reflexivity.
Qed.

(** One round of the bake loop: the computation for [frame], the clearing,
    the emissions. *)
Lemma bake_frame_run (C : bContext) (frame : Z) (s : State) :
  exists s' em,
    bake_frame C frame s = Some s' /\
    trace s' = trace s ++ EvCompute frame :: EvClearPicked :: pairs em /\
    NoDup em /\
    (forall i, picked_at s' i = true <-> In i em).
Proof.
  unfold LANPR.bake_frame.
  set (s1 := lanpr_compute_feature_lines_internal feature_lines
               (DEG_evaluate_on_framechange s frame)).
  assert (Hb1 : has_buffer s1) by (unfold has_buffer; discriminate).
  destruct (clear_picked_flag_spec _ Hb1) as (Hb2 & Ht2 & Hclear).
  destruct (Emitter_recursive (master_collection (CTX_data_scene C)) frame
              None None _ Hb2) as (s3 & em3 & He3 & Hem3).
  rewrite He3. cbn [option_bind].
  destruct (Emitter_collection (master_collection (CTX_data_scene C)) frame false
              None s3 (emits_has_buffer _ _ _ Hem3)) as (s4 & em4 & He4 & Hem4).
  pose proof (emits_trans _ _ _ _ _ Hem3 Hem4) as Hem.
  exists s4, (em3 ++ em4). split; [exact He4|].
  pose proof Hem as (rb & rb' & _ & _ & _ & _ & _ & _ & Htr & Hnd & _).
  split; [|split; [exact Hnd|]].
  - rewrite Htr, Ht2. subst s1. cbn [lanpr_compute_feature_lines_internal trace
      DEG_evaluate_on_framechange depsgraph dg_cfra].
    rewrite <- !app_assoc. reflexivity.
  - apply (emits_after_clear _ _ _ Hclear Hem).
Qed.

Lemma bake_loop_run (C : bContext) (fs : list Z) :
  forall s, exists s' ems,
    for_each (bake_frame C) fs s = Some s' /\
    List.length ems = List.length fs /\
    trace s' = trace s ++ bake_trace fs ems /\
    Forall (@NoDup nat) ems.
Proof.
  induction fs as [|f fs IH]; intros s; cbn [for_each].
  - exists s, []. repeat split; auto. cbn. now rewrite app_nil_r.
  - destruct (bake_frame_run C f s) as (s1 & em & He & Ht & Hnd & _). rewrite He.
    destruct (IH s1) as (s' & ems & He' & Hlen & Ht' & Hall).
    exists s', (em :: ems). split; [exact He'|]. split; [cbn; now rewrite Hlen|].
    split; [|now constructor].
    rewrite Ht', Ht. unfold bake_trace. cbn [combine flat_map fst snd].
    rewrite <- !app_assoc. reflexivity.
Qed.

End Engine.

Lemma bake_frames_NoDup (a b : Z) : NoDup (bake_frames a b).
Proof.
  unfold bake_frames. apply Injective_map_NoDup; [|apply seq_NoDup].
  intros i j H. lia.
Qed.

Lemma bake_emitted_fst (fs : list Z) :
  forall ems p, In p (bake_emitted fs ems) -> In (fst p) fs.
Proof.
  induction fs as [|f fs IH]; intros [|em ems] p; cbn; try contradiction.
  unfold bake_emitted. cbn [combine flat_map fst snd]. intros H.
  apply in_app_or in H as [H|H].
  - apply in_map_iff in H as (i & <- & _). now left.
  - right. now apply (IH ems).
Qed.

Lemma bake_emitted_NoDup (fs : list Z) :
  NoDup fs -> forall ems, Forall (@NoDup nat) ems -> NoDup (bake_emitted fs ems).
Proof.
  induction 1 as [|f fs Hnotin Hnd IH]; intros ems Hall; [constructor|].
  destruct Hall as [|em ems Hem Hall]; [constructor|].
  unfold bake_emitted. cbn [combine flat_map fst snd].
  apply NoDup_app.
  - apply Injective_map_NoDup; [|exact Hem]. intros i j H. now inversion H.
  - now apply IH.
  - intros p H1 H2. apply in_map_iff in H1 as (i & <- & _).
    apply bake_emitted_fst in H2. cbn in H2. contradiction.
Qed.

(** *** Runs on a small scene *)

(** With overwriting allowed, the per-object pass emits the chains 0 and 3 of
    the first mesh and chain 1 of the second, the per-collection pass the
    rest. *)
Example update_strokes_on_small_scene :
  option_map trace
    (lanpr_update_gp_strokes_exec five_chains small_context (fresh_session true))
  = Some [EvCompute 5; EvClearPicked;
          EvPicked 0; EvAddStroke 0; EvPicked 3; EvAddStroke 3;
          EvPicked 1; EvAddStroke 1;
          EvPicked 2; EvAddStroke 2; EvPicked 4; EvAddStroke 4].
Proof. reflexivity. Qed.

(** Without it, the first emission fills the target frame and every later
    pass on that frame is skipped. *)
Example update_strokes_without_overwrite :
  option_map trace
    (lanpr_update_gp_strokes_exec five_chains small_context (fresh_session false))
  = Some [EvCompute 5; EvClearPicked; EvPicked 0; EvAddStroke 0].
Proof. reflexivity. Qed.

(** A second run in the same frame finds the buffer cached and does not
    compute. *)
Example second_update_reuses_buffer :
  option_map (fun s => computes (trace s))
    (option_bind
       (lanpr_update_gp_strokes_exec five_chains small_context (fresh_session true))
       (lanpr_update_gp_strokes_exec five_chains small_context))
  = Some 1%nat.
Proof. reflexivity. Qed.

Example bake_on_small_scene :
  option_map (fun s => computes (trace s))
    (lanpr_bake_gp_strokes_exec five_chains small_context (fresh_session true))
  = Some 3%nat.
Proof. reflexivity. Qed.

(** *** The claims on the operators *)

Lemma single_frame_run_computes (C : bContext) (s : State) (r : option State) :
  single_frame_run C s r ->
  exists s', r = Some s' /\ computes_iff_needed s (cfra (CTX_data_scene C)) s'.
Proof.
  intros (s' & em & -> & Ht & _). exists s'. split; [reflexivity|].
  assert (Hc : computes (trace s') =
               (computes (trace s) +
                (if absent_or_stale s (cfra (CTX_data_scene C)) then 1 else 0))%nat).
  { rewrite Ht, !computes_app. unfold computed.
    change (EvClearPicked :: pairs em) with ([EvClearPicked] ++ pairs em).
    rewrite computes_app, computes_pairs.
    destruct (absent_or_stale s (cfra (CTX_data_scene C))); cbn; lia. }
  unfold computes_iff_needed.
  rewrite <- absent_or_stale_true, <- absent_or_stale_false.
  destruct (absent_or_stale s (cfra (CTX_data_scene C))); rewrite Hc;
    repeat split; intros; try discriminate; try lia.
Qed.

(** C2, as the code has it: each of the three single-frame operators calls
    the feature-line computation once when the shared buffer is absent or
    cached for another frame than the scene's current one, and not at all
    when the buffer is cached for the current frame.  The external-update
    entry point does the same when the evaluated scene runs the software
    master mode, and does nothing in the other modes. *)
Theorem compute_only_when_absent_or_stale :
  forall (feature_lines : Depsgraph -> list LANPR_RenderLineChain)
         (C : bContext) (s : State),
    let frame := cfra (CTX_data_scene C) in
    (exists s', lanpr_update_gp_strokes_exec feature_lines C s = Some s' /\
                computes_iff_needed s frame s') /\
    (exists s', lanpr_update_gp_target_exec feature_lines C s = Some s' /\
                computes_iff_needed s frame s') /\
    (exists s', lanpr_update_gp_source_exec feature_lines C s = Some s' /\
                computes_iff_needed s frame s') /\
    (dg_master_mode (depsgraph s) = LANPR_MASTER_MODE_SOFTWARE ->
     computes_iff_needed s (dg_cfra (depsgraph s))
       (ED_lanpr_update_data_for_external feature_lines s)) /\
    (dg_master_mode (depsgraph s) <> LANPR_MASTER_MODE_SOFTWARE ->
     ED_lanpr_update_data_for_external feature_lines s = s).
Proof.
  intros fl C s frame.
  split; [|split; [|split; [|split]]].
  - apply single_frame_run_computes, update_gp_exec_run.
  - apply single_frame_run_computes, update_gp_exec_run.
  - apply single_frame_run_computes, update_gp_exec_run.
  - intros Hsw. unfold ED_lanpr_update_data_for_external. rewrite Hsw. cbn [is_software negb].
    destruct (compute_if_needed_trace fl s (dg_cfra (depsgraph s))) as [Ht _].
    unfold computes_iff_needed.
    rewrite <- absent_or_stale_true, <- absent_or_stale_false, Ht, computes_app.
    unfold computed.
    destruct (absent_or_stale s (dg_cfra (depsgraph s))); cbn;
      repeat split; intros; try discriminate; try lia.
  - intros Hsw. unfold ED_lanpr_update_data_for_external.
    destruct (dg_master_mode (depsgraph s)); [contradiction| |]; reflexivity.
Qed.

Lemma compute_only_when_absent_or_stale_witness :
  dg_master_mode (depsgraph software_session) = LANPR_MASTER_MODE_SOFTWARE /\
  needs_compute software_session 1 /\
  computes (trace (ED_lanpr_update_data_for_external (fun _ => []) software_session)) = 1%nat /\
  dg_master_mode (depsgraph dpix_session) <> LANPR_MASTER_MODE_SOFTWARE /\
  ED_lanpr_update_data_for_external (fun _ => []) dpix_session = dpix_session.
Proof.
  pose (C := mkContext (mkScene 1 1 1 empty_collection)
                       (mkObject 1 OB_MESH [])).
  assert (H1 : dg_master_mode (depsgraph software_session) = LANPR_MASTER_MODE_SOFTWARE)
    by reflexivity.
  assert (H2 : needs_compute software_session 1) by (left; reflexivity).
  assert (H3 : dg_master_mode (depsgraph dpix_session) <> LANPR_MASTER_MODE_SOFTWARE)
    by discriminate.
  split; [exact H1|]. split; [exact H2|].
  split.
  - destruct (compute_only_when_absent_or_stale (fun _ => []) C software_session)
      as (_ & _ & _ & Hext & _).
    destruct (Hext H1) as (Hneed & _). exact (Hneed H2).
  - split; [exact H3|].
    destruct (compute_only_when_absent_or_stale (fun _ => []) C dpix_session)
      as (_ & _ & _ & _ & Hskip).
    exact (Hskip H3).
Defined.

(** C2 as stated fails at the external-update entry point: in a session
    without a buffer whose scene does not run the software master mode the
    buffer is absent and the computation is not called. *)
Lemma external_update_skips_compute_outside_software :
  ~ (computes (trace (ED_lanpr_update_data_for_external (fun _ => []) dpix_session))
     = S (computes (trace dpix_session))
     <-> needs_compute dpix_session (dg_cfra (depsgraph dpix_session))).
Proof.
  intros [_ H]. assert (Hn : needs_compute dpix_session (dg_cfra (depsgraph dpix_session)))
    by (left; reflexivity).
  specialize (H Hn). discriminate H.
Qed.

(** C3: in every run of an update operator the marks are cleared before the
    first emission, every emission is the marking of a chain followed by the
    addition of its stroke, and no position of the chain list is emitted
    twice, the per-object pass and the per-collection pass taken together;
    the chains marked in the end are the emitted ones.  A bake runs one such
    pass per frame, on the buffer computed for that frame, and emits no chain
    of any of these buffers twice. *)
Theorem picked_cleared_then_each_chain_emitted_once :
  forall (feature_lines : Depsgraph -> list LANPR_RenderLineChain)
         (C : bContext) (s : State),
    single_frame_run C s (lanpr_update_gp_strokes_exec feature_lines C s) /\
    single_frame_run C s (lanpr_update_gp_target_exec feature_lines C s) /\
    single_frame_run C s (lanpr_update_gp_source_exec feature_lines C s) /\
    let frames := bake_frames (sfra (CTX_data_scene C)) (efra (CTX_data_scene C)) in
    exists s' ems,
      lanpr_bake_gp_strokes_exec feature_lines C s = Some s' /\
      List.length ems = List.length frames /\
      trace s' = trace s ++ bake_trace frames ems /\
      Forall (@NoDup nat) ems /\
      NoDup (bake_emitted frames ems).
Proof.
  intros fl C s. split; [|split; [|split]]; try apply update_gp_exec_run.
  intros frames. unfold lanpr_bake_gp_strokes_exec. fold frames.
  destruct (bake_loop_run fl C frames s) as (s' & ems & He & Hlen & Ht & Hall).
  exists s', ems. repeat split; auto.
  apply bake_emitted_NoDup; [apply bake_frames_NoDup|exact Hall].
Qed.

(** C4, as the code has it: the loop goes through the chain list once; a
    chain is rejected by the first condition that holds in the order
    already-picked, missing object reference under a source object, type
    bitmask, level range, source-object identity, collection membership; it
    is emitted iff none holds, that is iff it is unmarked, carries a type of
    the mask, has [qi_begin <= level <= qi_end] and belongs to the source
    object or collection; the emitted chains are marked and their strokes
    appended in list order, the other chains are left as they are. *)
Theorem emission_filter_order :
  forall (ob : option Object) (qi_begin qi_end material_nr : Z)
         (col : option Collection) (types : Z),
    (forall rlc k,
        chain_filter ob qi_begin qi_end col types rlc = Some k <->
        (fires ob qi_begin qi_end col types rlc k = true /\
         forall k', In k' (earlier k) -> fires ob qi_begin qi_end col types rlc k' = false)) /\
    (forall rlc,
        chain_filter ob qi_begin qi_end col types rlc = None <->
        survives ob qi_begin qi_end col types rlc) /\
    (forall l i gpf tr,
        emit_chains ob qi_begin qi_end material_nr col types i l gpf tr =
        (map (fun rlc => if accepts ob qi_begin qi_end col types rlc
                         then set_picked rlc else rlc) l,
         mkFrame (strokes gpf ++
                  map (stroke_of material_nr) (filter (accepts ob qi_begin qi_end col types) l))
                 (flag_lanpr_cleared gpf),
         tr ++ pairs (accepted ob qi_begin qi_end col types i l))) /\
    (forall l i j,
        In j (accepted ob qi_begin qi_end col types i l) <->
        exists rlc, (i <= j)%nat /\ nth_error l (j - i) = Some rlc /\
                    chain_filter ob qi_begin qi_end col types rlc = None).
Proof.
  intros ob qb qe m col ty. split; [|split; [|split]].
  - intros rlc k. rewrite chain_filter_first. destruct k; cbn [fires earlier]; split.
    all: try (intros H; split; [tauto|]; intros k' Hk'; cbn [In] in Hk';
              decompose [and or] Hk'; subst; cbn [fires]; tauto).
    all: intros [H Hall]; repeat split; try exact H;
         match goal with
         | |- ?c _ = false => idtac
         | _ => idtac
         end.
    all: try (apply (Hall ContinuePicked); cbn; tauto).
    all: try (apply (Hall ContinueNoObjectRef); cbn; tauto).
    all: try (apply (Hall ContinueType); cbn; tauto).
    all: try (apply (Hall ContinueLevel); cbn; tauto).
    all: try (apply (Hall ContinueObject); cbn; tauto).
  - intros rlc. apply chain_filter_none.
  - intros l i gpf tr. apply emit_chains_walk.
  - intros l i j. rewrite accepted_In. unfold accepts.
    split; intros (rlc & Hle & Hn & Hp); exists rlc; repeat split; auto.
    + now destruct (chain_filter ob qb qe col ty rlc).
    + now rewrite Hp.
Qed.

(** C4 as stated fails on a chain of another object than the source object
    and of a type outside the mask: the code leaves the loop body at the type
    test, before it compares the objects. *)
Lemma type_filter_precedes_object_filter :
  chain_filter mesh_one 0 0 None 2 chain_of_object_two = Some ContinueType /\
  chain_filter_claimed_order mesh_one 0 0 None 2 chain_of_object_two = Some ContinueObject /\
  chain_filter mesh_one 0 0 None 2 chain_of_object_two
  <> chain_filter_claimed_order mesh_one 0 0 None 2 chain_of_object_two.
Proof. repeat split. discriminate. Qed.

End LanprFacts.

(** ** Binary32 arithmetic *)

Module F32Facts.
Import F32.

Lemma fexp_eq (e : Z) : fexp prec emax e = Z.max (e - 24) (-149).
Proof. reflexivity. Qed.

Lemma digits2_size (p : positive) : digits2_pos p = Pos.size p.
Proof. induction p; cbn; congruence. Qed.

Lemma digits_bounds (m : positive) :
  2 ^ (Zpos (digits2_pos m) - 1) <= Zpos m < 2 ^ Zpos (digits2_pos m).
Proof.
  rewrite digits2_size. split.
  - pose proof (Pos.size_le m) as H.
    assert (H' : 2 ^ Zpos (Pos.size m) <= 2 * Zpos m).
    { change 2 with (Zpos 2) at 1. rewrite <- Pos2Z.inj_pow. 
      change (2 * Zpos m) with (Zpos m~0). apply Pos2Z.pos_le_pos. exact H. }
    replace (Zpos (Pos.size m)) with (Z.succ (Zpos (Pos.size m) - 1)) in H' by lia.
    rewrite Z.pow_succ_r in H' by lia. lia.
  - pose proof (Pos.size_gt m) as H.
    change 2 with (Zpos 2). rewrite <- Pos2Z.inj_pow. apply Pos2Z.pos_lt_pos. exact H.
Qed.

Lemma digits_unique (m : positive) (k : Z) :
  2 ^ (k - 1) <= Zpos m < 2 ^ k -> Zpos (digits2_pos m) = k.
Proof.
  intros [Hlo Hhi]. pose proof (digits_bounds m) as [Dlo Dhi].
  set (d := Zpos (digits2_pos m)) in *.
  destruct (Z.lt_trichotomy d k) as [Hlt|[He|Hgt]]; [|exact He|].
  - assert (2 ^ d <= 2 ^ (k - 1)) by (apply Z.pow_le_mono_r; lia). lia.
  - assert (k < 0 \/ 0 <= k) as [Hn|Hn] by lia.
    + rewrite (Z.pow_neg_r 2 k Hn) in Hhi. lia.
    + assert (2 ^ k <= 2 ^ (d - 1)) by (apply Z.pow_le_mono_r; lia). lia.
Qed.

Lemma shr_1_m (mrs : shr_record) : 0 <= shr_m mrs -> shr_m (shr_1 mrs) = shr_m mrs / 2.
Proof.
  destruct mrs as [m r s]. cbn [shr_m]. intros Hm.
  rewrite <- Z.div2_div.
  destruct m as [|[p|p|]|p]; try reflexivity; lia.
Qed.

Lemma shr_1_nonneg (mrs : shr_record) : 0 <= shr_m mrs -> 0 <= shr_m (shr_1 mrs).
Proof. intros H. rewrite shr_1_m by exact H. apply Z.div_pos; lia. Qed.

Lemma iter_shr_m (p : positive) :
  forall mrs, 0 <= shr_m mrs ->
              shr_m (iter_pos shr_1 p mrs) = shr_m mrs / 2 ^ Zpos p.
Proof.
  induction p as [p IH|p IH|]; intros mrs Hm; cbn [iter_pos].
  - assert (H1 : 0 <= shr_m (shr_1 mrs)) by now apply shr_1_nonneg.
    assert (H2 : 0 <= shr_m (iter_pos shr_1 p (shr_1 mrs))).
    { rewrite IH by exact H1. apply Z.div_pos; [exact H1|]. apply Z.pow_pos_nonneg; lia. }
    assert (Hp : 2 ^ Zpos p~1 = 2 * 2 ^ Zpos p * 2 ^ Zpos p).
    { replace (Zpos p~1) with (1 + Zpos p + Zpos p) by lia.
      rewrite !Z.pow_add_r by lia. reflexivity. }
    assert (0 < 2 ^ Zpos p) by (apply Z.pow_pos_nonneg; lia).
    rewrite IH by exact H2. rewrite IH by exact H1. rewrite shr_1_m by exact Hm.
    rewrite !Z.div_div by lia. rewrite Hp. f_equal. ring.
  - assert (H2 : 0 <= shr_m (iter_pos shr_1 p mrs)).
    { rewrite IH by exact Hm. apply Z.div_pos; [exact Hm|]. apply Z.pow_pos_nonneg; lia. }
    assert (Hp : 2 ^ Zpos p~0 = 2 ^ Zpos p * 2 ^ Zpos p).
    { replace (Zpos p~0) with (Zpos p + Zpos p) by lia.
      rewrite !Z.pow_add_r by lia. reflexivity. }
    assert (0 < 2 ^ Zpos p) by (apply Z.pow_pos_nonneg; lia).
    rewrite IH by exact H2. rewrite IH by exact Hm.
    rewrite !Z.div_div by lia. rewrite Hp. reflexivity.
  - now apply shr_1_m.
Qed.

Lemma shr_record_of_loc_m (m : Z) (l : location) : shr_m (shr_record_of_loc m l) = m.
Proof. destruct l as [|[]]; reflexivity. Qed.

(** Shifting a positive mantissa at an exponent not below [emin] to its
    format exponent leaves a positive mantissa. *)
Lemma shr_fexp_pos (m : positive) (e : Z) (l : location) :
  -149 <= e ->
  0 < shr_m (fst (shr_fexp prec emax (Zpos m) e l)) /\
  -149 <= snd (shr_fexp prec emax (Zpos m) e l).
Proof.
  intros He. unfold shr_fexp, shr. rewrite fexp_eq. cbn [Zdigits2].
  pose proof (digits_bounds m) as [Dlo Dhi].
  set (d := Zpos (digits2_pos m)) in *.
  destruct (Z.max (d + e - 24) (-149) - e) as [|q|q] eqn:Hn; cbn [fst snd].
  - rewrite shr_record_of_loc_m. lia.
  - rewrite iter_shr_m by (rewrite shr_record_of_loc_m; lia).
    rewrite shr_record_of_loc_m. split; [|lia].
    apply Z.div_str_pos. split; [apply Z.pow_pos_nonneg; lia|].
    assert (Zpos q = d - 24) by lia.
    assert (2 ^ Zpos q <= 2 ^ (d - 1)) by (apply Z.pow_le_mono_r; lia). lia.
  - rewrite shr_record_of_loc_m. lia.
Qed.

Lemma round_nearest_even_ge (m : Z) (l : location) : m <= round_nearest_even m l.
Proof. destruct l as [|[]]; cbn; try destruct (Z.even m); lia. Qed.

Lemma binary_round_aux_pos (s : bool) (m : positive) (e : Z) (l : location) :
  -149 <= e -> finite_or_inf s (binary_round_aux prec emax s (Zpos m) e l).
Proof.
  intros He. unfold binary_round_aux.
  pose proof (shr_fexp_pos m e l He) as [H1 H2].
  destruct (shr_fexp prec emax (Zpos m) e l) as [mrs' e']. cbn [fst snd] in H1, H2.
  pose proof (round_nearest_even_ge (shr_m mrs') (loc_of_shr_record mrs')) as Hr.
  destruct (round_nearest_even (shr_m mrs') (loc_of_shr_record mrs')) as [|m1|m1]; try lia.
  pose proof (shr_fexp_pos m1 e' loc_Exact H2) as [H3 _].
  destruct (shr_fexp prec emax (Zpos m1) e' loc_Exact) as [mrs'' e'']. cbn [fst] in H3.
  destruct (shr_m mrs'') as [|m2|m2]; try lia.
  destruct (e'' <=? emax - prec); [left; eauto|right; reflexivity].
Qed.

Lemma shl_align_value (m : positive) (e e' : Z) :
  e' <= e ->
  Zpos (fst (shl_align m e e')) = Zpos m * 2 ^ (e - e') /\
  snd (shl_align m e e') = e'.
Proof.
  intros Hle. unfold shl_align.
  destruct (e' - e) as [|d|d] eqn:Hd; cbn [fst snd]; try lia.
  - assert (e = e') as -> by lia. rewrite Z.sub_diag, Z.pow_0_r. lia.
  - change (Pos.iter xO m d) with (shift_pos d m).
    rewrite shift_pos_correct. replace (e - e') with (Zpos d) by lia.
    split; [|reflexivity]. change (Z.pow_pos 2 d) with (2 ^ Zpos d). ring.
Qed.

Lemma digits_mul_pow2 (m mz : positive) (k : Z) :
  0 <= k -> Zpos mz = Zpos m * 2 ^ k ->
  Zpos (digits2_pos mz) = Zpos (digits2_pos m) + k.
Proof.
  intros Hk Hmz. apply digits_unique. rewrite Hmz.
  pose proof (digits_bounds m) as [Dlo Dhi].
  set (d := Zpos (digits2_pos m)) in *.
  assert (Hp : 0 < 2 ^ k) by (apply Z.pow_pos_nonneg; lia).
  replace (d + k - 1) with ((d - 1) + k) by lia.
  rewrite !Z.pow_add_r by lia. nia.
Qed.

Lemma valid_finite (s : bool) (m : positive) (e : Z) :
  valid (S754_finite s m e) = true <-> canonical m e /\ e <= 104.
Proof.
  unfold valid, valid_binary, bounded, canonical_mantissa, canonical.
  rewrite andb_true_iff, Z.eqb_eq, Z.leb_le. reflexivity.
Qed.

Lemma canonical_emin (m : positive) (e : Z) : canonical m e -> -149 <= e.
Proof. unfold canonical. rewrite fexp_eq. lia. Qed.

(** Two canonical mantissas that denote the same number when aligned are the
    same mantissa at the same exponent. *)
Lemma canonical_aligned_eq (m1 m2 : positive) (e1 e2 : Z) :
  canonical m1 e1 -> canonical m2 e2 -> e1 <= e2 ->
  Zpos m1 = Zpos m2 * 2 ^ (e2 - e1) -> e1 = e2 /\ m1 = m2.
Proof.
  intros C1 C2 Hle Heq.
  pose proof (digits_mul_pow2 m2 m1 (e2 - e1) ltac:(lia) Heq) as Hd.
  unfold canonical in C1, C2. rewrite Hd in C1.
  replace (Zpos (digits2_pos m2) + (e2 - e1) + e1) with (Zpos (digits2_pos m2) + e2) in C1 by lia.
  assert (e1 = e2) by congruence. subst e2. split; [reflexivity|].
  rewrite Z.sub_diag, Z.pow_0_r in Heq. lia.
Qed.

Lemma SFeqb_finite (s1 s2 : bool) (m1 m2 : positive) (e1 e2 : Z) :
  SFeqb (S754_finite s1 m1 e1) (S754_finite s2 m2 e2) = true <->
  (s1 = s2 /\ m1 = m2 /\ e1 = e2).
Proof.
  unfold SFeqb, SFcompare.
  destruct s1, s2; try (split; [discriminate|intros (? & _); discriminate]).
  - destruct (Z.compare_spec e1 e2) as [He|He|He];
      try (split; [discriminate|intros (_ & _ & ?); lia]).
    destruct (Pos.compare_cont Eq m1 m2) eqn:Hc; cbn [CompOpp];
      try (split; [discriminate|intros (_ & -> & _); rewrite Pcompare_refl in Hc; discriminate]).
    apply Pcompare_Eq_eq in Hc. tauto.
  - destruct (Z.compare_spec e1 e2) as [He|He|He];
      try (split; [discriminate|intros (_ & _ & ?); lia]).
    destruct (Pos.compare_cont Eq m1 m2) eqn:Hc;
      try (split; [discriminate|intros (_ & -> & _); rewrite Pcompare_refl in Hc; discriminate]).
    apply Pcompare_Eq_eq in Hc. tauto.
Qed.

Lemma binary_round_pos (s : bool) (m : positive) (e : Z) :
  -149 <= e -> finite_or_inf s (binary_round prec emax s m e).
Proof.
  intros He. unfold binary_round.
  destruct (shl_align m e (fexp prec emax (Zpos (digits2_pos m) + e))) as [mz ez] eqn:Hs.
  apply binary_round_aux_pos.
  unfold shl_align in Hs. rewrite fexp_eq in Hs.
  destruct (Z.max (Zpos (digits2_pos m) + e - 24) (-149) - e); inversion Hs; subst; lia.
Qed.

Lemma binary_normalize_nonzero (z e : Z) :
  z <> 0 -> -149 <= e -> not_zero_nor_nan (binary_normalize prec emax z e false).
Proof.
  intros Hz He. destruct z as [|p|p]; [contradiction| |]; cbn [binary_normalize].
  - exists false. now apply binary_round_pos.
  - exists true. now apply binary_round_pos.
Qed.

(** The aligned mantissas of two valid finite floats differ unless the
    floats are the same. *)
Lemma aligned_difference (sx sy : bool) (mx my : positive) (ex ey : Z) :
  canonical mx ex -> canonical my ey ->
  let ez := Z.min ex ey in
  cond_Zopp sx (Zpos (fst (shl_align mx ex ez))) -
  cond_Zopp sy (Zpos (fst (shl_align my ey ez))) = 0 <->
  (sx = sy /\ mx = my /\ ex = ey).
Proof.
  intros Cx Cy ez.
  destruct (shl_align_value mx ex ez ltac:(lia)) as [Hx _].
  destruct (shl_align_value my ey ez ltac:(lia)) as [Hy _].
  set (ax := fst (shl_align mx ex ez)) in *.
  set (ay := fst (shl_align my ey ez)) in *.
  split.
  - intros Hd.
    assert (Hs : sx = sy) by (destruct sx, sy; cbn [cond_Zopp] in Hd; try reflexivity; lia).
    subst sy. assert (Ha : Zpos ax = Zpos ay) by (destruct sx; cbn [cond_Zopp] in Hd; lia).
    destruct (Z.le_ge_cases ex ey) as [Hle|Hle].
    + assert (ez = ex) by lia.
      replace (ex - ez) with 0 in Hx by lia. replace (ey - ez) with (ey - ex) in Hy by lia.
      rewrite Z.pow_0_r, Z.mul_1_r in Hx.
      destruct (canonical_aligned_eq mx my ex ey Cx Cy Hle) as [-> ->]; [lia|auto].
    + assert (ez = ey) by lia.
      replace (ey - ez) with 0 in Hy by lia. replace (ex - ez) with (ex - ey) in Hx by lia.
      rewrite Z.pow_0_r, Z.mul_1_r in Hy.
      destruct (canonical_aligned_eq my mx ey ex Cy Cx Hle) as [-> ->]; [lia|auto].
  - intros (-> & -> & ->). subst ax ay. lia.
Qed.

Lemma sub_finite_finite (sx sy : bool) (mx my : positive) (ex ey : Z) :
  valid (S754_finite sx mx ex) = true -> valid (S754_finite sy my ey) = true ->
  (eq (S754_finite sx mx ex) (S754_finite sy my ey) = true /\
   sub (S754_finite sx mx ex) (S754_finite sy my ey) = S754_zero false) \/
  (eq (S754_finite sx mx ex) (S754_finite sy my ey) = false /\
   not_zero_nor_nan (sub (S754_finite sx mx ex) (S754_finite sy my ey))).
Proof.
  intros Vx Vy. apply valid_finite in Vx as [Cx _]. apply valid_finite in Vy as [Cy _].
  pose proof (aligned_difference sx sy mx my ex ey Cx Cy) as Hd. cbv zeta in Hd.
  pose proof (SFeqb_finite sx sy mx my ex ey) as He.
  unfold sub, SFsub, eq.
  destruct (SFeqb (S754_finite sx mx ex) (S754_finite sy my ey)).
  - left. split; [reflexivity|].
    assert (H0 : sx = sy /\ mx = my /\ ex = ey) by now apply He.
    apply Hd in H0. rewrite H0. reflexivity.
  - right. split; [reflexivity|].
    apply binary_normalize_nonzero.
    + intros H0. apply Hd, He in H0. discriminate.
    + apply canonical_emin in Cx, Cy. lia.
Qed.

(** With [x != y] the difference [x - y] is never a zero. *)
Lemma sub_neq_not_zero (x y : float) :
  valid x = true -> valid y = true -> neq x y = true -> is_zero (sub x y) = false.
Proof.
  intros Vx Vy Hne. unfold neq in Hne. apply negb_true_iff in Hne.
  destruct x as [sx|sx| |sx mx ex], y as [sy|sy| |sy my ey];
    try reflexivity; try discriminate.
  - destruct sx, sy; try reflexivity; discriminate.
  - destruct (sub_finite_finite sx sy mx my ex ey Vx Vy) as [[He _]|[_ (s & [(m & e & ->)| ->])]];
      [unfold eq in He; congruence|reflexivity|reflexivity].
Qed.

Lemma div_eucl_mul (m : positive) (k : Z) :
  Z.div_eucl (Zpos m * k) (Zpos m) = (k, 0).
Proof.
  pose proof (Z.div_mul k (Zpos m) ltac:(lia)) as Hq.
  pose proof (Z.mod_mul k (Zpos m) ltac:(lia)) as Hr.
  rewrite (Z.mul_comm k) in Hq, Hr.
  unfold Z.div, Z.modulo in Hq, Hr.
  destruct (Z.div_eucl (Zpos m * k) (Zpos m)) as [q r]. cbn in Hq, Hr. congruence.
Qed.

Lemma new_location_zero (n : Z) : new_location n 0 = loc_Exact.
Proof. unfold new_location. destruct (Z.even n); reflexivity. Qed.

(** A finite float divided by itself is exactly [1.0f]. *)
Lemma div_self (s : bool) (m : positive) (e : Z) :
  div (S754_finite s m e) (S754_finite s m e) = one.
Proof.
  unfold div, SFdiv, SFdiv_core_binary. cbn [Zdigits2].
  replace (Zpos (digits2_pos m) + e - (Zpos (digits2_pos m) + e)) with 0 by lia.
  rewrite Z.sub_diag.
  change (Z.min (fexp prec emax 0) 0) with (-24).
  change (0 - -24) with 24.
  rewrite Z.shiftl_mul_pow2 by lia.
  rewrite div_eucl_mul, new_location_zero, xorb_nilpotent.
  reflexivity.
Qed.

(** Multiplication by [1.0f] is exact. *)
Lemma mul_one (t : float) : valid t = true -> mul one t = t.
Proof.
  intros Vt. destruct t as [s|s| |s m e]; try reflexivity.
  apply valid_finite in Vt as [Ct Hb].
  unfold mul, SFmul, one. cbn [xorb].
  set (M := (8388608 * m)%positive).
  assert (HM : Zpos M = Zpos m * 2 ^ 23).
  { change M with (shift_pos 23 m). rewrite shift_pos_correct.
    change (Z.pow_pos 2 23) with (2 ^ 23). ring. }
  pose proof (digits_mul_pow2 m M 23 ltac:(lia) HM) as Hd.
  unfold binary_round_aux, shr_fexp. cbn [Zdigits2]. rewrite Hd.
  replace (Zpos (digits2_pos m) + 23 + (-23 + e)) with (Zpos (digits2_pos m) + e) by lia.
  rewrite Ct. replace (e - (-23 + e)) with 23 by lia.
  cbn [shr_record_of_loc shr].
  change (iter_pos shr_1 23 {| shr_m := Zpos M; shr_r := false; shr_s := false |})
    with {| shr_m := Zpos m; shr_r := false; shr_s := false |}.
  cbn [shr_m loc_of_shr_record round_nearest_even Zdigits2].
  replace (-23 + e + 23) with e by lia.
  rewrite Ct, Z.sub_diag. cbn [shr shr_record_of_loc shr_m].
  apply Z.leb_le in Hb. change (emax - prec) with 104. now rewrite Hb.
Qed.

Lemma digits_mono (m m' : positive) :
  Zpos m <= Zpos m' -> Zpos (digits2_pos m) <= Zpos (digits2_pos m').
Proof.
  intros Hle. pose proof (digits_bounds m) as [Dlo _]. pose proof (digits_bounds m') as [_ Dhi].
  destruct (Z.le_gt_cases (Zpos (digits2_pos m)) (Zpos (digits2_pos m'))) as [H|H]; [exact H|].
  assert (2 ^ Zpos (digits2_pos m') <= 2 ^ (Zpos (digits2_pos m) - 1))
    by (apply Z.pow_le_mono_r; lia).
  lia.
Qed.

(** Shifting to the format exponent yields a canonical mantissa. *)
Lemma shr_fexp_canonical (m : positive) (e : Z) (l : location) :
  -149 <= e -> e <= fexp prec emax (Zpos (digits2_pos m) + e) ->
  exists m', shr_m (fst (shr_fexp prec emax (Zpos m) e l)) = Zpos m' /\
             canonical m' (snd (shr_fexp prec emax (Zpos m) e l)) /\
             -149 <= snd (shr_fexp prec emax (Zpos m) e l).
Proof.
  intros He Hn. unfold shr_fexp, shr. cbn [Zdigits2].
  pose proof (digits_bounds m) as [Dlo Dhi].
  rewrite fexp_eq in *.
  set (d := Zpos (digits2_pos m)) in *.
  destruct (Z.max (d + e - 24) (-149) - e) as [|q|q] eqn:Hq; cbn [fst snd]; try lia.
  - exists m. rewrite shr_record_of_loc_m. split; [reflexivity|]. split; [|lia].
    unfold canonical. rewrite fexp_eq. fold d. lia.
  - rewrite iter_shr_m by (rewrite shr_record_of_loc_m; lia).
    rewrite shr_record_of_loc_m.
    assert (Hqd : Zpos q = d - 24) by lia.
    assert (Hp : 0 < 2 ^ Zpos q) by (apply Z.pow_pos_nonneg; lia).
    assert (Hsplit : 2 ^ d = 2 ^ 24 * 2 ^ Zpos q).
    { replace d with (24 + Zpos q) by lia. rewrite Z.pow_add_r by lia. reflexivity. }
    assert (Hsplit' : 2 ^ (d - 1) = 2 ^ 23 * 2 ^ Zpos q).
    { replace (d - 1) with (23 + Zpos q) by lia. rewrite Z.pow_add_r by lia. reflexivity. }
    assert (Hlo : 2 ^ 23 <= Zpos m / 2 ^ Zpos q).
    { apply Z.div_le_lower_bound; [exact Hp|]. rewrite Z.mul_comm. lia. }
    assert (Hhi : Zpos m / 2 ^ Zpos q < 2 ^ 24).
    { apply Z.div_lt_upper_bound; [exact Hp|]. rewrite Z.mul_comm. lia. }
    destruct (Zpos m / 2 ^ Zpos q) as [|m'|m'] eqn:Hm'; try (change (2 ^ 23) with 8388608 in Hlo; lia).
    exists m'. split; [reflexivity|]. split; [|lia].
    unfold canonical. rewrite (digits_unique m' 24) by (split; assumption).
    rewrite fexp_eq. lia.
Qed.

Lemma binary_round_aux_valid (s : bool) (m : positive) (e : Z) (l : location) :
  -149 <= e -> e <= fexp prec emax (Zpos (digits2_pos m) + e) ->
  valid (binary_round_aux prec emax s (Zpos m) e l) = true.
Proof.
  intros He Hn. unfold binary_round_aux.
  destruct (shr_fexp_canonical m e l He Hn) as (m1 & Hm1 & C1 & He1).
  destruct (shr_fexp prec emax (Zpos m) e l) as [mrs' e']. cbn [fst snd] in Hm1, C1, He1.
  pose proof (round_nearest_even_ge (shr_m mrs') (loc_of_shr_record mrs')) as Hr.
  rewrite Hm1 in Hr |- *.
  destruct (round_nearest_even (Zpos m1) (loc_of_shr_record mrs')) as [|p|p]; try lia.
  assert (Hn2 : e' <= fexp prec emax (Zpos (digits2_pos p) + e')).
  { pose proof (digits_mono m1 p Hr). unfold canonical in C1. rewrite fexp_eq in *. lia. }
  destruct (shr_fexp_canonical p e' loc_Exact He1 Hn2) as (m2 & Hm2 & C2 & He2).
  destruct (shr_fexp prec emax (Zpos p) e' loc_Exact) as [mrs'' e''].
  cbn [fst snd] in Hm2, C2, He2. rewrite Hm2.
  destruct (Z.leb_spec e'' (emax - prec)) as [Hb|Hb]; [|reflexivity].
  apply valid_finite. split; [exact C2|exact Hb].
Qed.

Lemma binary_round_valid (s : bool) (m : positive) (e : Z) :
  -149 <= e -> valid (binary_round prec emax s m e) = true.
Proof.
  intros He. unfold binary_round.
  set (f := fexp prec emax (Zpos (digits2_pos m) + e)).
  destruct (Z.le_gt_cases e f) as [Hle|Hgt].
  - assert (Hs : shl_align m e f = (m, e)).
    { unfold shl_align. destruct (f - e) eqn:Hd; try reflexivity; lia. }
    rewrite Hs. apply binary_round_aux_valid; [exact He|exact Hle].
  - destruct (shl_align_value m e f ltac:(lia)) as [Hv He'].
    destruct (shl_align m e f) as [mz ez]. cbn [fst snd] in Hv, He'. subst ez.
    assert (Hf : -149 <= f) by (unfold f; rewrite fexp_eq; lia).
    apply binary_round_aux_valid; [exact Hf|].
    rewrite (digits_mul_pow2 m mz (e - f) ltac:(lia) Hv).
    replace (Zpos (digits2_pos m) + (e - f) + f) with (Zpos (digits2_pos m) + e) by lia.
    fold f. lia.
Qed.

Lemma binary_normalize_valid (z e : Z) (sz : bool) :
  -149 <= e -> valid (binary_normalize prec emax z e sz) = true.
Proof.
  intros He. destruct z; cbn [binary_normalize]; [reflexivity| |]; now apply binary_round_valid.
Qed.

Lemma sub_valid (x y : float) :
  valid x = true -> valid y = true -> valid (sub x y) = true.
Proof.
  intros Vx Vy.
  destruct x as [sx|sx| |sx mx ex], y as [sy|sy| |sy my ey]; try reflexivity;
    try exact Vx; try exact Vy.
  - destruct sx, sy; reflexivity.
  - destruct sx, sy; reflexivity.
  - unfold sub, SFsub. apply binary_normalize_valid.
    apply valid_finite in Vx as [Cx _]. apply valid_finite in Vy as [Cy _].
    apply canonical_emin in Cx, Cy. lia.
Qed.

Lemma eq_refl_finite (x : float) : is_finite x = true -> eq x x = true.
Proof.
  destruct x as [s|s| |s m e]; try discriminate; intros _; [reflexivity|].
  now apply SFeqb_finite.
Qed.

Lemma sub_eq_is_zero (x y : float) :
  valid x = true -> valid y = true ->
  is_finite x = true -> eq x y = true -> is_zero (sub x y) = true.
Proof.
  intros Vx Vy Fx He.
  destruct x as [sx|sx| |sx mx ex], y as [sy|sy| |sy my ey]; try discriminate;
    try (destruct sx; discriminate); try (destruct sy; discriminate).
  - destruct sx, sy; reflexivity.
  - destruct (sub_finite_finite sx sy mx my ex ey Vx Vy) as [[_ ->]|[Hf _]];
      [reflexivity|congruence].
Qed.

Lemma sub_neq_finite (x y : float) :
  valid x = true -> valid y = true ->
  is_finite x = true -> is_finite y = true -> neq x y = true ->
  not_zero_nor_nan (sub x y).
Proof.
  intros Vx Vy Fx Fy Hne. unfold neq in Hne. apply negb_true_iff in Hne.
  destruct x as [sx|sx| |sx mx ex], y as [sy|sy| |sy my ey]; try discriminate.
  - exists (negb sy). left. exists my, ey. reflexivity.
  - exists sx. left. exists mx, ex. reflexivity.
  - destruct (sub_finite_finite sx sy mx my ex ey Vx Vy) as [[He _]|[_ H]];
      [unfold eq in He; congruence|exact H].
Qed.

(** [x - y] does not change when [x] is replaced by a finite [x'] with
    [x == x'], provided [x' != y]. *)
Lemma sub_congr_l (x x' y : float) :
  is_finite x = true -> is_finite x' = true ->
  eq x x' = true -> neq x' y = true -> sub x y = sub x' y.
Proof.
  intros Fx Fx' He Hne. unfold neq in Hne. apply negb_true_iff in Hne.
  destruct x as [sx|sx| |sx mx ex], x' as [sx'|sx'| |sx' mx' ex']; try discriminate;
    try (destruct sx; discriminate); try (destruct sx'; discriminate).
  - destruct y as [sy|sy| |sy my ey]; try reflexivity. discriminate.
  - apply SFeqb_finite in He as (-> & -> & ->). reflexivity.
Qed.

Lemma div_zero_l (s : bool) (d : float) :
  not_zero_nor_nan d -> is_zero (div (S754_zero s) d) = true.
Proof. intros (sd & [(m & e & ->)| ->]); reflexivity. Qed.

Lemma mul_zero_l (z t : float) :
  is_zero z = true -> is_finite t = true -> is_zero (mul z t) = true.
Proof. destruct z, t; try discriminate; reflexivity. Qed.

Lemma add_zero_r (x z : float) :
  is_finite x = true -> is_zero z = true -> eq (add x z) x = true.
Proof.
  destruct z as [sz| | |]; try discriminate.
  destruct x as [sx|sx| |sx mx ex]; try discriminate; intros _ _.
  - destruct sx, sz; reflexivity.
  - now apply SFeqb_finite.
Qed.

Lemma sub_finite_args (x y : float) :
  is_finite (sub x y) = true -> is_finite x = true /\ is_finite y = true.
Proof.
  destruct x as [sx|sx| |sx mx ex], y as [sy|sy| |sy my ey]; cbn; try discriminate; auto.
  destruct sx, sy; discriminate.
Qed.

End F32Facts.

(** ** The range-map node *)

Module MapRangeFacts.
Import F32 F32Facts MapRange MapRangeProps.

Lemma stack_store_length (stack : list float) (a : nat) (f : float) :
  List.length (stack_store_float stack a f) = List.length stack.
Proof.
  revert a. induction stack as [|v st IH]; intros [|a]; cbn; auto.
Qed.

Lemma stack_load_store_same (stack : list float) (a : nat) (f : float) :
  (a < List.length stack)%nat -> stack_load_float (stack_store_float stack a f) a = f.
Proof.
  unfold stack_load_float. revert a.
  induction stack as [|v st IH]; intros [|a] H; cbn in *; try lia; auto with arith.
Qed.

Lemma stack_load_store_other (stack : list float) (a b : nat) (f : float) :
  a <> b -> stack_load_float (stack_store_float stack a f) b = stack_load_float stack b.
Proof.
  unfold stack_load_float. revert a b.
  induction stack as [|v st IH]; intros [|a] [|b] H; cbn; auto; congruence.
Qed.

Lemma stack_load_valid (stack : list float) (a : nat) :
  Forall (fun f => valid f = true) stack -> valid (stack_load_float stack a) = true.
Proof.
  intros H. unfold stack_load_float.
  destruct (nth_in_or_default a stack zero) as [Hin| ->]; [|reflexivity].
  rewrite Forall_forall in H. now apply H.
Qed.

Lemma eq_neq (x y : float) : neq x y = negb (eq x y).
Proof. reflexivity. Qed.

(** [1.5] in [[1, 2]] maps to [2] in [[1, 3]]. *)
Example map_range_midpoint :
  map_range (S754_finite false 12582912 (-23)) one two one three = two.
Proof. reflexivity. Qed.

(** C1: on every stack of binary32 values the node advances the offset by
    one and writes the slot [node1.w] only; with [fromMax != fromMin] and
    [toMax != toMin] the slot receives
    [toMin + ((value - fromMin) / (fromMax - fromMin)) * (toMax - toMin)]
    and the divisor [fromMax - fromMin] is not a zero; with
    [fromMax == fromMin] or [toMax == toMin] the slot receives [0.0f], and
    no division is made. *)
Theorem map_range_node_result :
  forall (kg : KernelGlobals) (stack : list float)
         (value_offset fromMin_offset fromMax_offset offset : nat),
    Forall (fun f => valid f = true) stack ->
    let node1 := fst (read_node kg offset) in
    (w node1 < List.length stack)%nat ->
    let value := stack_load_float stack value_offset in
    let fromMin := stack_load_float stack fromMin_offset in
    let fromMax := stack_load_float stack fromMax_offset in
    let toMin := stack_load_float stack (y node1) in
    let toMax := stack_load_float stack (z node1) in
    let stack' := fst (svm_node_map_range kg stack value_offset fromMin_offset
                         fromMax_offset offset) in
    let offset' := snd (svm_node_map_range kg stack value_offset fromMin_offset
                          fromMax_offset offset) in
    offset' = S offset /\
    List.length stack' = List.length stack /\
    (forall a, a <> w node1 -> stack_load_float stack' a = stack_load_float stack a) /\
    (neq fromMax fromMin = true -> neq toMax toMin = true ->
     stack_load_float stack' (w node1) =
       add toMin (mul (div (sub value fromMin) (sub fromMax fromMin)) (sub toMax toMin)) /\
     is_zero (sub fromMax fromMin) = false) /\
    (eq fromMax fromMin = true \/ eq toMax toMin = true ->
     stack_load_float stack' (w node1) = zero).
Proof.
  intros kg stack vo fmin fmax offset Hvalid node1 Hw value fromMin fromMax toMin toMax
         stack' offset'.
  subst stack' offset'. unfold svm_node_map_range.
  change (read_node kg offset) with (node1, S offset).
  cbn [fst snd]. fold value fromMin fromMax toMin toMax.
  split; [reflexivity|]. split; [apply stack_store_length|].
  split; [intros a Ha; now apply stack_load_store_other|].
  rewrite stack_load_store_same by exact Hw. unfold map_range. split.
  - intros H1 H2. rewrite H1, H2. split; [reflexivity|].
    apply sub_neq_not_zero; [apply stack_load_valid|apply stack_load_valid|]; assumption.
  - rewrite !eq_neq. intros [H|H]; rewrite H; cbn [negb andb]; [reflexivity|].
    now rewrite andb_false_r.
Qed.

Lemma map_range_node_result_witness :
  Forall (fun f => valid f = true) example_stack /\
  (w (fst (read_node example_kernel 0)) < List.length example_stack)%nat /\
  neq three one = true /\ neq two zero = true /\
  fst (svm_node_map_range example_kernel example_stack 0 1 2 0)
  = [two; one; three; zero; two; one] /\
  is_zero (sub three one) = false.
Proof.
  assert (Hv : Forall (fun f => valid f = true) example_stack) by (repeat constructor).
  assert (Hw : (w (fst (read_node example_kernel 0)) < List.length example_stack)%nat)
    by (cbn; lia).
  assert (H1 : neq three one = true) by reflexivity.
  assert (H2 : neq two zero = true) by reflexivity.
  split; [exact Hv|]. split; [exact Hw|]. split; [exact H1|]. split; [exact H2|].
  destruct (map_range_node_result example_kernel example_stack 0 1 2 0 Hv Hw)
    as (_ & _ & _ & Hnd & _).
  destruct (Hnd H1 H2) as [Hr Hz]. split; [|exact Hz].
  reflexivity.
Defined.

(** C5, as far as binary32 arithmetic allows: with non-degenerate intervals
    of finite bounds, a finite [value == fromMin] and a difference
    [toMax - toMin] that does not overflow, the output compares equal to
    [toMin]; with a finite [value == fromMax] and a difference
    [fromMax - fromMin] that does not overflow, the output is the float sum
    [toMin + (toMax - toMin)]. *)
Theorem map_range_endpoints :
  forall value fromMin fromMax toMin toMax : float,
    valid value = true -> valid fromMin = true -> valid fromMax = true ->
    valid toMin = true -> valid toMax = true ->
    is_finite value = true -> is_finite fromMin = true -> is_finite fromMax = true ->
    neq fromMax fromMin = true -> neq toMax toMin = true ->
    (eq value fromMin = true -> is_finite (sub toMax toMin) = true ->
     eq (map_range value fromMin fromMax toMin toMax) toMin = true) /\
    (eq value fromMax = true -> is_finite (sub fromMax fromMin) = true ->
     map_range value fromMin fromMax toMin toMax = add toMin (sub toMax toMin)).
Proof.
  intros value fromMin fromMax toMin toMax Vv Vfmin Vfmax Vtmin Vtmax Fv Ffmin Ffmax Hfrom Hto.
  unfold map_range. rewrite Hfrom, Hto. cbn [andb]. split.
  - intros He Hfin.
    pose proof (sub_eq_is_zero value fromMin Vv Vfmin Fv He) as Hn.
    pose proof (sub_neq_finite fromMax fromMin Vfmax Vfmin Ffmax Ffmin Hfrom) as Hd.
    destruct (sub value fromMin) as [s0| | |]; try discriminate.
    pose proof (div_zero_l s0 _ Hd) as Hq.
    pose proof (mul_zero_l _ _ Hq Hfin) as Hm.
    apply add_zero_r; [|exact Hm].
    apply sub_finite_args in Hfin. tauto.
  - intros He Hfin.
    rewrite (sub_congr_l value fromMax fromMin Fv Ffmax He Hfrom).
    pose proof (sub_neq_finite fromMax fromMin Vfmax Vfmin Ffmax Ffmin Hfrom)
      as (s & [(m & e & Hd)|Hd]); rewrite Hd in Hfin |- *; [|discriminate].
    rewrite div_self, mul_one; [reflexivity|].
    now apply sub_valid.
Qed.

Lemma map_range_endpoints_witness :
  valid one = true /\ valid two = true /\ valid three = true /\
  is_finite one = true /\ is_finite two = true /\
  neq two one = true /\ neq three one = true /\
  eq one one = true /\ eq two two = true /\
  is_finite (sub three one) = true /\ is_finite (sub two one) = true /\
  eq (map_range one one two one three) one = true /\
  map_range two one two one three = three.
Proof.
  do 11 (split; [reflexivity|]).
  assert (V1 : valid one = true) by reflexivity.
  assert (V2 : valid two = true) by reflexivity.
  assert (V3 : valid three = true) by reflexivity.
  assert (F1 : is_finite one = true) by reflexivity.
  assert (F2 : is_finite two = true) by reflexivity.
  assert (N1 : neq two one = true) by reflexivity.
  assert (N2 : neq three one = true) by reflexivity.
  split.
  - destruct (map_range_endpoints one one two one three V1 V1 V2 V1 V3 F1 F1 F2 N1 N2)
      as [Hmin _].
    apply Hmin; reflexivity.
  - destruct (map_range_endpoints two one two one three V2 V1 V2 V1 V3 F2 F1 F2 N1 N2)
      as [_ Hmax].
    rewrite Hmax; reflexivity.
Defined.

(** C5 as stated fails in binary32 arithmetic.  At [value == fromMax] with
    [toMin = 2^30] and [toMax = 1] the difference [toMax - toMin] rounds to
    [-2^30] and the output is [0], not [toMax]; at [value == fromMin] with
    [toMin = -FLT_MAX] and [toMax = FLT_MAX] the difference overflows and the
    output is a NaN, not [toMin]. *)
Lemma map_range_endpoints_inexact :
  valid one = true /\ valid two = true /\ valid p30 = true /\
  valid max_float = true /\
  neq two one = true /\ neq one p30 = true /\
  neq max_float (SFopp max_float) = true /\
  eq two two = true /\ eq one one = true /\
  map_range two one two p30 one = zero /\
  eq (map_range two one two p30 one) one = false /\
  map_range one one two (SFopp max_float) max_float = S754_nan /\
  eq (map_range one one two (SFopp max_float) max_float) (SFopp max_float) = false.
Proof. repeat split. Qed.

End MapRangeFacts.

(** ** Access to ranges *)

Module RangeAccessFacts.
Import BLI RangeFacts.

Ltac words :=
  unfold BLI.to_T, BLI.inT, BLI.in_uint, to_uint, T_min, T_max, wordsize in *;
  change (2 ^ 32) with 4294967296 in *; change (2 ^ 31) with 2147483648 in *.

Lemma inT_between (T_signed : bool) (a b z : Z) :
  inT T_signed a -> inT T_signed b -> a <= z <= b -> inT T_signed z.
Proof. words. destruct T_signed; lia. Qed.

Lemma to_uint_small (z : Z) : 0 <= z < wordsize -> to_uint z = z.
Proof. intros H. unfold to_uint. now apply Z.mod_small. Qed.

Lemma inT_nonneg_uint (T_signed : bool) (z : Z) :
  inT T_signed z -> 0 <= z -> 0 <= z < wordsize.
Proof. words. destruct T_signed; lia. Qed.

Lemma upfrom_nth (a : Z) (n i : nat) :
  (i < n)%nat -> nth i (upfrom a n) 0 = a + Z.of_nat i.
Proof.
  intros Hi. unfold upfrom.
  rewrite (nth_indep _ 0 ((fun i => a + Z.of_nat i) O))
    by now rewrite length_map, length_seq.
  rewrite (map_nth (fun i => a + Z.of_nat i)).
  now rewrite seq_nth.
Qed.

Lemma upfrom_In (a : Z) (n : nat) (v : Z) :
  In v (upfrom a n) <-> a <= v < a + Z.of_nat n.
Proof.
  unfold upfrom. rewrite in_map_iff. split.
  - intros (i & <- & Hi). apply in_seq in Hi. lia.
  - intros H. exists (Z.to_nat (v - a)). split; [lia|]. apply in_seq. lia.
Qed.

(** X1: on a range whose bounds are values of [T] with
    [start <= one_after_last], the subscript operator at an index below
    [size()] returns [start + index], which is the element the iteration
    yields at that position, and the range contains it; at an index from
    [size()] on, the assertion of the operator fails in a debug build. *)
Theorem range_index_follows_iteration :
  forall (T_signed debug : bool) (start one_after_last i : Z),
    inT T_signed start -> inT T_signed one_after_last ->
    start <= one_after_last -> 0 <= i < wordsize ->
    let r := mkRange start one_after_last in
    (i < size T_signed r ->
     index T_signed debug r i = Ok (start + i) /\
     contains r (start + i) = true /\
     exists l, range_for T_signed (Z.to_nat (size T_signed r)) r = Some l /\
               nth (Z.to_nat i) l 0 = start + i) /\
    (size T_signed r <= i -> index T_signed true r i = AssertFail site_index).
Proof.
  intros T debug s e i Hs He Hle Hi r.
  assert (Hsize : size T r = e - s) by now apply size_diff.
  split.
  - intros Hlt. rewrite Hsize in Hlt.
    assert (Hin : inT T (s + i)) by (apply (inT_between T s e); auto; lia).
    split; [|split].
    + unfold index, BLI_assert. destruct (Z.ltb_spec i (size T r)); [|lia].
      rewrite andb_false_r. cbn [cbind m_start r]. now rewrite to_T_inT.
    + apply contains_iff. cbn [m_start m_one_after_last r]. lia.
    + exists (upfrom s (Z.to_nat (size T r))). split.
      * unfold range_for, begin_, end_. cbn [m_start m_one_after_last r].
        apply range_for_from_upfrom with (stop := e); auto. now rewrite Hsize.
      * rewrite upfrom_nth by lia. lia.
  - intros Hge. unfold index, BLI_assert.
    destruct (Z.ltb_spec i (size T r)); [lia|]. reflexivity.
Qed.

Lemma range_index_follows_iteration_witness :
  inT false 3 /\ inT false 7 /\ 3 <= 7 /\ 0 <= 2 < wordsize /\
  index false true (mkRange 3 7) 2 = Ok 5 /\
  index false true (mkRange 3 7) 4 = AssertFail site_index.
Proof.
  assert (H1 : inT false 3) by (vm_compute; split; discriminate).
  assert (H2 : inT false 7) by (vm_compute; split; discriminate).
  assert (H3 : 3 <= 7) by lia.
  assert (H4 : 0 <= 2 < wordsize) by (unfold wordsize; lia).
  assert (H5 : 0 <= 4 < wordsize) by (unfold wordsize; lia).
  split; [exact H1|]. split; [exact H2|]. split; [exact H3|]. split; [exact H4|].
  split.
  - destruct (range_index_follows_iteration false true 3 7 2 H1 H2 H3 H4) as [Hin _].
    destruct Hin as (Hi & _); [vm_compute; reflexivity|exact Hi].
  - destruct (range_index_follows_iteration false true 3 7 4 H1 H2 H3 H5) as [_ Hout].
    apply Hout. vm_compute. discriminate.
Defined.

(** X2: on a non-empty range [first()] is [start] and [last()] is
    [one_after_last - 1]; both are contained and every contained value lies
    between them.  On an empty range both assertions fail in a debug build, a
    release build returns [start] from [first()], and the range contains
    nothing. *)
Theorem range_first_last :
  forall (T_signed debug : bool) (start one_after_last : Z),
    inT T_signed start -> inT T_signed one_after_last ->
    start <= one_after_last ->
    let r := mkRange start one_after_last in
    (start < one_after_last ->
     first T_signed debug r = Ok start /\
     last T_signed debug r = Ok (one_after_last - 1) /\
     contains r start = true /\ contains r (one_after_last - 1) = true /\
     (forall v, contains r v = true -> start <= v <= one_after_last - 1)) /\
    (start = one_after_last ->
     first T_signed true r = AssertFail site_first /\
     last T_signed true r = AssertFail site_last /\
     first T_signed false r = Ok start /\
     forall v, contains r v = false).
Proof.
  intros T debug s e Hs He Hle r.
  assert (Hsize : size T r = e - s) by now apply size_diff.
  subst r. split.
  - intros Hlt.
    assert (Hin : inT T (e - 1)) by (apply (inT_between T s e); auto; lia).
    unfold first, last, BLI_assert. rewrite Hsize.
    destruct (Z.ltb_spec 0 (e - s)); [|lia]. rewrite andb_false_r. cbn [cbind m_start m_one_after_last].
    rewrite to_T_inT by exact Hin.
    split; [reflexivity|]. split; [reflexivity|].
    split; [apply contains_iff; cbn [m_start m_one_after_last]; lia|].
    split; [apply contains_iff; cbn [m_start m_one_after_last]; lia|].
    intros v Hv. apply contains_iff in Hv. cbn [m_start m_one_after_last] in Hv. lia.
  - intros ->. unfold first, last, BLI_assert. rewrite Hsize, Z.sub_diag. cbn.
    repeat split. intros v. unfold contains. cbn [m_start m_one_after_last].
    apply andb_false_iff. rewrite Z.geb_leb, Z.leb_gt, Z.ltb_ge. lia.
Qed.

Lemma range_first_last_witness :
  inT true (-3) /\ inT true 2 /\ -3 <= 2 /\ -3 < 2 /\
  first true true (mkRange (-3) 2) = Ok (-3) /\
  last true true (mkRange (-3) 2) = Ok 1 /\
  inT true 4 /\ 4 <= 4 /\
  last true true (mkRange 4 4) = AssertFail site_last.
Proof.
  assert (H1 : inT true (-3)) by (vm_compute; split; discriminate).
  assert (H2 : inT true 2) by (vm_compute; split; discriminate).
  assert (H3 : -3 <= 2) by lia.
  assert (H4 : -3 < 2) by lia.
  assert (H5 : inT true 4) by (vm_compute; split; discriminate).
  assert (H6 : 4 <= 4) by lia.
  destruct (range_first_last true true (-3) 2 H1 H2 H3) as [Hne _].
  destruct (Hne H4) as (Hf & Hl & _).
  destruct (range_first_last true true 4 4 H5 H5 H6) as [_ Hem].
  destruct (Hem eq_refl) as (_ & Hl' & _).
  repeat (split; [assumption|]). exact Hl'.
Defined.

Lemma BLI_assert_holds (debug : bool) (site : nat) : BLI_assert debug site true = Ok tt.
Proof. unfold BLI_assert. now rewrite andb_false_r. Qed.

Lemma Range_new_ok (debug : bool) (s e : Z) :
  s <= e -> Range_new debug s e = Ok (mkRange s e).
Proof.
  intros H. unfold Range_new. apply Z.leb_le in H. rewrite H, BLI_assert_holds. reflexivity.
Qed.

Lemma Range_new_fails (s e : Z) : e < s -> Range_new true s e = AssertFail site_ctor.
Proof. intros H. rewrite Range_new_debug. apply Z.leb_gt in H. now rewrite H. Qed.

Lemma to_T_wrap_up (T_signed : bool) (z : Z) :
  T_max T_signed < z <= T_max T_signed + wordsize -> to_T T_signed z = z - wordsize.
Proof.
  words. destruct T_signed; intros H.
  - replace (z + 2147483648) with ((z - 4294967296 + 2147483648) + 1 * 4294967296) by lia.
    rewrite Z.mod_add by lia. rewrite Z.mod_small; lia.
  - replace z with ((z - 4294967296) + 1 * 4294967296) at 1 by lia.
    rewrite Z.mod_add by lia. rewrite Z.mod_small; lia.
Qed.

Lemma to_T_wrap_down (T_signed : bool) (z : Z) :
  T_min T_signed - wordsize <= z < T_min T_signed -> to_T T_signed z = z + wordsize.
Proof.
  words. destruct T_signed; intros H.
  - replace (z + 2147483648) with ((z + 4294967296 + 2147483648) + (-1) * 4294967296) by lia.
    rewrite Z.mod_add by lia. rewrite Z.mod_small; lia.
  - replace z with ((z + 4294967296) + (-1) * 4294967296) at 1 by lia.
    rewrite Z.mod_add by lia. rewrite Z.mod_small; lia.
Qed.

Lemma T_bounds (T_signed : bool) :
  T_min T_signed <= 0 /\ 0 < T_max T_signed /\ T_max T_signed - T_min T_signed = wordsize - 1.
Proof. words. destruct T_signed; lia. Qed.

(** X3: [after(n)] and [before(n)] give the range of [n] elements that
    follows, respectively precedes, the range, without sharing an element
    with it, and [before], respectively [after], by [size()] leads back to
    the range.  When the new bound leaves the values of [T] the arithmetic
    wraps and the assertion of the constructor fails in a debug build. *)
Theorem range_after_before :
  forall (T_signed debug : bool) (start one_after_last n : Z),
    inT T_signed start -> inT T_signed one_after_last ->
    start <= one_after_last -> 0 <= n < wordsize ->
    let r := mkRange start one_after_last in
    (one_after_last + n <= T_max T_signed ->
     after T_signed debug r n = Ok (mkRange one_after_last (one_after_last + n)) /\
     size T_signed (mkRange one_after_last (one_after_last + n)) = n /\
     (forall v, contains r v = true ->
                contains (mkRange one_after_last (one_after_last + n)) v = false) /\
     before T_signed debug (mkRange one_after_last (one_after_last + n))
       (size T_signed r) = Ok r) /\
    (T_max T_signed < one_after_last + n ->
     after T_signed true r n = AssertFail site_ctor) /\
    (T_min T_signed <= start - n ->
     before T_signed debug r n = Ok (mkRange (start - n) start) /\
     size T_signed (mkRange (start - n) start) = n /\
     (forall v, contains r v = true -> contains (mkRange (start - n) start) v = false) /\
     after T_signed debug (mkRange (start - n) start) (size T_signed r) = Ok r) /\
    (start - n < T_min T_signed ->
     before T_signed true r n = AssertFail site_ctor).
Proof.
  intros T debug s e n Hs He Hle Hn r.
  assert (Hsize : size T r = e - s) by now apply size_diff.
  pose proof (T_bounds T) as (Hb1 & Hb2 & Hb3).
  assert (Hs' := Hs). assert (He' := He). unfold inT in Hs', He'.
  subst r. split; [|split; [|split]].
  - intros Hfit.
    assert (Hin : inT T (e + n)) by (unfold inT; lia).
    unfold after, before. cbn [m_start m_one_after_last].
    rewrite (to_T_inT T _ Hin), Hsize.
    replace (e - (e - s)) with s by lia. rewrite (to_T_inT T _ Hs).
    rewrite !Range_new_ok by lia.
    split; [reflexivity|]. split; [rewrite size_diff; auto; lia|]. split; [|reflexivity].
    intros v Hv. apply contains_iff in Hv. cbn [m_start m_one_after_last] in Hv.
    unfold contains. cbn [m_start m_one_after_last].
    apply andb_false_iff. rewrite Z.geb_leb, Z.leb_gt, Z.ltb_ge. lia.
  - intros Hover. unfold after. cbn [m_one_after_last].
    rewrite to_T_wrap_up by lia. apply Range_new_fails. lia.
  - intros Hfit.
    assert (Hin : inT T (s - n)) by (unfold inT; lia).
    unfold after, before. cbn [m_start m_one_after_last].
    rewrite (to_T_inT T _ Hin), Hsize.
    replace (s + (e - s)) with e by lia. rewrite (to_T_inT T _ He).
    rewrite !Range_new_ok by lia.
    split; [reflexivity|]. split; [rewrite size_diff; auto; lia|]. split; [|reflexivity].
    intros v Hv. apply contains_iff in Hv. cbn [m_start m_one_after_last] in Hv.
    unfold contains. cbn [m_start m_one_after_last].
    apply andb_false_iff. rewrite Z.geb_leb, Z.leb_gt, Z.ltb_ge. lia.
  - intros Hunder. unfold before. cbn [m_start].
    rewrite to_T_wrap_down by lia. apply Range_new_fails. lia.
Qed.

Lemma range_after_before_witness :
  inT false 2 /\ inT false 5 /\ 2 <= 5 /\ 0 <= 4 < wordsize /\
  5 + 4 <= T_max false /\ 2 - 4 < T_min false /\
  after false true (mkRange 2 5) 4 = Ok (mkRange 5 9) /\
  before false true (mkRange 2 5) 4 = AssertFail site_ctor.
Proof.
  assert (H1 : inT false 2) by (vm_compute; split; discriminate).
  assert (H2 : inT false 5) by (vm_compute; split; discriminate).
  assert (H3 : 2 <= 5) by lia.
  assert (H4 : 0 <= 4 < wordsize) by (unfold wordsize; lia).
  assert (H5 : 5 + 4 <= T_max false) by (vm_compute; discriminate).
  assert (H6 : 2 - 4 < T_min false) by reflexivity.
  destruct (range_after_before false true 2 5 4 H1 H2 H3 H4) as (Ha & _ & _ & Hb).
  destruct (Ha H5) as (Hafter & _).
  repeat (split; [assumption|]). exact (Hb H6).
Defined.

(** X4: for a range of non-negative values and
    [start + a + n <= one_after_last], [slice(a, n)] is the range from
    [start + a] to [start + a + n]: it has [n] elements, all of them elements
    of the range, its element [i] is the element [a + i] of the range, the
    slice at [0] of size [size()] is the range itself, and a slice of the
    slice is a slice of the range. *)
Theorem range_slice_subrange :
  forall (T_signed debug : bool) (start one_after_last a n : Z),
    inT T_signed start -> inT T_signed one_after_last ->
    0 <= start -> 0 <= a -> 0 <= n ->
    start + a + n <= one_after_last ->
    let r := mkRange start one_after_last in
    let sub := mkRange (start + a) (start + a + n) in
    slice T_signed debug r a n = Ok sub /\
    size T_signed sub = n /\
    (forall v, contains sub v = true -> contains r v = true) /\
    (forall i, 0 <= i < n ->
               index T_signed debug sub i = index T_signed debug r (a + i)) /\
    slice T_signed debug r 0 (size T_signed r) = Ok r /\
    (forall b m, 0 <= b -> 0 <= m -> b + m <= n ->
                 slice T_signed debug sub b m = slice T_signed debug r (a + b) m).
Proof.
  intros T debug s e a n Hs He Hs0 Ha Hn Hfit r sub.
  pose proof (T_bounds T) as (Hb1 & Hb2 & Hb3).
  assert (He' := He). unfold inT in He'.
  assert (Hslice : forall a' n', 0 <= a' -> 0 <= n' -> s + a' + n' <= e ->
            slice T debug r a' n' = Ok (mkRange (s + a') (s + a' + n'))).
  { intros a' n' Ha' Hn' Hfit'.
    assert (Hu : forall z, 0 <= z <= e -> to_uint z = z).
    { intros z Hz. apply to_uint_small. destruct (inT_nonneg_uint T e He); lia. }
    assert (Ht : forall z, 0 <= z <= e -> to_T T z = z).
    { intros z Hz. apply to_T_inT. unfold inT. lia. }
    unfold slice, slice_assertion, slice_new_start. cbn [m_start m_one_after_last r].
    rewrite !(Hu (s + a')), !(Hu (s + a' + n')), !(Hu e), !(Ht (s + a')), !(Ht (s + a' + n')) by lia.
    assert (Hc : (s + a' + n' <=? e) = true) by (apply Z.leb_le; lia).
    rewrite Hc. cbn [orb]. rewrite BLI_assert_holds. cbn [cbind].
    now rewrite Range_new_ok by lia. }
  assert (Hsize : size T sub = n).
  { unfold sub. rewrite size_diff; unfold inT; lia. }
  split; [apply (Hslice a n); auto|].
  split; [exact Hsize|]. split; [|split; [|split]].
  - intros v Hv. apply contains_iff in Hv. apply contains_iff.
    cbn [m_start m_one_after_last sub r] in *. lia.
  - intros i Hi. unfold index.
    assert (Hr : size T r = e - s) by (apply size_diff; unfold inT; lia).
    rewrite Hsize, Hr. cbn [m_start sub r].
    destruct (Z.ltb_spec i n); [|lia]. destruct (Z.ltb_spec (a + i) (e - s)); [|lia].
    rewrite !BLI_assert_holds. cbn [cbind]. do 2 f_equal. lia.
  - assert (Hr : size T r = e - s) by (apply size_diff; unfold inT; lia).
    rewrite Hr, (Hslice 0 (e - s)) by lia. unfold r. do 2 f_equal; lia.
  - intros b m Hb Hm Hbm.
    rewrite (Hslice (a + b) m) by lia. unfold sub.
    assert (Hsub : forall z, 0 <= z <= e -> to_uint z = z /\ to_T T z = z).
    { intros z Hz. split; [apply to_uint_small; destruct (inT_nonneg_uint T e He); lia|].
      apply to_T_inT. unfold inT. lia. }
    unfold slice, slice_assertion, slice_new_start. cbn [m_start m_one_after_last].
    destruct (Hsub (s + a + b)) as [U1 T1]; [lia|].
    destruct (Hsub (s + a + b + m)) as [U2 T2]; [lia|].
    destruct (Hsub (s + a + n)) as [U3 _]; [lia|].
    rewrite U1, U2, U3, T1, T2.
    assert (Hc : (s + a + b + m <=? s + a + n) = true) by (apply Z.leb_le; lia).
    rewrite Hc. cbn [orb]. rewrite BLI_assert_holds. cbn [cbind].
    rewrite Range_new_ok by lia. do 2 f_equal; lia.
Qed.

Lemma range_slice_subrange_witness :
  inT true 2 /\ inT true 10 /\ 0 <= 2 /\ 0 <= 3 /\ 0 <= 4 /\ 2 + 3 + 4 <= 10 /\
  slice true true (mkRange 2 10) 3 4 = Ok (mkRange 5 9) /\
  slice true true (mkRange 5 9) 1 2 = slice true true (mkRange 2 10) 4 2.
Proof.
  assert (H1 : inT true 2) by (vm_compute; split; discriminate).
  assert (H2 : inT true 10) by (vm_compute; split; discriminate).
  assert (H3 : 0 <= 2) by lia. assert (H4 : 0 <= 3) by lia. assert (H5 : 0 <= 4) by lia.
  assert (H6 : 2 + 3 + 4 <= 10) by lia.
  destruct (range_slice_subrange true true 2 10 3 4 H1 H2 H3 H4 H5 H6)
    as (Hs & _ & _ & _ & _ & Hc).
  repeat (split; [assumption|]).
  apply (Hc 1 2); lia.
Defined.




End RangeAccessFacts.

(** ** The active colour and the names of a palette *)

Module PaletteActiveFacts.
Import Palette PaletteProps PaletteFacts PaletteActive.

Lemma BLI_findlink_findindex (l : list PaletteColor) (c : nat) :
  In c (map self l) ->
  exists node, BLI_findlink l (BLI_findindex l c) = Some node /\ self node = c.
Proof.
  induction l as [|d l IH]; cbn [map In BLI_findindex]; [contradiction|].
  intros Hin. destruct (Nat.eqb_spec (self d) c) as [He|Hne].
  - exists d. split; [reflexivity|exact He].
  - destruct Hin as [Hd|Hin]; [contradiction|].
    destruct (IH Hin) as (node & Hf & Hs).
    assert (Hnot : BLI_findindex l c <> -1).
    { intros H. apply BLI_findindex_none in H. contradiction. }
    destruct (Z.eqb_spec (BLI_findindex l c) (-1)); [contradiction|].
    exists node. split; [|exact Hs].
    pose proof (BLI_findindex_bounds l c) as Hb.
    unfold BLI_findlink in *.
    destruct (Z.ltb_spec (BLI_findindex l c) 0); [lia|].
    destruct (Z.ltb_spec (BLI_findindex l c + 1) 0); [lia|].
    replace (Z.to_nat (BLI_findindex l c + 1)) with (S (Z.to_nat (BLI_findindex l c))) by lia.
    exact Hf.
Qed.

(** X6: [rna_Palette_active_color_set] never changes the list of colours.
    After it is called with a colour of the palette,
    [rna_Palette_active_color_get] returns a [PaletteColor] pointer to that
    colour that inherits the owner of the palette pointer; after it is called
    with a colour that is not in the palette, or with [NULL], the active index
    is [-1] and the getter returns the null pointer. *)
Theorem active_color_set_then_get :
  forall (palette : Palette) (ptr : PointerRNA) (color : nat),
    (forall value, colors (rna_Palette_active_color_set palette value) = colors palette) /\
    (contains_color palette color ->
     exists p,
       rna_Palette_active_color_get ptr (rna_Palette_active_color_set palette (Some color))
       = Some p /\
       ptr_data p = color /\ ptr_type p = Some "PaletteColor"%string /\
       ptr_id_data p = ptr_id_data ptr) /\
    (~ contains_color palette color ->
     active_color (rna_Palette_active_color_set palette (Some color)) = -1 /\
     rna_Palette_active_color_get ptr (rna_Palette_active_color_set palette (Some color))
     = None) /\
    (active_color (rna_Palette_active_color_set palette None) = -1 /\
     rna_Palette_active_color_get ptr (rna_Palette_active_color_set palette None) = None).
Proof.
  intros palette ptr color. split; [intros [c|]; reflexivity|]. split; [|split].
  - intros Hin. destruct (BLI_findlink_findindex _ _ Hin) as (node & Hf & Hs).
    unfold rna_Palette_active_color_get, rna_Palette_active_color_set.
    cbn [colors active_color]. rewrite Hf. eexists. split; [reflexivity|].
    cbn. auto.
  - intros Hnot. apply BLI_findindex_none in Hnot.
    unfold rna_Palette_active_color_get, rna_Palette_active_color_set.
    cbn [colors active_color]. rewrite Hnot. split; reflexivity.
  - split; reflexivity.
Qed.

Lemma BLI_remlink_length (l : list PaletteColor) (c : nat) :
  NoDup (map self l) -> In c (map self l) ->
  S (List.length (BLI_remlink l c)) = List.length l.
Proof.
  induction l as [|d l IH]; cbn [map In]; [contradiction|].
  intros Hnd Hin. inversion Hnd as [|? ? Hnotin Hnd']; subst.
  unfold BLI_remlink in *. cbn [filter].
  destruct (Nat.eqb_spec (self d) c) as [He|Hne]; cbn [negb].
  - subst c. f_equal. clear IH Hin Hnd Hnd'.
    induction l as [|e l IHl]; [reflexivity|]. cbn [filter map] in *.
    destruct (Nat.eqb_spec (self e) (self d)) as [He|Hne]; cbn [negb].
    + elim Hnotin. left. exact He.
    + cbn [List.length]. f_equal. apply IHl. intros H. apply Hnotin. now right.
  - destruct Hin as [Hd|Hin]; [contradiction|]. cbn [List.length]. f_equal. now apply IH.
Qed.

(** X7: given that the kernel removal unlinks the colour, a second
    [rna_Palette_color_remove] with the pointer that the first one has
    invalidated leaves the palette and the pointer as they are and adds one
    error report; making the removed colour the active one sets the index to
    [-1]; and when the nodes have distinct addresses the first call shortens
    the list by one. *)
Theorem palette_color_remove_twice :
  forall (BKE_palette_color_remove : Palette -> nat -> Palette)
         (palette : Palette) (reports : ReportList) (color_ptr : PointerRNA),
    (forall p c, colors (BKE_palette_color_remove p c) = BLI_remlink (colors p) c) ->
    contains_color palette (ptr_data color_ptr) ->
    let first := rna_Palette_color_remove BKE_palette_color_remove palette reports color_ptr in
    let second :=
      rna_Palette_color_remove BKE_palette_color_remove
        (fst (fst first)) (snd (fst first)) (snd first) in
    fst (fst second) = fst (fst first) /\
    snd second = snd first /\
    (exists msg, snd (fst second) = (reports ++ [(RPT_ERROR, msg)])%list) /\
    active_color (rna_Palette_active_color_set (fst (fst first))
                    (Some (ptr_data color_ptr))) = -1 /\
    (NoDup (map self (colors palette)) ->
     S (List.length (colors (fst (fst first)))) = List.length (colors palette)).
Proof.
  intros remove palette reports ptr Hremove Hin first second.
  assert (Hidx : BLI_findindex (colors palette) (ptr_data ptr) <> -1).
  { intros H. apply BLI_findindex_none in H. contradiction. }
  assert (Hfirst : first = (remove palette (ptr_data ptr), reports, RNA_POINTER_INVALIDATE ptr)).
  { unfold first, rna_Palette_color_remove.
    destruct (Z.eqb_spec (BLI_findindex (colors palette) (ptr_data ptr)) (-1)); [contradiction|].
    reflexivity. }
  assert (Hgone : BLI_findindex (colors (remove palette (ptr_data ptr))) (ptr_data ptr) = -1).
  { rewrite Hremove. apply BLI_findindex_remlink. }
  subst second. rewrite Hfirst. cbn [fst snd].
  unfold rna_Palette_color_remove at 1 2 3. cbn [RNA_POINTER_INVALIDATE ptr_data].
  rewrite Hgone. cbn [Z.eqb fst snd].
  split; [reflexivity|]. split; [reflexivity|]. split; [eexists; reflexivity|].
  split.
  - unfold rna_Palette_active_color_set. cbn [active_color]. exact Hgone.
  - intros Hnd. rewrite Hremove. now apply BLI_remlink_length.
Qed.

Lemma palette_color_remove_twice_witness :
  (forall p c, colors (remove_and_clamp p c) = BLI_remlink (colors p) c) /\
  contains_color two_colors 20 /\
  active_color
    (rna_Palette_active_color_set
       (fst (fst (rna_Palette_color_remove remove_and_clamp two_colors []
                    (mkPointerRNA (Some "PaletteColor"%string) (Some "PLSketch"%string) 20))))
       (Some 20%nat)) = -1.
Proof.
  assert (H : forall p c, colors (remove_and_clamp p c) = BLI_remlink (colors p) c)
    by reflexivity.
  assert (Hin : contains_color two_colors 20) by (right; left; reflexivity).
  split; [exact H|]. split; [exact Hin|].
  destruct (palette_color_remove_twice remove_and_clamp two_colors []
              (mkPointerRNA (Some "PaletteColor"%string) (Some "PLSketch"%string) 20) H Hin)
    as (_ & _ & _ & Hact & _).
  exact Hact.
Defined.




End PaletteActiveFacts.

(** ** The passes as runs of emissions *)

Module LanprStepFacts.
Import LANPR LanprProps LanprFacts LanprSteps.

Lemma FrameKey_eqb_eq (a b : FrameKey) : FrameKey_eqb a b = true <-> a = b.
Proof.
  destruct a as [[o1 l1] f1], b as [[o2 l2] f2]. unfold FrameKey_eqb.
  rewrite !andb_true_iff, !Nat.eqb_eq, Z.eqb_eq. split.
  - intros [[-> ->] ->]. reflexivity.
  - intros H. inversion H. auto.
Qed.

Lemma gp_frame_set_same (g : GPStore) (k : FrameKey) (f : bGPDframe) :
  gp_frame (set_frame g k f) k = Some f.
Proof.
  cbn [set_frame gp_frame]. destruct (FrameKey_eqb k k) eqn:E; [reflexivity|].
  assert (H : FrameKey_eqb k k = true) by now apply FrameKey_eqb_eq. congruence.
Qed.

Lemma gp_frame_set_other (g : GPStore) (k k' : FrameKey) (f : bGPDframe) :
  k' <> k -> gp_frame (set_frame g k f) k' = gp_frame g k'.
Proof.
  intros Hne. cbn [set_frame gp_frame]. destruct (FrameKey_eqb k k') eqn:E; [|reflexivity].
  apply FrameKey_eqb_eq in E. congruence.
Qed.

Lemma target_layer_object (g : GPStore) (gpobj : ObjectId) (li : Z) :
  fst (target_layer g gpobj li) = gpobj.
Proof.
  unfold target_layer, BKE_gpencil_layer_get_index, BKE_gpencil_layer_addnew.
  destruct (Nat.eqb (gp_layers g gpobj) 0); [reflexivity|].
  destruct ((0 <=? li) && (li <? Z.of_nat (gp_layers g gpobj))); reflexivity.
Qed.

(** The effect of the emission function on the store. *)
Lemma generate_effect (s : State) ob (k : FrameKey) qb qe m col ty :
  has_buffer s ->
  let s' := lanpr_generate_gpencil_from_chain s ob k qb qe m col ty in
  gp_layers (gp s') = gp_layers (gp s) /\
  (forall k', k' <> k -> gp_frame (gp s') k' = gp_frame (gp s) k') /\
  (software s = false -> s' = s) /\
  (software s = true ->
   gp_frame (gp s') k =
   Some (mkFrame (strokes_at s k ++
                  map (stroke_of m) (filter (accepts ob qb qe col ty) (buffer_chains s)))
                 (cleared_at s k))).
Proof.
  intros Hb. unfold has_buffer in Hb. cbv zeta.
  unfold lanpr_generate_gpencil_from_chain, software, strokes_at, cleared_at, buffer_chains.
  destruct (render_buffer_shared s) as [rb|]; [clear Hb|congruence].
  destruct (is_software (dg_master_mode (depsgraph s))); cbn [negb].
  - rewrite emit_chains_walk. cbn [gp gp_layers set_frame].
    split; [reflexivity|]. split; [|split; [discriminate|]].
    + intros k' Hk'. apply (gp_frame_set_other (gp s)). exact Hk'.
    + intros _. rewrite (gp_frame_set_same (gp s)).
      destruct (gp_frame (gp s) k); reflexivity.
  - split; [reflexivity|]. split; [reflexivity|]. split; [reflexivity|discriminate].
Qed.

(** What one emission does to the store: only the target frame changes; it
    is left alone when it has strokes and overwriting is off; otherwise it is
    flagged, and holds the strokes it had if it was flagged before, followed
    by the strokes of the emitted chains. *)
Lemma emit_to_target_effect (s s' : State) gpobj li frame ob qb qe m col ty :
  has_buffer s ->
  emit_to_target s gpobj li frame ob qb qe m col ty = Some s' ->
  let k := target_frame s gpobj li frame in
  (forall k', k' <> k -> gp_frame (gp s') k' = gp_frame (gp s) k') /\
  (forall o, o <> gpobj -> gp_layers (gp s') o = gp_layers (gp s) o) /\
  (if protected s k
   then gp_frame (gp s') k = gp_frame (gp s) k
   else gp_frame (gp s') k = Some (mkFrame (emitted_strokes s k ob qb qe m col ty) true)).
Proof.
  intros Hb He. cbv zeta.
  unfold emit_to_target in He.
  unfold target_frame, target_layer.
  set (gl := match BKE_gpencil_layer_get_index (gp s) gpobj li with
             | Some gpl => (gp s, gpl)
             | None => BKE_gpencil_layer_addnew (gp s) gpobj
             end) in He.
  assert (Hgl : gp_frame (fst gl) = gp_frame (gp s) /\
                (forall o, o <> gpobj -> gp_layers (fst gl) o = gp_layers (gp s) o) /\
                snd gl = match BKE_gpencil_layer_get_index (gp s) gpobj li with
                         | Some gpl => gpl
                         | None => snd (BKE_gpencil_layer_addnew (gp s) gpobj)
                         end).
  { subst gl. destruct (BKE_gpencil_layer_get_index (gp s) gpobj li).
    - cbn [fst snd]. auto.
    - unfold BKE_gpencil_layer_addnew. cbn [fst snd gp_frame gp_layers].
      split; [reflexivity|]. split; [|reflexivity].
      intros o Ho. destruct (Nat.eqb_spec o gpobj); [contradiction|reflexivity]. }
  destruct Hgl as (Hfr1 & Hly1 & Hkey). rewrite <- Hkey. clear Hkey.
  destruct gl as [g1 gpl]. cbn [fst snd] in *.
  set (k := (gpl, frame)).
  unfold BKE_gpencil_layer_getframe in He. fold k in He.
  unfold protected, emitted_strokes, strokes_at, cleared_at, overwrite, software, buffer_chains.
  rewrite <- Hfr1.
  assert (Hgen : forall s3 f,
             has_buffer s3 -> gp_frame (gp s3) k = Some f ->
             render_buffer_shared s3 = render_buffer_shared s ->
             depsgraph s3 = depsgraph s ->
             let s4 := lanpr_generate_gpencil_from_chain s3 ob k qb qe m col ty in
             gp_layers (gp s4) = gp_layers (gp s3) /\
             (forall k', k' <> k -> gp_frame (gp s4) k' = gp_frame (gp s3) k') /\
             gp_frame (gp s4) k =
             Some (mkFrame (strokes f ++
                            (if is_software (dg_master_mode (depsgraph s))
                             then map (stroke_of m)
                                    (filter (accepts ob qb qe col ty)
                                       match render_buffer_shared s with
                                       | Some rb => chains rb
                                       | None => []
                                       end)
                             else []))
                     (flag_lanpr_cleared f))).
  { intros s3 f Hb3 Hf Hrb Hdg.
    destruct (generate_effect s3 ob k qb qe m col ty Hb3) as (Hl & Ho & Hns & Hsw).
    cbv zeta. split; [exact Hl|]. split; [exact Ho|].
    unfold software, strokes_at, cleared_at, buffer_chains in Hns, Hsw.
    rewrite Hf, Hrb, Hdg in Hsw. rewrite Hdg in Hns.
    destruct (is_software (dg_master_mode (depsgraph s))).
    - now apply Hsw.
    - rewrite (Hns eq_refl), Hf, app_nil_r. now destruct f. }
  assert (Hb' : forall g, has_buffer (with_gp s g)) by (intros g; exact Hb).
  destruct (gp_frame g1 k) as [f|] eqn:Hk.
  - (* the frame exists *)
    assert (Hgo :
      forall s',
        lanpr_generate_gpencil_from_chain
          (if negb (flag_lanpr_cleared f)
           then with_gp (with_gp s g1)
                  (set_frame g1 k (mkFrame (strokes (BKE_gpencil_free_strokes f)) true))
           else with_gp s g1) ob k qb qe m col ty = s' ->
        (forall k', k' <> k -> gp_frame (gp s') k' = gp_frame g1 k') /\
        (forall o, o <> gpobj -> gp_layers (gp s') o = gp_layers (gp s) o) /\
        gp_frame (gp s') k =
        Some (mkFrame ((if flag_lanpr_cleared f then strokes f else []) ++
                       (if is_software (dg_master_mode (depsgraph s))
                        then map (stroke_of m)
                               (filter (accepts ob qb qe col ty)
                                  match render_buffer_shared s with
                                  | Some rb => chains rb
                                  | None => []
                                  end)
                        else [])) true)).
    { intros s'' <-. destruct (flag_lanpr_cleared f) eqn:Hfl; cbn [negb].
      - destruct (Hgen (with_gp s g1) f (Hb' _) Hk eq_refl eq_refl) as (Hl & Ho & Hf).
        cbv zeta in Hl, Ho, Hf. rewrite Hl. cbn [with_gp gp] in *.
        split; [exact Ho|]. split; [exact Hly1|]. rewrite Hf, Hfl. reflexivity.
      - destruct (Hgen (with_gp (with_gp s g1)
                          (set_frame g1 k (mkFrame (strokes (BKE_gpencil_free_strokes f)) true)))
                    (mkFrame [] true) (Hb' _)) as (Hl & Ho & Hf);
          [apply gp_frame_set_same|reflexivity|reflexivity|].
        cbv zeta in Hl, Ho, Hf. rewrite Hl. cbn [with_gp gp] in *.
        split; [|split; [exact Hly1|exact Hf]].
        intros k' Hk'. rewrite (Ho k' Hk'). now apply gp_frame_set_other. }
    destruct (strokes f) as [|st sts] eqn:Hst.
    + rewrite andb_false_r. inversion He as [He']. rewrite He'.
      destruct (Hgo s' He') as (H1 & H2 & H3). repeat split; assumption.
    + cbn [with_gp render_buffer_shared] in He. unfold has_buffer in Hb.
      destruct (render_buffer_shared s) as [rb|] eqn:Hrb; [|congruence].
      destruct (rb_scene_gpencil_overwrite rb); cbn [negb andb] in *.
      * inversion He as [He']. rewrite He'.
        destruct (Hgo s' He') as (H1 & H2 & H3). repeat split; assumption.
      * inversion He; subst s'. cbn [with_gp gp]. repeat split; auto.
  - (* the frame is added *)
    cbn [strokes] in He. rewrite andb_false_r. inversion He as [He']. rewrite He'. clear He.
    cbn [flag_lanpr_cleared negb BKE_gpencil_free_strokes strokes] in He'.
    destruct (Hgen (with_gp (with_gp s (set_frame g1 k (mkFrame [] false)))
                      (set_frame (set_frame g1 k (mkFrame [] false)) k (mkFrame [] true)))
                (mkFrame [] true) (Hb' _)) as (Hl & Ho & Hf);
      [apply gp_frame_set_same|reflexivity|reflexivity|].
    cbv zeta in Hl, Ho, Hf. rewrite He' in Hl, Ho, Hf. rewrite Hl.
    cbn [with_gp gp] in *.
    split; [|split; [exact Hly1|exact Hf]].
    intros k' Hk'. rewrite (Ho k' Hk').
    rewrite !gp_frame_set_other by exact Hk'. reflexivity.
Qed.

Lemma steps_trans allowed frame (a b c : State) :
  emission_steps allowed frame a b -> emission_steps allowed frame b c ->
  emission_steps allowed frame a c.
Proof.
  induction 1 as [|s s1 s' gpobj li ob qb qe m col ty Ha Hb He _ IH]; [auto|].
  intros Hc. eapply steps_emit; eauto.
Qed.

Lemma emit_to_target_has_buffer (s s' : State) gpobj li frame ob qb qe m col ty :
  has_buffer s -> emit_to_target s gpobj li frame ob qb qe m col ty = Some s' ->
  has_buffer s'.
Proof.
  intros Hb He.
  destruct (Emitter_emit_to_target gpobj li frame ob qb qe m col ty s Hb)
    as (s'' & em & He' & Hem).
  rewrite He in He'. inversion He'; subst. eapply emits_has_buffer; eauto.
Qed.

Lemma steps_has_buffer allowed frame (s s' : State) :
  has_buffer s -> emission_steps allowed frame s s' -> has_buffer s'.
Proof.
  intros Hb H. induction H as [|s s1 s' gpobj li ob qb qe m col ty Ha _ He _ IH]; [auto|].
  apply IH. eapply emit_to_target_has_buffer; eauto.
Qed.

Lemma Stepper_ret allowed frame : Stepper allowed frame Some.
Proof. intros s s' _ H. inversion H; subst. constructor. Qed.

Lemma Stepper_emit_to_target allowed frame gpobj li ob qb qe m col ty :
  allowed gpobj ->
  Stepper allowed frame (fun s => emit_to_target s gpobj li frame ob qb qe m col ty).
Proof.
  intros Ha s s' Hb He. eapply steps_emit; eauto. constructor.
Qed.

Lemma Stepper_for_each {A} allowed frame (step : A -> State -> option State) (l : list A) :
  (forall a, In a l -> Stepper allowed frame (step a)) ->
  Stepper allowed frame (for_each step l).
Proof.
  induction l as [|a l IH]; intros Hstep s s' Hb He; cbn [for_each] in He.
  - inversion He; subst. constructor.
  - destruct (step a s) as [s1|] eqn:H1; [|discriminate].
    pose proof (Hstep a (or_introl eq_refl) s s1 Hb H1) as Hs1.
    eapply steps_trans; [exact Hs1|].
    apply (IH (fun b Hb' => Hstep b (or_intror Hb'))); [|exact He].
    eapply steps_has_buffer; eauto.
Qed.

Lemma Stepper_update_modifier frame target_only ob md :
  Stepper (not_excluded target_only) frame (update_modifier frame target_only ob md).
Proof.
  unfold update_modifier. destruct md as [flmd|]; [|apply Stepper_ret].
  destruct (flmd_target flmd) as [gpobj|]; [|apply Stepper_ret].
  destruct (ObjectType_eqb (ref_type gpobj) OB_GPENCIL); [|apply Stepper_ret].
  destruct (target_excluded target_only (ref_id gpobj)) eqn:Hex; [apply Stepper_ret|].
  apply Stepper_emit_to_target. exact Hex.
Qed.

Lemma Stepper_update_object frame target_only ob :
  Stepper (not_excluded target_only) frame (update_object frame target_only ob).
Proof.
  unfold update_object. apply Stepper_for_each.
  intros md _. apply Stepper_update_modifier.
Qed.

Lemma Stepper_recursive col frame source_only target_only :
  Stepper (not_excluded target_only) frame
    (lanpr_update_gp_strokes_recursive col frame source_only target_only).
Proof.
  induction col as [g ch l IH] using Collection_ind'.
  destruct source_only as [so|].
  - intros s s' Hs He. cbn [lanpr_update_gp_strokes_recursive] in He.
    now apply (Stepper_update_object frame target_only so).
  - intros s s' Hs He. cbn [lanpr_update_gp_strokes_recursive] in He.
    destruct (for_each (update_object frame target_only) g s) as [s1|] eqn:H1;
      [|discriminate].
    pose proof (Stepper_for_each (not_excluded target_only) frame
                  (update_object frame target_only) g
                  (fun a _ => Stepper_update_object frame target_only a) s s1 Hs H1) as Hs1.
    eapply steps_trans; [exact Hs1|].
    pose proof (steps_has_buffer _ _ _ _ Hs Hs1) as Hb1.
    clear H1 Hs1 Hs. revert s1 Hb1 He.
    induction IH as [|cc ch Hcc _ IHch]; intros s1 Hb1 He.
    + inversion He; subst. constructor.
    + destruct (lanpr_update_gp_strokes_recursive cc frame None target_only s1)
        as [sa|] eqn:Ha; [|discriminate].
      pose proof (Hcc s1 sa Hb1 Ha) as Hsa.
      eapply steps_trans; [exact Hsa|].
      apply IHch; [|exact He]. eapply steps_has_buffer; eauto.
Qed.

Lemma Stepper_update_collection_here col frame target_only :
  Stepper (not_excluded target_only) frame (update_collection_here col frame target_only).
Proof.
  unfold update_collection_here.
  destruct (target (lanpr col)) as [gpobj|]; [|apply Stepper_ret].
  destruct (negb (is_include (usage (lanpr col)))); [apply Stepper_ret|].
  destruct (target_excluded target_only (ref_id gpobj)) eqn:Hex; [apply Stepper_ret|].
  apply Stepper_emit_to_target. exact Hex.
Qed.

Lemma Stepper_collection col frame this_only target_only :
  Stepper (not_excluded target_only) frame
    (lanpr_update_gp_strokes_collection col frame this_only target_only).
Proof.
  induction col as [g ch l IH] using Collection_ind'.
  intros s s' Hs He. cbn [lanpr_update_gp_strokes_collection] in He.
  assert (Hd : forall s1,
             (if this_only then Some s
              else
                (fix over_children (l : list Collection) (s : State) : option State :=
                   match l with
                   | [] => Some s
                   | cc :: l' =>
                       match lanpr_update_gp_strokes_collection cc frame this_only
                               target_only s with
                       | Some s' => over_children l' s'
                       | None => None
                       end
                   end) ch s) = Some s1 ->
             emission_steps (not_excluded target_only) frame s s1).
  { destruct this_only.
    - intros s1 H. inversion H; subst. constructor.
    - clear He. revert s Hs. induction IH as [|cc ch Hcc _ IHch]; intros s Hs s1 H.
      + inversion H; subst. constructor.
      + destruct (lanpr_update_gp_strokes_collection cc frame false target_only s)
          as [sa|] eqn:Ha; [|discriminate].
        pose proof (Hcc s sa Hs Ha) as Hsa.
        eapply steps_trans; [exact Hsa|].
        apply IHch; [|exact H]. eapply steps_has_buffer; eauto. }
  match type of He with
  | match ?d with _ => _ end = _ => destruct d as [s1|] eqn:Hd1; [|discriminate]
  end.
  pose proof (Hd s1 eq_refl) as Hs1.
  eapply steps_trans; [exact Hs1|].
  apply (Stepper_update_collection_here (mkCollection g ch l) frame target_only);
    [|exact He].
  eapply steps_has_buffer; eauto.
Qed.

Section Engine.

Variable feature_lines : Depsgraph -> list LANPR_RenderLineChain.

Local Abbreviation compute_if_needed := (compute_if_needed feature_lines).
Local Abbreviation update_gp_exec := (update_gp_exec feature_lines).
Local Abbreviation bake_frame := (bake_frame feature_lines).

(** A single-frame operator is the computation if needed, the clearing of
    the marks, a run of emissions at the current frame, and the reset of the
    frame flags. *)
Lemma update_gp_exec_steps (C : bContext) source_only target_only (s s' : State) :
  update_gp_exec C source_only target_only s = Some s' ->
  exists s4,
    emission_steps (not_excluded target_only) (cfra (CTX_data_scene C))
      (lanpr_chain_clear_picked_flag (compute_if_needed s (cfra (CTX_data_scene C)))) s4 /\
    s' = lanpr_clear_gp_lanpr_flags s4 (cfra (CTX_data_scene C)).
Proof.
  unfold LANPR.update_gp_exec. set (frame := cfra (CTX_data_scene C)).
  destruct (compute_if_needed_trace feature_lines s frame) as [_ Hb1].
  destruct (clear_picked_flag_spec _ Hb1) as (Hb2 & _ & _).
  destruct (lanpr_update_gp_strokes_recursive (master_collection (CTX_data_scene C)) frame
              source_only target_only
              (lanpr_chain_clear_picked_flag (compute_if_needed s frame)))
    as [s3|] eqn:H3; cbn [option_bind]; [|discriminate].
  pose proof (Stepper_recursive _ _ _ _ _ _ Hb2 H3) as Hs3.
  destruct (lanpr_update_gp_strokes_collection (master_collection (CTX_data_scene C)) frame
              false target_only s3) as [s4|] eqn:H4; cbn [option_bind]; [|discriminate].
  pose proof (Stepper_collection _ _ _ _ _ _ (steps_has_buffer _ _ _ _ Hb2 Hs3) H4) as Hs4.
  intros H. inversion H; subst s'. exists s4. split; [|reflexivity].
  eapply steps_trans; eauto.
Qed.

(** One round of the bake loop is the evaluation at [frame], the
    computation, the clearing of the marks and a run of emissions. *)
Lemma bake_frame_steps (C : bContext) (frame : Z) (s s' : State) :
  bake_frame C frame s = Some s' ->
  emission_steps (not_excluded None) frame
    (lanpr_chain_clear_picked_flag
       (lanpr_compute_feature_lines_internal feature_lines
          (DEG_evaluate_on_framechange s frame))) s'.
Proof.
  unfold LANPR.bake_frame.
  set (s1 := lanpr_compute_feature_lines_internal feature_lines
               (DEG_evaluate_on_framechange s frame)).
  assert (Hb1 : has_buffer s1) by (unfold has_buffer; discriminate).
  destruct (clear_picked_flag_spec _ Hb1) as (Hb2 & _ & _).
  destruct (lanpr_update_gp_strokes_recursive (master_collection (CTX_data_scene C)) frame
              None None (lanpr_chain_clear_picked_flag s1))
    as [s3|] eqn:H3; cbn [option_bind]; [|discriminate].
  pose proof (Stepper_recursive _ _ _ _ _ _ Hb2 H3) as Hs3.
  intros H4.
  pose proof (Stepper_collection _ _ _ _ _ _ (steps_has_buffer _ _ _ _ Hb2 Hs3) H4) as Hs4.
  eapply steps_trans; eauto.
Qed.

End Engine.

End LanprStepFacts.

Module LanprInvariants.
Import LANPR LanprProps LanprFacts LanprSteps LanprStepFacts.

Lemma emit_to_target_static (s s' : State) gpobj li frame ob qb qe m col ty :
  has_buffer s ->
  emit_to_target s gpobj li frame ob qb qe m col ty = Some s' ->
  depsgraph s' = depsgraph s /\
  overwrite s' = overwrite s /\
  (software s = false ->
   trace s' = trace s /\ render_buffer_shared s' = render_buffer_shared s).
Proof.
  intros Hb He.
  destruct (Emitter_emit_to_target gpobj li frame ob qb qe m col ty s Hb)
    as (s'' & em & He' & Hem).
  rewrite He in He'. inversion He'; subst s''. clear He'.
  destruct Hem as (rb & rb' & Hrb & Hrb' & Hdg & _ & Hov & _).
  split; [exact Hdg|]. split; [unfold overwrite; now rewrite Hrb, Hrb'|].
  intros Hsw. unfold emit_to_target in He.
  destruct (match BKE_gpencil_layer_get_index (gp s) gpobj li with
            | Some gpl => (gp s, gpl)
            | None => BKE_gpencil_layer_addnew (gp s) gpobj
            end) as [g1 gpl].
  destruct (BKE_gpencil_layer_getframe g1 gpl frame) as [[g2 k] f].
  assert (Hgen : forall s3, has_buffer s3 -> software s3 = false ->
                   lanpr_generate_gpencil_from_chain s3 ob k qb qe m col ty = s3).
  { intros s3 Hb3 Hs3. now apply (generate_effect s3 ob k qb qe m col ty Hb3). }
  assert (Hgo : forall s1,
             Some (lanpr_generate_gpencil_from_chain
                     (if negb (flag_lanpr_cleared f)
                      then with_gp (with_gp s g2)
                             (set_frame g2 k
                                (mkFrame (strokes (BKE_gpencil_free_strokes f)) true))
                      else with_gp s g2) ob k qb qe m col ty) = Some s1 ->
             trace s1 = trace s /\ render_buffer_shared s1 = render_buffer_shared s).
  { intros s1 H. inversion H as [H1]. clear H.
    destruct (negb (flag_lanpr_cleared f)); rewrite Hgen; try exact Hb; try exact Hsw;
      split; reflexivity. }
  destruct (strokes f); [now apply Hgo|].
  destruct (render_buffer_shared (with_gp s g2)) as [rb2|]; [|discriminate].
  destruct (negb (rb_scene_gpencil_overwrite rb2)); [|now apply Hgo].
  inversion He; subst s'. split; reflexivity.
Qed.

(** One emission either leaves a frame as it is, or the frame is its target,
    is not protected, and ends flagged with the emitted strokes. *)
Lemma emit_to_target_frame (s s' : State) gpobj li frame ob qb qe m col ty (k : FrameKey) :
  has_buffer s ->
  emit_to_target s gpobj li frame ob qb qe m col ty = Some s' ->
  gp_frame (gp s') k = gp_frame (gp s) k \/
  (k = target_frame s gpobj li frame /\ protected s k = false /\
   gp_frame (gp s') k = Some (mkFrame (emitted_strokes s k ob qb qe m col ty) true)).
Proof.
  intros Hb He.
  destruct (emit_to_target_effect s s' gpobj li frame ob qb qe m col ty Hb He)
    as (Ho & _ & Hk).
  destruct (FrameKey_eqb k (target_frame s gpobj li frame)) eqn:E.
  - apply FrameKey_eqb_eq in E. subst k.
    destruct (protected s (target_frame s gpobj li frame)); [left; exact Hk|].
    right. auto.
  - left. apply Ho. intros ->.
    assert (H : FrameKey_eqb (target_frame s gpobj li frame) (target_frame s gpobj li frame)
                = true) by now apply FrameKey_eqb_eq.
    congruence.
Qed.

Section Steps.

Variable allowed : ObjectId -> Prop.
Variable frame : Z.

Lemma steps_static (s s' : State) :
  has_buffer s -> emission_steps allowed frame s s' ->
  depsgraph s' = depsgraph s /\
  overwrite s' = overwrite s /\
  (software s = false ->
   trace s' = trace s /\ render_buffer_shared s' = render_buffer_shared s).
Proof.
  intros Hb H. induction H as [|s s1 s' gpobj li ob qb qe m col ty Ha _ He _ IH].
  - auto.
  - destruct (emit_to_target_static _ _ _ _ _ _ _ _ _ _ _ Hb He) as (Hd & Ho & Hn).
    destruct (IH (emit_to_target_has_buffer _ _ _ _ _ _ _ _ _ _ _ Hb He)) as (Hd' & Ho' & Hn').
    split; [congruence|]. split; [congruence|].
    intros Hsw. destruct (Hn Hsw) as [Ht Hr].
    assert (Hsw1 : software s1 = false) by (unfold software in *; now rewrite Hd).
    destruct (Hn' Hsw1) as [Ht' Hr']. split; congruence.
Qed.

(** Emissions write only to frames at [frame] of allowed targets. *)
Lemma steps_elsewhere (s s' : State) :
  has_buffer s -> emission_steps allowed frame s s' ->
  forall o l fr, ~ allowed o \/ fr <> frame ->
                 gp_frame (gp s') (o, l, fr) = gp_frame (gp s) (o, l, fr).
Proof.
  intros Hb H. induction H as [|s s1 s' gpobj li ob qb qe m col ty Ha _ He _ IH];
    intros o l fr Hout; [reflexivity|].
  rewrite (IH (emit_to_target_has_buffer _ _ _ _ _ _ _ _ _ _ _ Hb He) o l fr Hout).
  destruct (emit_to_target_frame _ _ _ _ _ _ _ _ _ _ _ (o, l, fr) Hb He)
    as [Hsame|(Hk & _)]; [exact Hsame|].
  exfalso. unfold target_frame in Hk.
  pose proof (target_layer_object (gp s) gpobj li) as Hobj.
  inversion Hk as [[Hl Hf]]. rewrite <- Hl in Hobj. cbn [fst] in Hobj.
  destruct Hout as [Hno|Hfr]; [apply Hno; now subst o|contradiction].
Qed.

Lemma steps_layers (s s' : State) :
  has_buffer s -> emission_steps allowed frame s s' ->
  forall o, ~ allowed o -> gp_layers (gp s') o = gp_layers (gp s) o.
Proof.
  intros Hb H. induction H as [|s s1 s' gpobj li ob qb qe m col ty Ha _ He _ IH];
    intros o Hout; [reflexivity|].
  rewrite (IH (emit_to_target_has_buffer _ _ _ _ _ _ _ _ _ _ _ Hb He) o Hout).
  destruct (emit_to_target_effect s s1 gpobj li frame ob qb qe m col ty Hb He)
    as (_ & Hl & _).
  apply Hl. intros ->. contradiction.
Qed.

(** With overwriting off, a frame that has strokes is left as it is. *)
Lemma steps_protect (s s' : State) :
  has_buffer s -> overwrite s = false -> emission_steps allowed frame s s' ->
  forall k, strokes_at s k <> [] -> gp_frame (gp s') k = gp_frame (gp s) k.
Proof.
  intros Hb Hov H. induction H as [|s s1 s' gpobj li ob qb qe m col ty Ha _ He _ IH];
    intros k Hk; [reflexivity|].
  assert (Hsame : gp_frame (gp s1) k = gp_frame (gp s) k).
  { destruct (emit_to_target_frame _ _ _ _ _ _ _ _ _ _ _ k Hb He)
      as [Hsame|(_ & Hp & _)]; [exact Hsame|].
    exfalso. unfold protected in Hp. rewrite Hov in Hp. cbn [negb andb] in Hp.
    destruct (strokes_at s k); [now apply Hk|discriminate]. }
  destruct (emit_to_target_static _ _ _ _ _ _ _ _ _ _ _ Hb He) as (_ & Ho & _).
  rewrite <- Hsame. apply IH.
  - eapply emit_to_target_has_buffer; eauto.
  - congruence.
  - unfold strokes_at in *. now rewrite Hsame.
Qed.

(** A frame that emissions have changed carries the flag. *)
Lemma steps_flagged (s s' : State) :
  has_buffer s -> emission_steps allowed frame s s' ->
  forall k, gp_frame (gp s') k = gp_frame (gp s) k \/ cleared_at s' k = true.
Proof.
  intros Hb H. induction H as [|s s1 s' gpobj li ob qb qe m col ty Ha _ He _ IH];
    intros k; [now left|].
  destruct (IH (emit_to_target_has_buffer _ _ _ _ _ _ _ _ _ _ _ Hb He) k) as [Hs|Hc];
    [|now right].
  destruct (emit_to_target_frame _ _ _ _ _ _ _ _ _ _ _ k Hb He)
    as [Hsame|(_ & _ & Hf)]; [left; congruence|].
  right. unfold cleared_at. rewrite Hs, Hf. reflexivity.
Qed.

(** A flagged frame stays flagged and keeps its strokes: emissions append. *)
Lemma steps_append (s s' : State) :
  has_buffer s -> emission_steps allowed frame s s' ->
  forall k, cleared_at s k = true ->
            cleared_at s' k = true /\
            exists extra, strokes_at s' k = strokes_at s k ++ extra.
Proof.
  intros Hb H. induction H as [|s s1 s' gpobj li ob qb qe m col ty Ha _ He _ IH];
    intros k Hc.
  - split; [exact Hc|]. exists []. now rewrite app_nil_r.
  - assert (H1 : cleared_at s1 k = true /\
                 exists extra, strokes_at s1 k = strokes_at s k ++ extra).
    { destruct (emit_to_target_frame _ _ _ _ _ _ _ _ _ _ _ k Hb He)
        as [Hsame|(_ & _ & Hf)].
      - unfold cleared_at, strokes_at in *. rewrite Hsame. split; [exact Hc|].
        exists []. now rewrite app_nil_r.
      - unfold cleared_at at 1. unfold strokes_at at 1. rewrite Hf. cbn [strokes flag_lanpr_cleared].
        split; [reflexivity|]. unfold emitted_strokes. rewrite Hc. eauto. }
    destruct H1 as [Hc1 [e1 He1]].
    destruct (IH (emit_to_target_has_buffer _ _ _ _ _ _ _ _ _ _ _ Hb He) k Hc1)
      as [Hc' [e2 He2]].
    split; [exact Hc'|]. exists (e1 ++ e2). rewrite He2, He1, app_assoc. reflexivity.
Qed.

(** Outside the software mode, emissions add no stroke: a frame keeps its
    strokes or loses them all. *)
Lemma steps_nonsoftware (s s' : State) :
  has_buffer s -> software s = false -> emission_steps allowed frame s s' ->
  forall k, strokes_at s' k = strokes_at s k \/ strokes_at s' k = [].
Proof.
  intros Hb Hsw H. induction H as [|s s1 s' gpobj li ob qb qe m col ty Ha _ He _ IH];
    intros k; [now left|].
  destruct (emit_to_target_static _ _ _ _ _ _ _ _ _ _ _ Hb He) as (Hd & _ & _).
  assert (Hsw1 : software s1 = false) by (unfold software in *; now rewrite Hd).
  destruct (IH (emit_to_target_has_buffer _ _ _ _ _ _ _ _ _ _ _ Hb He) Hsw1 k) as [Hs|Hn];
    [|now right].
  rewrite Hs.
  destruct (emit_to_target_frame _ _ _ _ _ _ _ _ _ _ _ k Hb He)
    as [Hsame|(_ & _ & Hf)].
  - left. unfold strokes_at. now rewrite Hsame.
  - unfold strokes_at at 1 3. rewrite Hf. cbn [strokes]. unfold emitted_strokes.
    rewrite Hsw, app_nil_r. destruct (cleared_at s k); [left|right]; reflexivity.
Qed.

End Steps.

(** The reset of the frame flags keeps strokes, layers and every frame at
    another frame number. *)
Lemma clear_flags_strokes (s : State) (frame : Z) (k : FrameKey) :
  strokes_at (lanpr_clear_gp_lanpr_flags s frame) k = strokes_at s k.
Proof.
  unfold strokes_at, lanpr_clear_gp_lanpr_flags. cbn [with_gp gp gp_frame].
  destruct k as [[o l] fr]. destruct (gp_frame (gp s) (o, l, fr)) as [f|]; [|reflexivity].
  match goal with |- context [if ?c then _ else _] => destruct c end; reflexivity.
Qed.

Lemma clear_flags_other_frame (s : State) (frame : Z) (o : ObjectId) (l : nat) (fr : Z) :
  fr <> frame ->
  gp_frame (gp (lanpr_clear_gp_lanpr_flags s frame)) (o, l, fr) = gp_frame (gp s) (o, l, fr).
Proof.
  intros Hne. unfold lanpr_clear_gp_lanpr_flags. cbn [with_gp gp gp_frame].
  destruct (gp_frame (gp s) (o, l, fr)) as [f|]; [|reflexivity].
  destruct (Z.eqb_spec fr frame); [contradiction|]. now rewrite andb_false_r.
Qed.

Lemma clear_flags_evaluated (s : State) (frame : Z) (o : ObjectId) (l : nat) :
  evaluated_gpencil s o = true ->
  cleared_at (lanpr_clear_gp_lanpr_flags s frame) (o, l, frame) = false.
Proof.
  intros Hev. unfold cleared_at, lanpr_clear_gp_lanpr_flags. cbn [with_gp gp gp_frame].
  destruct (gp_frame (gp s) (o, l, frame)) as [f|]; [|reflexivity].
  unfold evaluated_gpencil in Hev. rewrite Hev, Z.eqb_refl. reflexivity.
Qed.

Lemma clear_flags_not_evaluated (s : State) (frame : Z) (o : ObjectId) (l : nat) (fr : Z) :
  evaluated_gpencil s o = false ->
  gp_frame (gp (lanpr_clear_gp_lanpr_flags s frame)) (o, l, fr) = gp_frame (gp s) (o, l, fr).
Proof.
  intros Hev. unfold lanpr_clear_gp_lanpr_flags. cbn [with_gp gp gp_frame].
  destruct (gp_frame (gp s) (o, l, fr)) as [f|]; [|reflexivity].
  unfold evaluated_gpencil in Hev. rewrite Hev. reflexivity.
Qed.

End LanprInvariants.

(** ** What the operators leave behind *)

Module LanprOperatorFacts.
Import LANPR LanprProps LanprFacts LanprSteps LanprStepFacts LanprInvariants LanprScenes.

Lemma not_excluded_none (o : ObjectId) : not_excluded None o.
Proof. reflexivity. Qed.

Lemma not_excluded_some (t o : ObjectId) : not_excluded (Some t) o <-> t = o.
Proof.
  unfold not_excluded, target_excluded. rewrite negb_false_iff. apply Nat.eqb_eq.
Qed.

Lemma steps_cached allowed frame (s s' : State) :
  has_buffer s -> emission_steps allowed frame s s' ->
  forall f, cached_for s f -> cached_for s' f.
Proof.
  intros Hb H. induction H as [|s s1 s' gpobj li ob qb qe m col ty Ha _ He _ IH];
    intros f Hc; [exact Hc|].
  destruct (Emitter_emit_to_target gpobj li frame ob qb qe m col ty s Hb)
    as (s'' & em & He' & Hem).
  rewrite He in He'. inversion He'; subst s''. clear He'.
  apply IH; [eapply emits_has_buffer; eauto|].
  destruct Hem as (rb & rb' & Hrb & Hrb' & _ & Hcf & _).
  destruct Hc as (rb0 & Hrb0 & Hf). exists rb'. split; [exact Hrb'|]. congruence.
Qed.

Section Engine.

Variable feature_lines : Depsgraph -> list LANPR_RenderLineChain.

Local Abbreviation compute_if_needed := (compute_if_needed feature_lines).
Local Abbreviation update_gp_exec := (update_gp_exec feature_lines).
Local Abbreviation bake_frame := (bake_frame feature_lines).
Local Abbreviation update_operators := (update_operators feature_lines).
Local Abbreviation external := (ED_lanpr_update_data_for_external feature_lines).

(** The state in which the passes of a single-frame operator start. *)
Lemma prelude_facts (s : State) (frame : Z) :
  let s2 := lanpr_chain_clear_picked_flag (compute_if_needed s frame) in
  has_buffer s2 /\
  gp s2 = gp s /\
  depsgraph s2 = depsgraph s /\
  trace s2 = trace s ++ computed s frame ++ [EvClearPicked] /\
  overwrite s2 =
    (if absent_or_stale s frame then dg_gpencil_overwrite (depsgraph s) else overwrite s) /\
  cached_for s2 (if absent_or_stale s frame then dg_cfra (depsgraph s) else frame).
Proof.
  cbv zeta. unfold LANPR.compute_if_needed, computed, overwrite, cached_for, has_buffer.
  destruct (absent_or_stale s frame) eqn:Ha.
  - cbn. split; [discriminate|]. rewrite <- app_assoc.
    repeat split; eauto.
  - apply absent_or_stale_false in Ha. destruct Ha as (rb & Hrb & Hf).
    unfold lanpr_chain_clear_picked_flag.
    cbn [render_buffer_shared gp depsgraph trace]. rewrite Hrb.
    cbn [rb_scene_gpencil_overwrite cached_for_frame app].
    split; [discriminate|]. repeat split; eauto.
Qed.

Lemma update_operators_shape (C : bContext) (op : State -> option State) :
  In op (update_operators C) ->
  exists source_only target_only, op = update_gp_exec C source_only target_only.
Proof.
  intros [H|[H|[H|[]]]]; subst op.
  - exists None, None. reflexivity.
  - exists None, (Some (ob_id (CTX_data_active_object C))). reflexivity.
  - exists (Some (CTX_data_active_object C)), None. reflexivity.
Qed.

(** A single-frame operator returns; its passes are a run of emissions. *)
Lemma update_gp_exec_total (C : bContext) source_only target_only (s : State) :
  exists s4,
    update_gp_exec C source_only target_only s
    = Some (lanpr_clear_gp_lanpr_flags s4 (cfra (CTX_data_scene C))) /\
    emission_steps (not_excluded target_only) (cfra (CTX_data_scene C))
      (lanpr_chain_clear_picked_flag (compute_if_needed s (cfra (CTX_data_scene C)))) s4.
Proof.
  destruct (update_gp_exec_run feature_lines C source_only target_only s)
    as (s' & em & He & _).
  destruct (update_gp_exec_steps feature_lines C source_only target_only s s' He)
    as (s4 & Hs & ->).
  exists s4. auto.
Qed.

Lemma bake_frame_total (C : bContext) (frame : Z) (s : State) :
  exists s',
    bake_frame C frame s = Some s' /\
    emission_steps (not_excluded None) frame
      (lanpr_chain_clear_picked_flag
         (lanpr_compute_feature_lines_internal feature_lines
            (DEG_evaluate_on_framechange s frame))) s'.
Proof.
  destruct (bake_frame_run feature_lines C frame s) as (s' & em & He & _).
  exists s'. split; [exact He|]. now apply (bake_frame_steps feature_lines C).
Qed.

Lemma bake_start_buffer (s : State) (frame : Z) :
  has_buffer (lanpr_chain_clear_picked_flag
                (lanpr_compute_feature_lines_internal feature_lines
                   (DEG_evaluate_on_framechange s frame))).
Proof. unfold has_buffer. cbn. discriminate. Qed.

(** A relation that every round of the bake loop establishes holds of the
    whole loop. *)
Lemma bake_loop_inv (C : bContext) (R : State -> State -> Prop) (fs : list Z) :
  (forall s, R s s) ->
  (forall a b c, R a b -> R b c -> R a c) ->
  (forall f s s', In f fs -> bake_frame C f s = Some s' -> R s s') ->
  forall s, exists s', for_each (bake_frame C) fs s = Some s' /\ R s s'.
Proof.
  intros Hrefl Htrans. induction fs as [|f fs IH]; intros Hstep s; cbn [for_each].
  - exists s. auto.
  - destruct (bake_frame_total C f s) as (s1 & He & _). rewrite He.
    destruct (IH (fun g a b Hg => Hstep g a b (or_intror Hg)) s1) as (s' & He' & HR).
    exists s'. split; [exact He'|].
    eapply Htrans; [|exact HR]. apply (Hstep f s s1); [now left|exact He].
Qed.

Lemma bake_frames_In (a b f : Z) : In f (bake_frames a b) -> a <= f <= b.
Proof.
  unfold bake_frames. rewrite in_map_iff. intros (i & <- & Hi).
  apply in_seq in Hi. lia.
Qed.

End Engine.

(** X9: each of the three single-frame operators returns and leaves every
    grease-pencil frame at another frame number than [scene->r.cfra] as it
    was; the bake operator returns and leaves every frame outside
    [sfra .. efra] as it was. *)
Theorem strokes_written_only_at_operator_frames :
  forall (feature_lines : Depsgraph -> list LANPR_RenderLineChain)
         (C : bContext) (s : State),
    (forall op, In op (update_operators feature_lines C) ->
       exists s', op s = Some s' /\
         forall o l fr, fr <> cfra (CTX_data_scene C) ->
                        gp_frame (gp s') (o, l, fr) = gp_frame (gp s) (o, l, fr)) /\
    (exists s', lanpr_bake_gp_strokes_exec feature_lines C s = Some s' /\
       forall o l fr, fr < sfra (CTX_data_scene C) \/ efra (CTX_data_scene C) < fr ->
                      gp_frame (gp s') (o, l, fr) = gp_frame (gp s) (o, l, fr)).
Proof.
  intros fl C s. split.
  - intros op Hop. destruct (update_operators_shape fl C op Hop) as (so & to & ->).
    destruct (update_gp_exec_total fl C so to s) as (s4 & He & Hs).
    eexists. split; [exact He|]. intros o l fr Hfr.
    destruct (prelude_facts fl s (cfra (CTX_data_scene C))) as (Hb & Hgp & _).
    rewrite clear_flags_other_frame by exact Hfr.
    rewrite (steps_elsewhere _ _ _ _ Hb Hs o l fr (or_intror Hfr)).
    cbv zeta in Hgp. now rewrite Hgp.
  - unfold lanpr_bake_gp_strokes_exec.
    destruct (bake_loop_inv fl C
                (fun a b => forall o l fr,
                     fr < sfra (CTX_data_scene C) \/ efra (CTX_data_scene C) < fr ->
                     gp_frame (gp b) (o, l, fr) = gp_frame (gp a) (o, l, fr))
                (bake_frames (sfra (CTX_data_scene C)) (efra (CTX_data_scene C))))
      with (s := s) as (s' & He & HR).
    + reflexivity.
    + intros a b c Hab Hbc o l fr Hfr. rewrite (Hbc o l fr Hfr). now apply Hab.
    + intros f a b Hf Hb o l fr Hfr. apply bake_frames_In in Hf.
      pose proof (bake_frame_steps fl C f a b Hb) as Hs.
      rewrite (steps_elsewhere _ _ _ _ (bake_start_buffer fl a f) Hs o l fr);
        [reflexivity|right; lia].
    + exists s'. auto.
Qed.

(** X11: with [gpencil_overwrite] off in the evaluated scene and in the
    scene of the shared buffer, if there is one, each single-frame operator
    keeps the strokes of every frame that had strokes, and the bake operator
    keeps every such frame as it was. *)
Theorem overwrite_off_keeps_existing_strokes :
  forall (feature_lines : Depsgraph -> list LANPR_RenderLineChain)
         (C : bContext) (s : State),
    dg_gpencil_overwrite (depsgraph s) = false ->
    overwrite s = false ->
    (forall op, In op (update_operators feature_lines C) ->
       exists s', op s = Some s' /\
         forall k, strokes_at s k <> [] -> strokes_at s' k = strokes_at s k) /\
    (exists s', lanpr_bake_gp_strokes_exec feature_lines C s = Some s' /\
       forall k, strokes_at s k <> [] -> gp_frame (gp s') k = gp_frame (gp s) k).
Proof.
  intros fl C s Hdg Hov. split.
  - intros op Hop. destruct (update_operators_shape fl C op Hop) as (so & to & ->).
    destruct (update_gp_exec_total fl C so to s) as (s4 & He & Hs).
    eexists. split; [exact He|]. intros k Hk.
    destruct (prelude_facts fl s (cfra (CTX_data_scene C)))
      as (Hb & Hgp & _ & _ & Ho & _).
    cbv zeta in Hgp, Ho.
    assert (Ho2 : overwrite (lanpr_chain_clear_picked_flag
                               (compute_if_needed fl s (cfra (CTX_data_scene C)))) = false).
    { rewrite Ho. now destruct (absent_or_stale s (cfra (CTX_data_scene C))). }
    rewrite clear_flags_strokes. unfold strokes_at at 1.
    rewrite (steps_protect _ _ _ _ Hb Ho2 Hs k).
    + unfold strokes_at. now rewrite Hgp.
    + unfold strokes_at in *. now rewrite Hgp.
  - unfold lanpr_bake_gp_strokes_exec.
    destruct (bake_loop_inv fl C
                (fun a b => dg_gpencil_overwrite (depsgraph a) = false ->
                            dg_gpencil_overwrite (depsgraph b) = false /\
                            forall k, strokes_at a k <> [] ->
                                      gp_frame (gp b) k = gp_frame (gp a) k)
                (bake_frames (sfra (CTX_data_scene C)) (efra (CTX_data_scene C))))
      with (s := s) as (s' & He & HR).
    + auto.
    + intros a b c Hab Hbc Ha. destruct (Hab Ha) as [Hb Hkb].
      destruct (Hbc Hb) as [Hc Hkc]. split; [exact Hc|].
      intros k Hk. rewrite <- (Hkb k Hk). apply Hkc.
      unfold strokes_at in *. now rewrite (Hkb k Hk).
    + intros f a b _ Hb Ha.
      pose proof (bake_frame_steps fl C f a b Hb) as Hs.
      pose proof (bake_start_buffer fl a f) as Hb0.
      destruct (steps_static _ _ _ _ Hb0 Hs) as (Hd & _).
      split; [rewrite Hd; exact Ha|].
      intros k Hk. rewrite (steps_protect _ _ _ _ Hb0 (eq_trans eq_refl Ha) Hs k Hk).
      reflexivity.
    + exists s'. split; [exact He|]. now apply HR.
Qed.

Lemma overwrite_off_keeps_existing_strokes_witness :
  dg_gpencil_overwrite (depsgraph (drawn_session LANPR_MASTER_MODE_SOFTWARE false)) = false /\
  overwrite (drawn_session LANPR_MASTER_MODE_SOFTWARE false) = false /\
  exists s',
    lanpr_update_gp_strokes_exec five_chains small_context
      (drawn_session LANPR_MASTER_MODE_SOFTWARE false) = Some s' /\
    strokes_at s' (100%nat, O, 5) = [a_stroke].
Proof.
  split; [reflexivity|]. split; [reflexivity|].
  destruct (overwrite_off_keeps_existing_strokes five_chains small_context
              (drawn_session LANPR_MASTER_MODE_SOFTWARE false) eq_refl eq_refl)
    as [Hops _].
  destruct (Hops (lanpr_update_gp_strokes_exec five_chains small_context)
              (or_introl eq_refl)) as (s' & He & Hk).
  exists s'. split; [exact He|]. apply (Hk (100%nat, O, 5)). discriminate.
Defined.

Section Quiet.

Variable feature_lines : Depsgraph -> list LANPR_RenderLineChain.

Lemma update_quiet (C : bContext) source_only target_only (s : State) :
  software s = false ->
  exists s',
    update_gp_exec feature_lines C source_only target_only s = Some s' /\
    trace s' = trace s ++ computed s (cfra (CTX_data_scene C)) ++ [EvClearPicked] /\
    forall k, strokes_at s' k = strokes_at s k \/ strokes_at s' k = [].
Proof.
  intros Hsw.
  destruct (update_gp_exec_total feature_lines C source_only target_only s)
    as (s4 & He & Hs).
  eexists. split; [exact He|].
  destruct (prelude_facts feature_lines s (cfra (CTX_data_scene C)))
    as (Hb & Hgp & Hdg & Htr & _).
  cbv zeta in Hgp, Hdg, Htr.
  assert (Hsw2 : software (lanpr_chain_clear_picked_flag
                             (compute_if_needed feature_lines s (cfra (CTX_data_scene C))))
                 = false).
  { unfold software in *. now rewrite Hdg. }
  destruct (steps_static _ _ _ _ Hb Hs) as (_ & _ & Hq).
  destruct (Hq Hsw2) as [Ht _]. split.
  - cbn [lanpr_clear_gp_lanpr_flags with_gp trace]. now rewrite Ht.
  - intros k. rewrite clear_flags_strokes.
    destruct (steps_nonsoftware _ _ _ _ Hb Hsw2 Hs k) as [H|H]; [left|now right].
    rewrite H. unfold strokes_at. now rewrite Hgp.
Qed.

Lemma bake_quiet (C : bContext) (fs : list Z) :
  forall s, software s = false ->
  exists s',
    for_each (bake_frame feature_lines C) fs s = Some s' /\
    trace s' = trace s ++ quiet_bake_trace fs /\
    forall k, strokes_at s' k = strokes_at s k \/ strokes_at s' k = [].
Proof.
  induction fs as [|f fs IH]; intros s Hsw; cbn [for_each].
  - exists s. split; [reflexivity|]. split; [cbn; now rewrite app_nil_r|now left].
  - destruct (bake_frame_total feature_lines C f s) as (s1 & He & Hs). rewrite He.
    pose proof (bake_start_buffer feature_lines s f) as Hb.
    assert (Hsw0 : software (lanpr_chain_clear_picked_flag
                               (lanpr_compute_feature_lines_internal feature_lines
                                  (DEG_evaluate_on_framechange s f))) = false) by exact Hsw.
    destruct (steps_static _ _ _ _ Hb Hs) as (Hd & _ & Hq).
    destruct (Hq Hsw0) as [Ht _].
    assert (Hsw1 : software s1 = false) by (unfold software in *; now rewrite Hd).
    destruct (IH s1 Hsw1) as (s' & He' & Ht' & Hk').
    exists s'. split; [exact He'|]. split.
    + rewrite Ht', Ht. cbn [trace lanpr_chain_clear_picked_flag
        lanpr_compute_feature_lines_internal DEG_evaluate_on_framechange depsgraph dg_cfra
        quiet_bake_trace flat_map].
      rewrite <- !app_assoc. reflexivity.
    + intros k. destruct (Hk' k) as [H|H]; [|now right]. rewrite H.
      apply (steps_nonsoftware _ _ _ _ Hb Hsw0 Hs k).
Qed.

End Quiet.

(** X12: outside the software master mode the operators emit nothing.
    The trace of a single-frame operator ends with the computation, if it was
    needed, and the clearing of the marks; the trace of a bake holds one
    computation and one clearing for each frame.  Afterwards every frame has
    the strokes it had, or none: target frames are emptied all the same. *)
Theorem no_stroke_added_outside_software_mode :
  forall (feature_lines : Depsgraph -> list LANPR_RenderLineChain)
         (C : bContext) (s : State),
    is_software (dg_master_mode (depsgraph s)) = false ->
    (forall op, In op (update_operators feature_lines C) ->
       exists s', op s = Some s' /\
         trace s' = trace s ++ computed s (cfra (CTX_data_scene C)) ++ [EvClearPicked] /\
         forall k, strokes_at s' k = strokes_at s k \/ strokes_at s' k = []) /\
    (exists s', lanpr_bake_gp_strokes_exec feature_lines C s = Some s' /\
       trace s' = trace s ++ quiet_bake_trace
                               (bake_frames (sfra (CTX_data_scene C))
                                            (efra (CTX_data_scene C))) /\
       forall k, strokes_at s' k = strokes_at s k \/ strokes_at s' k = []).
Proof.
  intros fl C s Hsw. split.
  - intros op Hop. destruct (update_operators_shape fl C op Hop) as (so & to & ->).
    now apply update_quiet.
  - now apply bake_quiet.
Qed.

Lemma no_stroke_added_outside_software_mode_witness :
  is_software (dg_master_mode (depsgraph (drawn_session LANPR_MASTER_MODE_DPIX true)))
  = false /\
  exists s',
    lanpr_update_gp_strokes_exec five_chains small_context
      (drawn_session LANPR_MASTER_MODE_DPIX true) = Some s' /\
    trace s' = [EvCompute 5; EvClearPicked] /\
    strokes_at s' (100%nat, O, 5) = [].
Proof.
  split; [reflexivity|].
  destruct (no_stroke_added_outside_software_mode five_chains small_context
              (drawn_session LANPR_MASTER_MODE_DPIX true) eq_refl)
    as [Hops _].
  destruct (Hops (lanpr_update_gp_strokes_exec five_chains small_context)
              (or_introl eq_refl)) as (s' & He & Ht & _).
  exists s'. split; [exact He|]. split; [exact Ht|].
  vm_compute in He. inversion He. reflexivity.
Defined.

(** X13: the life of [GP_FRAME_LANPR_CLEARED].  After a single-frame
    operator the flag is off in every frame at the current frame number of an
    evaluated grease-pencil object.  A bake resets no flag: every frame it has
    changed carries the flag, and a frame that carried it at the start still
    does.  A frame that carries the flag when an operator starts is not
    emptied by it: it keeps its strokes, and new strokes are appended. *)
Theorem cleared_flag_lifecycle :
  forall (feature_lines : Depsgraph -> list LANPR_RenderLineChain)
         (C : bContext) (s : State),
    (forall op, In op (update_operators feature_lines C) ->
       exists s', op s = Some s' /\
         (forall o l, evaluated_gpencil s o = true ->
                      cleared_at s' (o, l, cfra (CTX_data_scene C)) = false) /\
         (forall k, cleared_at s k = true ->
                    exists extra, strokes_at s' k = strokes_at s k ++ extra)) /\
    (exists s', lanpr_bake_gp_strokes_exec feature_lines C s = Some s' /\
       (forall k, gp_frame (gp s') k = gp_frame (gp s) k \/ cleared_at s' k = true) /\
       (forall k, cleared_at s k = true ->
                  cleared_at s' k = true /\
                  exists extra, strokes_at s' k = strokes_at s k ++ extra)).
Proof.
  intros fl C s. split.
  - intros op Hop. destruct (update_operators_shape fl C op Hop) as (so & to & ->).
    destruct (update_gp_exec_total fl C so to s) as (s4 & He & Hs).
    eexists. split; [exact He|].
    destruct (prelude_facts fl s (cfra (CTX_data_scene C))) as (Hb & Hgp & Hdg & _).
    cbv zeta in Hgp, Hdg.
    destruct (steps_static _ _ _ _ Hb Hs) as (Hd4 & _).
    split.
    + intros o l Hev. apply clear_flags_evaluated.
      unfold evaluated_gpencil in *. now rewrite Hd4, Hdg.
    + intros k Hc. rewrite clear_flags_strokes.
      destruct (steps_append _ _ _ _ Hb Hs k) as (_ & extra & Hx).
      * unfold cleared_at in *. now rewrite Hgp.
      * exists extra. rewrite Hx. unfold strokes_at. now rewrite Hgp.
  - unfold lanpr_bake_gp_strokes_exec.
    destruct (bake_loop_inv fl C
                (fun a b =>
                   (forall k, gp_frame (gp b) k = gp_frame (gp a) k \/ cleared_at b k = true) /\
                   (forall k, cleared_at a k = true ->
                              cleared_at b k = true /\
                              exists extra, strokes_at b k = strokes_at a k ++ extra))
                (bake_frames (sfra (CTX_data_scene C)) (efra (CTX_data_scene C))))
      with (s := s) as (s' & He & HR).
    + intros a. split; [now left|]. intros k Hk. split; [exact Hk|].
      exists []. now rewrite app_nil_r.
    + intros a b c [Hab1 Hab2] [Hbc1 Hbc2]. split.
      * intros k. destruct (Hbc1 k) as [H|H]; [|now right].
        destruct (Hab1 k) as [H'|H']; [left; congruence|].
        right. unfold cleared_at in *. now rewrite H.
      * intros k Hk. destruct (Hab2 k Hk) as [Hb [e1 He1]].
        destruct (Hbc2 k Hb) as [Hc [e2 He2]].
        split; [exact Hc|]. exists (e1 ++ e2). rewrite He2, He1, app_assoc. reflexivity.
    + intros f a b _ Hb.
      pose proof (bake_frame_steps fl C f a b Hb) as Hs.
      pose proof (bake_start_buffer fl a f) as Hb0.
      split.
      * intros k. apply (steps_flagged _ _ _ _ Hb0 Hs k).
      * intros k Hk. apply (steps_append _ _ _ _ Hb0 Hs k Hk).
    + exists s'. auto.
Qed.

Section External.

Variable feature_lines : Depsgraph -> list LANPR_RenderLineChain.

Lemma external_fixed (s : State) :
  cached_for s (dg_cfra (depsgraph s)) ->
  ED_lanpr_update_data_for_external feature_lines s = s.
Proof.
  intros Hc. unfold ED_lanpr_update_data_for_external, LANPR.compute_if_needed.
  apply absent_or_stale_false in Hc. rewrite Hc.
  now destruct (negb (is_software (dg_master_mode (depsgraph s)))).
Qed.

Lemma external_cases (s : State) :
  let s' := ED_lanpr_update_data_for_external feature_lines s in
  gp s' = gp s /\ depsgraph s' = depsgraph s /\
  (is_software (dg_master_mode (depsgraph s)) = true ->
   cached_for s' (dg_cfra (depsgraph s))) /\
  (is_software (dg_master_mode (depsgraph s)) = false -> s' = s).
Proof.
  cbv zeta. unfold ED_lanpr_update_data_for_external, LANPR.compute_if_needed.
  destruct (is_software (dg_master_mode (depsgraph s))); cbn [negb].
  - destruct (absent_or_stale s (dg_cfra (depsgraph s))) eqn:Ha.
    + cbn. repeat split; try discriminate. intros _. eexists. split; reflexivity.
    + repeat split; try discriminate. intros _. now apply absent_or_stale_false.
  - repeat split. discriminate.
Qed.

End External.

(** X14: a second call of [ED_lanpr_update_data_for_external] changes
    nothing; in the software mode the call leaves
    [lanpr_render_buffer_found] true, with the buffer cached for the
    evaluated frame, and in every other mode it returns at once and changes
    nothing.  After a single-frame operator [lanpr_render_buffer_found] holds
    too, and the buffer is cached for the evaluated frame if the operator has
    computed it, and for the scene frame if it has not. *)
Theorem external_update_settles :
  forall (feature_lines : Depsgraph -> list LANPR_RenderLineChain) (s : State),
    let external := ED_lanpr_update_data_for_external feature_lines in
    external (external s) = external s /\
    (is_software (dg_master_mode (depsgraph s)) = true ->
     lanpr_render_buffer_found (external s) = true /\
     cached_for (external s) (dg_cfra (depsgraph s))) /\
    (is_software (dg_master_mode (depsgraph s)) = false ->
     external s = s) /\
    (forall C op, In op (update_operators feature_lines C) ->
       exists s', op s = Some s' /\
         lanpr_render_buffer_found s' = true /\
         cached_for s' (if absent_or_stale s (cfra (CTX_data_scene C))
                        then dg_cfra (depsgraph s)
                        else cfra (CTX_data_scene C))).
Proof.
  intros fl s. cbv zeta.
  destruct (external_cases fl s) as (Hgp & Hdg & Hsw & Hns). cbv zeta in *.
  split; [|split; [|split]].
  - destruct (is_software (dg_master_mode (depsgraph s))) eqn:E.
    + apply external_fixed. rewrite Hdg. now apply Hsw.
    + now rewrite (Hns eq_refl), (Hns eq_refl).
  - intros E. pose proof (Hsw E) as Hc. split; [|exact Hc].
    destruct Hc as (rb & Hrb & _). unfold lanpr_render_buffer_found. now rewrite Hrb.
  - exact Hns.
  - intros C op Hop. destruct (update_operators_shape fl C op Hop) as (so & to & ->).
    destruct (update_gp_exec_total fl C so to s) as (s4 & He & Hs).
    eexists. split; [exact He|].
    destruct (prelude_facts fl s (cfra (CTX_data_scene C)))
      as (Hb & _ & _ & _ & _ & Hc).
    cbv zeta in Hc.
    pose proof (steps_has_buffer _ _ _ _ Hb Hs) as Hb4.
    split.
    + unfold lanpr_render_buffer_found, has_buffer in *.
      cbn [lanpr_clear_gp_lanpr_flags with_gp render_buffer_shared].
      now destruct (render_buffer_shared s4).
    + destruct (steps_cached _ _ _ _ Hb Hs _ Hc) as (rb & Hrb & Hf).
      exists rb. split; [exact Hrb|exact Hf].
Qed.

Lemma for_each_app {A} (step : A -> State -> option State) (l1 l2 : list A) (s : State) :
  for_each step (l1 ++ l2) s =
  match for_each step l1 s with
  | Some s1 => for_each step l2 s1
  | None => None
  end.
Proof.
  revert s. induction l1 as [|a l1 IH]; intros s; cbn [for_each app]; [reflexivity|].
  destruct (step a s); [apply IH|reflexivity].
Qed.

Lemma bake_frames_last (a b : Z) :
  a <= b -> bake_frames a b = bake_frames a (b - 1) ++ [b].
Proof.
  intros Hab. unfold bake_frames.
  replace (Z.to_nat (b - a + 1)) with (S (Z.to_nat (b - 1 - a + 1))) by lia.
  rewrite seq_S, map_app. cbn [map Nat.add]. f_equal. f_equal. lia.
Qed.

Lemma bake_frames_empty (a b : Z) : b < a -> bake_frames a b = [].
Proof.
  intros Hab. unfold bake_frames.
  replace (Z.to_nat (b - a + 1)) with O by lia. reflexivity.
Qed.

Lemma computes_bake_trace (fs : list Z) :
  forall ems, List.length ems = List.length fs ->
              computes (bake_trace fs ems) = List.length fs.
Proof.
  induction fs as [|f fs IH]; intros [|em ems] Hlen; try discriminate; [reflexivity|].
  unfold bake_trace. cbn [combine flat_map fst snd].
  rewrite computes_app.
  change (EvCompute f :: EvClearPicked :: pairs em)
    with ([EvCompute f; EvClearPicked] ++ pairs em).
  rewrite computes_app, computes_pairs.
  change (flat_map (fun fe => EvCompute (fst fe) :: EvClearPicked :: pairs (snd fe))
            (combine fs ems)) with (bake_trace fs ems).
  rewrite IH by (cbn in Hlen; lia). reflexivity.
Qed.

(** X15: with [efra < sfra] the bake operator changes nothing.  Otherwise
    it calls the feature-line computation once for each of the
    [efra - sfra + 1] frames and leaves the depsgraph evaluated at [efra], not
    at the frame it started from, with the buffer cached for [efra], so that a
    following external update changes nothing. *)
Theorem bake_frame_range :
  forall (feature_lines : Depsgraph -> list LANPR_RenderLineChain)
         (C : bContext) (s : State),
    let scene := CTX_data_scene C in
    (efra scene < sfra scene ->
     lanpr_bake_gp_strokes_exec feature_lines C s = Some s) /\
    (sfra scene <= efra scene ->
     exists s',
       lanpr_bake_gp_strokes_exec feature_lines C s = Some s' /\
       computes (trace s') = (computes (trace s) + Z.to_nat (efra scene - sfra scene + 1))%nat /\
       lanpr_render_buffer_found s' = true /\
       cached_for s' (efra scene) /\
       dg_cfra (depsgraph s') = efra scene /\
       ED_lanpr_update_data_for_external feature_lines s' = s').
Proof.
  intros fl C s. cbv zeta. unfold lanpr_bake_gp_strokes_exec. split.
  - intros H. now rewrite bake_frames_empty.
  - intros H.
    destruct (bake_loop_run fl C (bake_frames (sfra (CTX_data_scene C))
                                    (efra (CTX_data_scene C))) s)
      as (s' & ems & He & Hlen & Htr & _).
    exists s'. split; [exact He|]. split.
    { rewrite Htr, computes_app, (computes_bake_trace _ _ Hlen). f_equal.
      unfold bake_frames. now rewrite length_map, length_seq. }
    rewrite (bake_frames_last _ _ H), for_each_app in He.
    destruct (for_each (bake_frame fl C)
                (bake_frames (sfra (CTX_data_scene C)) (efra (CTX_data_scene C) - 1)) s)
      as [s1|]; [|discriminate].
    cbn [for_each] in He.
    destruct (bake_frame fl C (efra (CTX_data_scene C)) s1) as [s2|] eqn:H2;
      [|discriminate].
    inversion He; subst s2. clear He.
    pose proof (bake_frame_steps fl C _ _ _ H2) as Hs.
    pose proof (bake_start_buffer fl s1 (efra (CTX_data_scene C))) as Hb.
    destruct (steps_static _ _ _ _ Hb Hs) as (Hd & _).
    pose proof (steps_has_buffer _ _ _ _ Hb Hs) as Hb'.
    assert (Hc : cached_for s' (efra (CTX_data_scene C))).
    { apply (steps_cached _ _ _ _ Hb Hs). eexists. split; reflexivity. }
    split; [|split; [exact Hc|split]].
    + unfold lanpr_render_buffer_found, has_buffer in *.
      now destruct (render_buffer_shared s').
    + rewrite Hd. reflexivity.
    + apply external_fixed. rewrite Hd. exact Hc.
Qed.

Section Again.

Variable ob : option Object.
Variables qi_begin qi_end material_nr : Z.
Variable col : option Collection.
Variable types : Z.

Local Abbreviation accepts := (LanprProps.accepts ob qi_begin qi_end col types).
Local Abbreviation accepted := (LanprProps.accepted ob qi_begin qi_end col types).
Local Abbreviation mark :=
  (fun rlc => if LanprProps.accepts ob qi_begin qi_end col types rlc
              then set_picked rlc else rlc).

Lemma accepts_set_picked (rlc : LANPR_RenderLineChain) : accepts (set_picked rlc) = false.
Proof. reflexivity. Qed.

Lemma accepts_mark (rlc : LANPR_RenderLineChain) : accepts (mark rlc) = false.
Proof.
  destruct (accepts rlc) eqn:E; cbv beta; rewrite E; [apply accepts_set_picked|exact E].
Qed.

Lemma marked_walk (l : list LANPR_RenderLineChain) :
  map mark (map mark l) = map mark l /\
  filter accepts (map mark l) = [] /\
  forall i, accepted i (map mark l) = [].
Proof.
  induction l as [|c l (IH1 & IH2 & IH3)]; [repeat split|].
  cbn [map filter LanprProps.accepted]. rewrite accepts_mark.
  split; [|split; [exact IH2|intros i; apply IH3]].
  rewrite IH1. reflexivity.
Qed.

End Again.

(** X16: a second call of [lanpr_generate_gpencil_from_chain] with the
    same arguments emits nothing: trace, buffer, depsgraph, layers and every
    frame are as the first call left them. *)
Theorem generate_again_emits_nothing :
  forall (s : State) (ob : option Object) (gpf : FrameKey)
         (qi_begin qi_end material_nr : Z) (col : option Collection) (types : Z),
    let once :=
      lanpr_generate_gpencil_from_chain s ob gpf qi_begin qi_end material_nr col types in
    let twice :=
      lanpr_generate_gpencil_from_chain once ob gpf qi_begin qi_end material_nr col types in
    trace twice = trace once /\
    render_buffer_shared twice = render_buffer_shared once /\
    depsgraph twice = depsgraph once /\
    gp_layers (gp twice) = gp_layers (gp once) /\
    forall k, gp_frame (gp twice) k = gp_frame (gp once) k.
Proof.
  intros s ob gpf qb qe m col ty. cbv zeta.
  destruct (render_buffer_shared s) as [rb|] eqn:Hrb.
  2:{ assert (Hone : lanpr_generate_gpencil_from_chain s ob gpf qb qe m col ty = s)
        by (unfold lanpr_generate_gpencil_from_chain; now rewrite Hrb).
      rewrite !Hone. auto. }
  destruct (is_software (dg_master_mode (depsgraph s))) eqn:Hsw.
  2:{ assert (Hone : lanpr_generate_gpencil_from_chain s ob gpf qb qe m col ty = s)
        by (unfold lanpr_generate_gpencil_from_chain; now rewrite Hrb, Hsw).
      rewrite !Hone. auto. }
  set (f := match gp_frame (gp s) gpf with Some f => f | None => mkFrame [] false end).
  assert (Hone :
    lanpr_generate_gpencil_from_chain s ob gpf qb qe m col ty =
    mkState
      (Some (mkRenderBuffer
               (map (fun rlc => if accepts ob qb qe col ty rlc then set_picked rlc else rlc)
                    (chains rb))
               (cached_for_frame rb) (rb_scene_gpencil_overwrite rb)))
      (depsgraph s)
      (set_frame (gp s) gpf
         (mkFrame (strokes f ++ map (stroke_of m) (filter (accepts ob qb qe col ty) (chains rb)))
                  (flag_lanpr_cleared f)))
      (trace s ++ pairs (accepted ob qb qe col ty O (chains rb)))).
  { unfold lanpr_generate_gpencil_from_chain. rewrite Hrb, Hsw. cbn [negb].
    rewrite emit_chains_walk. reflexivity. }
  rewrite Hone. unfold lanpr_generate_gpencil_from_chain.
  cbn [render_buffer_shared depsgraph gp trace chains cached_for_frame
       rb_scene_gpencil_overwrite].
  rewrite Hsw. cbn [negb]. rewrite emit_chains_walk.
  destruct (marked_walk ob qb qe col ty (chains rb)) as (H1 & H2 & H3).
  rewrite H1, H2, (H3 O). cbn [map pairs flat_map]. rewrite !app_nil_r.
  cbn [render_buffer_shared depsgraph gp trace gp_layers set_frame].
  rewrite (gp_frame_set_same (gp s)). cbn [strokes flag_lanpr_cleared].
  repeat split.
  intros k. cbn [gp_frame set_frame]. destruct (FrameKey_eqb gpf k); reflexivity.
Qed.


End LanprOperatorFacts.

(** ** Where the strokes of a frame come from *)

Module LanprStrokeFacts.
Import LANPR LanprProps LanprFacts LanprSteps LanprScenes LanprStepFacts LanprInvariants
       LanprOperatorFacts LanprStrokes.

Lemma stroke_of_unmarked (m : Z) (rlc : LANPR_RenderLineChain) :
  stroke_of m (unmarked rlc) = stroke_of m rlc.
Proof. reflexivity. Qed.

Lemma unmarked_set_picked (rlc : LANPR_RenderLineChain) :
  unmarked (set_picked rlc) = unmarked rlc.
Proof. reflexivity. Qed.

Lemma unmarked_clear_picked (rlc : LANPR_RenderLineChain) :
  unmarked (clear_picked rlc) = unmarked rlc.
Proof. reflexivity. Qed.

Lemma drawn_from_unmarked (s s' : State) (st : bGPDstroke) :
  map unmarked (buffer_chains s') = map unmarked (buffer_chains s) ->
  drawn_from s st -> drawn_from s' st.
Proof.
  intros Hmap (m & c & Hin & ->).
  assert (Hu : In (unmarked c) (map unmarked (buffer_chains s'))).
  { rewrite Hmap. now apply in_map. }
  apply in_map_iff in Hu. destruct Hu as (c' & Hc' & Hin').
  exists m, c'. split; [exact Hin'|].
  now rewrite <- (stroke_of_unmarked m c), <- Hc', stroke_of_unmarked.
Qed.

(** The emission function changes nothing in the chains but marks. *)
Lemma generate_unmarked (s : State) ob k qb qe m col ty :
  map unmarked (buffer_chains (lanpr_generate_gpencil_from_chain s ob k qb qe m col ty))
  = map unmarked (buffer_chains s).
Proof.
  unfold lanpr_generate_gpencil_from_chain, buffer_chains.
  destruct (render_buffer_shared s) as [rb|] eqn:Hrb; [|now rewrite Hrb].
  destruct (negb (is_software (dg_master_mode (depsgraph s)))); [now rewrite Hrb|].
  rewrite emit_chains_walk. cbn [render_buffer_shared chains].
  rewrite map_map. apply map_ext. intros c.
  now destruct (accepts ob qb qe col ty c).
Qed.

Lemma emit_to_target_unmarked (s s' : State) gpobj li frame ob qb qe m col ty :
  emit_to_target s gpobj li frame ob qb qe m col ty = Some s' ->
  map unmarked (buffer_chains s') = map unmarked (buffer_chains s).
Proof.
  unfold emit_to_target.
  destruct (match BKE_gpencil_layer_get_index (gp s) gpobj li with
            | Some gpl => (gp s, gpl)
            | None => BKE_gpencil_layer_addnew (gp s) gpobj
            end) as [g1 gpl].
  destruct (BKE_gpencil_layer_getframe g1 gpl frame) as [[g2 k] f].
  assert (Hgo : forall s1,
             Some (lanpr_generate_gpencil_from_chain
                     (if negb (flag_lanpr_cleared f)
                      then with_gp (with_gp s g2)
                             (set_frame g2 k
                                (mkFrame (strokes (BKE_gpencil_free_strokes f)) true))
                      else with_gp s g2) ob k qb qe m col ty) = Some s1 ->
             map unmarked (buffer_chains s1) = map unmarked (buffer_chains s)).
  { intros s1 H. inversion H as [H1]. clear H. rewrite generate_unmarked.
    now destruct (negb (flag_lanpr_cleared f)). }
  destruct (strokes f); [exact (Hgo s')|].
  destruct (render_buffer_shared (with_gp s g2)) as [rb2|]; [|discriminate].
  destruct (negb (rb_scene_gpencil_overwrite rb2)); [|exact (Hgo s')].
  intros H. inversion H; subst s'. reflexivity.
Qed.

Lemma steps_unmarked allowed frame (s s' : State) :
  emission_steps allowed frame s s' ->
  map unmarked (buffer_chains s') = map unmarked (buffer_chains s).
Proof.
  induction 1 as [|s s1 s' gpobj li ob qb qe m col ty _ _ He _ IH]; [reflexivity|].
  rewrite IH. eapply emit_to_target_unmarked; eauto.
Qed.

(** Started from frames without the flag, a run of emissions leaves in every
    frame it has changed only strokes of chains of the buffer. *)
Lemma steps_drawn allowed frame (s0 s s' : State) :
  (forall k, cleared_at s0 k = false) ->
  has_buffer s ->
  (forall k, gp_frame (gp s) k = gp_frame (gp s0) k \/
             forall st, In st (strokes_at s k) -> drawn_from s st) ->
  emission_steps allowed frame s s' ->
  forall k, gp_frame (gp s') k = gp_frame (gp s0) k \/
            forall st, In st (strokes_at s' k) -> drawn_from s' st.
Proof.
  intros H0 Hb HJ H. revert Hb HJ.
  induction H as [|s s1 s' gpobj li ob qb qe m col ty _ _ He _ IH]; intros Hb HJ;
    [exact HJ|].
  apply IH; [eapply emit_to_target_has_buffer; eauto|].
  pose proof (emit_to_target_unmarked _ _ _ _ _ _ _ _ _ _ _ He) as Hu.
  intros k.
  destruct (emit_to_target_frame _ _ _ _ _ _ _ _ _ _ _ k Hb He) as [Hsame|(_ & _ & Hf)].
  - destruct (HJ k) as [Hk|Hk]; [left; congruence|].
    right. intros st Hst. apply (drawn_from_unmarked s s1 st Hu). apply Hk.
    unfold strokes_at in *. now rewrite <- Hsame.
  - right. intros st Hst. apply (drawn_from_unmarked s s1 st Hu).
    unfold strokes_at in Hst. rewrite Hf in Hst. cbn [strokes] in Hst.
    unfold emitted_strokes in Hst. apply in_app_or in Hst. destruct Hst as [Hst|Hst].
    + destruct (cleared_at s k) eqn:Hc; [|contradiction].
      destruct (HJ k) as [Hk|Hk]; [|now apply Hk].
      unfold cleared_at in Hc, H0. specialize (H0 k). rewrite Hk in Hc. congruence.
    + destruct (software s); [|contradiction].
      apply in_map_iff in Hst. destruct Hst as (c & <- & Hc).
      apply filter_In in Hc. exists m, c. split; [apply Hc|reflexivity].
Qed.

(** X17: when no frame carries [GP_FRAME_LANPR_CLEARED] at the start, a
    single-frame operator changes nothing in the chains of the buffer but
    the marks, and every frame afterwards either has the strokes it had or
    holds only strokes made from chains of the buffer: no earlier stroke is
    left in a frame that was written. *)
Theorem rewritten_frames_hold_buffer_strokes :
  forall (feature_lines : Depsgraph -> list LANPR_RenderLineChain)
         (C : bContext) (s : State),
    (forall k, cleared_at s k = false) ->
    forall op, In op (update_operators feature_lines C) ->
    exists s',
      op s = Some s' /\
      map unmarked (buffer_chains s')
      = map unmarked
          (buffer_chains (compute_if_needed feature_lines s (cfra (CTX_data_scene C)))) /\
      forall k, strokes_at s' k = strokes_at s k \/
                forall st, In st (strokes_at s' k) -> drawn_from s' st.
Proof.
  intros fl C s H0 op Hop.
  destruct (update_operators_shape fl C op Hop) as (so & to & ->).
  destruct (update_gp_exec_total fl C so to s) as (s4 & He & Hs).
  eexists. split; [exact He|].
  destruct (prelude_facts fl s (cfra (CTX_data_scene C))) as (Hb & Hgp & _).
  cbv zeta in Hgp.
  set (s2 := lanpr_chain_clear_picked_flag
               (compute_if_needed fl s (cfra (CTX_data_scene C)))) in *.
  assert (Hu2 : map unmarked (buffer_chains s2)
                = map unmarked
                    (buffer_chains (compute_if_needed fl s (cfra (CTX_data_scene C))))).
  { subst s2. unfold buffer_chains, lanpr_chain_clear_picked_flag.
    cbn [render_buffer_shared].
    destruct (render_buffer_shared (compute_if_needed fl s (cfra (CTX_data_scene C))));
      [|reflexivity].
    cbn [chains]. rewrite map_map. apply map_ext. intros c. apply unmarked_clear_picked. }
  assert (Hbuf : forall s5, buffer_chains (lanpr_clear_gp_lanpr_flags s5 (cfra (CTX_data_scene C)))
                            = buffer_chains s5) by reflexivity.
  split.
  - rewrite Hbuf, (steps_unmarked _ _ _ _ Hs). exact Hu2.
  - intros k. rewrite clear_flags_strokes.
    assert (H02 : forall k, cleared_at s2 k = false).
    { intros k'. unfold cleared_at. rewrite Hgp. apply H0. }
    destruct (steps_drawn _ _ s2 s2 s4 H02 Hb (fun k => or_introl eq_refl) Hs k) as [Hk|Hk].
    + left. unfold strokes_at. now rewrite Hk, Hgp.
    + right. intros st Hst. destruct (Hk st Hst) as (m & c & Hc & ->).
      exists m, c. split; [|reflexivity]. now rewrite Hbuf.
Qed.

Lemma rewritten_frames_hold_buffer_strokes_witness :
  (forall k, cleared_at (drawn_session LANPR_MASTER_MODE_SOFTWARE true) k = false) /\
  exists s',
    lanpr_update_gp_strokes_exec five_chains small_context
      (drawn_session LANPR_MASTER_MODE_SOFTWARE true) = Some s' /\
    (strokes_at s' (100%nat, O, 5)
     = strokes_at (drawn_session LANPR_MASTER_MODE_SOFTWARE true) (100%nat, O, 5) \/
     forall st, In st (strokes_at s' (100%nat, O, 5)) -> drawn_from s' st).
Proof.
  assert (H0 : forall k,
             cleared_at (drawn_session LANPR_MASTER_MODE_SOFTWARE true) k = false).
  { intros k. unfold cleared_at. cbn [gp drawn_session drawn_store gp_frame].
    now destruct (FrameKey_eqb k (100%nat, O, 5)). }
  split; [exact H0|].
  destruct (rewritten_frames_hold_buffer_strokes five_chains small_context
              (drawn_session LANPR_MASTER_MODE_SOFTWARE true) H0
              (lanpr_update_gp_strokes_exec five_chains small_context) (or_introl eq_refl))
    as (s' & He & _ & Hk).
  exists s'. split; [exact He|]. apply Hk.
Defined.

End LanprStrokeFacts.

(** ** Running an operator twice *)

Module LanprScriptFacts.
Import LANPR LanprProps LanprFacts LanprSteps LanprScenes LanprStepFacts LanprInvariants
       LanprOperatorFacts LanprStrokes LanprStrokeFacts LanprScript.

Lemma for_each_one {A} (step : A -> State -> option State) (a : A) (s : State) :
  for_each step [a] s = step a s.
Proof. cbn [for_each]. now destruct (step a s). Qed.

Lemma for_each_flat_map {A} (frame : Z) (step : A -> State -> option State)
  (script : A -> list Emission) (l : list A) :
  (forall a s, step a s = for_each (emit frame) (script a) s) ->
  forall s, for_each step l s = for_each (emit frame) (flat_map script l) s.
Proof.
  intros Hstep. induction l as [|a l IH]; intros s; [reflexivity|].
  cbn [for_each flat_map]. rewrite for_each_app, Hstep.
  destruct (for_each (emit frame) (script a) s); [apply IH|reflexivity].
Qed.

Lemma update_modifier_script frame target_only ob md (s : State) :
  update_modifier frame target_only ob md s
  = for_each (emit frame) (modifier_emissions target_only ob md) s.
Proof.
  unfold update_modifier, modifier_emissions. destruct md as [flmd|]; [|reflexivity].
  destruct (flmd_target flmd) as [gpobj|]; [|reflexivity].
  destruct (ObjectType_eqb (ref_type gpobj) OB_GPENCIL); [|reflexivity].
  destruct (target_excluded target_only (ref_id gpobj)); [reflexivity|].
  now rewrite for_each_one.
Qed.

Lemma update_object_script frame target_only ob (s : State) :
  update_object frame target_only ob s
  = for_each (emit frame) (object_emissions target_only ob) s.
Proof.
  unfold update_object, object_emissions. apply for_each_flat_map.
  intros md s'. apply update_modifier_script.
Qed.

Lemma recursive_script col frame source_only target_only :
  forall s,
    lanpr_update_gp_strokes_recursive col frame source_only target_only s
    = for_each (emit frame) (recursive_emissions col source_only target_only) s.
Proof.
  induction col as [g ch l IH] using Collection_ind'.
  destruct source_only as [so|]; intros s;
    cbn [lanpr_update_gp_strokes_recursive recursive_emissions].
  - apply update_object_script.
  - rewrite for_each_app.
    rewrite (for_each_flat_map frame (update_object frame target_only)
               (object_emissions target_only) g
               (fun a s' => update_object_script frame target_only a s') s).
    destruct (for_each (emit frame) (flat_map (object_emissions target_only) g) s)
      as [s1|]; [|reflexivity].
    clear s. revert s1. induction IH as [|cc ch Hcc _ IHch]; intros s1; [reflexivity|].
    rewrite for_each_app, Hcc.
    destruct (for_each (emit frame) (recursive_emissions cc None target_only) s1);
      [apply IHch|reflexivity].
Qed.

Lemma update_collection_here_script col frame target_only (s : State) :
  update_collection_here col frame target_only s
  = for_each (emit frame) (here_emissions col target_only) s.
Proof.
  unfold update_collection_here, here_emissions.
  destruct (target (lanpr col)) as [gpobj|]; [|reflexivity].
  destruct (negb (is_include (usage (lanpr col)))); [reflexivity|].
  destruct (target_excluded target_only (ref_id gpobj)); [reflexivity|].
  now rewrite for_each_one.
Qed.

Lemma collection_script col frame this_only target_only :
  forall s,
    lanpr_update_gp_strokes_collection col frame this_only target_only s
    = for_each (emit frame) (collection_emissions col this_only target_only) s.
Proof.
  induction col as [g ch l IH] using Collection_ind'. intros s.
  cbn [lanpr_update_gp_strokes_collection collection_emissions].
  rewrite for_each_app. destruct this_only.
  - cbn [for_each]. apply update_collection_here_script.
  - assert (Hd : forall s0,
               (fix over_children (l : list Collection) (s : State) : option State :=
                  match l with
                  | [] => Some s
                  | cc :: l' =>
                      match lanpr_update_gp_strokes_collection cc frame false target_only s with
                      | Some s' => over_children l' s'
                      | None => None
                      end
                  end) ch s0
               = for_each (emit frame)
                   ((fix over_children (l : list Collection) : list Emission :=
                       match l with
                       | [] => []
                       | cc :: l' =>
                           collection_emissions cc false target_only ++ over_children l'
                       end) ch) s0).
    { induction IH as [|cc ch Hcc _ IHch]; intros s0; [reflexivity|].
      rewrite for_each_app, Hcc.
      destruct (for_each (emit frame) (collection_emissions cc false target_only) s0);
        [apply IHch|reflexivity]. }
    rewrite Hd.
    match goal with
    | |- match ?d with _ => _ end = _ => destruct d as [s1|]; [|reflexivity]
    end.
    apply update_collection_here_script.
Qed.

Section Engine.

Variable feature_lines : Depsgraph -> list LANPR_RenderLineChain.

(** A single-frame operator runs the emissions that the scene determines. *)
Lemma update_gp_exec_script (C : bContext) source_only target_only (s : State) :
  update_gp_exec feature_lines C source_only target_only s =
  match for_each (emit (cfra (CTX_data_scene C)))
          (operator_emissions C source_only target_only)
          (lanpr_chain_clear_picked_flag
             (compute_if_needed feature_lines s (cfra (CTX_data_scene C)))) with
  | Some s4 => Some (lanpr_clear_gp_lanpr_flags s4 (cfra (CTX_data_scene C)))
  | None => None
  end.
Proof.
  unfold update_gp_exec, operator_emissions.
  rewrite for_each_app, recursive_script.
  match goal with
  | |- option_bind ?d _ = _ => destruct d as [s3|]; [|reflexivity]
  end.
  cbn [option_bind]. rewrite collection_script.
  match goal with
  | |- option_bind ?d _ = _ => destruct d as [s4|]; reflexivity
  end.
Qed.

End Engine.

Lemma steps_weaken (P Q : ObjectId -> Prop) frame (s s' : State) :
  (forall o, P o -> Q o) -> emission_steps P frame s s' -> emission_steps Q frame s s'.
Proof.
  intros HPQ. induction 1 as [|s s1 s' gpobj li ob qb qe m col ty Ha Hb He _ IH];
    [constructor|].
  eapply steps_emit; eauto.
Qed.

(** A run of emissions is a run of steps into its targets. *)
Lemma script_steps frame (es : list Emission) :
  forall s s', has_buffer s -> for_each (emit frame) es s = Some s' ->
               emission_steps (fun o => targeted es o = true) frame s s'.
Proof.
  induction es as [|e es IH]; intros s s' Hb He; cbn [for_each] in He.
  - inversion He; subst. constructor.
  - destruct (emit frame e s) as [s1|] eqn:H1; [|discriminate].
    unfold emit in H1. eapply steps_emit; [| exact Hb | exact H1 |].
    + unfold targeted. cbn [existsb]. now rewrite Nat.eqb_refl.
    + apply (steps_weaken (fun o => targeted es o = true)).
      * intros o Ho. unfold targeted in *. cbn [existsb]. rewrite Ho. apply orb_true_r.
      * apply IH; [|exact He]. eapply emit_to_target_has_buffer; eauto.
Qed.

Lemma script_returns frame (es : list Emission) :
  forall s, has_buffer s -> exists s', for_each (emit frame) es s = Some s'.
Proof.
  induction es as [|e es IH]; intros s Hb; cbn [for_each]; [eauto|].
  destruct (Emitter_emit_to_target (em_target e) (em_layer e) frame (em_source e)
              (em_level_begin e) (em_level_end e) (em_material e) (em_collection e)
              (em_types e) s Hb) as (s1 & em & He & Hem).
  unfold emit. rewrite He. apply IH. eapply emits_has_buffer; eauto.
Qed.

(** The layers of the target after an emission. *)
Lemma emit_to_target_layers (s s' : State) gpobj li frame ob qb qe m col ty :
  has_buffer s ->
  emit_to_target s gpobj li frame ob qb qe m col ty = Some s' ->
  gp_layers (gp s') gpobj =
  if Nat.eqb (gp_layers (gp s) gpobj) 0 then 1%nat else gp_layers (gp s) gpobj.
Proof.
  intros Hb He. unfold emit_to_target in He.
  set (gl := match BKE_gpencil_layer_get_index (gp s) gpobj li with
             | Some gpl => (gp s, gpl)
             | None => BKE_gpencil_layer_addnew (gp s) gpobj
             end) in He.
  assert (Hgl : gp_layers (fst gl) gpobj =
                if Nat.eqb (gp_layers (gp s) gpobj) 0 then 1%nat
                else gp_layers (gp s) gpobj).
  { subst gl. unfold BKE_gpencil_layer_get_index, BKE_gpencil_layer_addnew.
    destruct (Nat.eqb_spec (gp_layers (gp s) gpobj) 0) as [E|E].
    - cbn [fst gp_layers]. now rewrite Nat.eqb_refl, E.
    - destruct ((0 <=? li) && (li <? Z.of_nat (gp_layers (gp s) gpobj))); reflexivity. }
  destruct gl as [g1 gpl]. cbn [fst] in Hgl. rewrite <- Hgl. clear Hgl.
  assert (Hframe : forall k f, gp_layers (set_frame g1 k f) = gp_layers g1) by reflexivity.
  unfold BKE_gpencil_layer_getframe in He.
  assert (Hgen : forall s3, has_buffer s3 ->
             gp_layers (gp (lanpr_generate_gpencil_from_chain s3 ob (gpl, frame) qb qe m col ty))
             = gp_layers (gp s3)).
  { intros s3 Hb3. now apply (generate_effect s3 ob (gpl, frame) qb qe m col ty Hb3). }
  assert (Hb' : forall g, has_buffer (with_gp s g)) by (intros g; exact Hb).
  destruct (gp_frame g1 (gpl, frame)) as [f|].
  - assert (Hgo : forall s1,
               Some (lanpr_generate_gpencil_from_chain
                       (if negb (flag_lanpr_cleared f)
                        then with_gp (with_gp s g1)
                               (set_frame g1 (gpl, frame)
                                  (mkFrame (strokes (BKE_gpencil_free_strokes f)) true))
                        else with_gp s g1) ob (gpl, frame) qb qe m col ty) = Some s1 ->
               gp_layers (gp s1) gpobj = gp_layers g1 gpobj).
    { intros s1 H. inversion H as [H1]. clear H.
      destruct (negb (flag_lanpr_cleared f)); rewrite Hgen by apply Hb'; reflexivity. }
    destruct (strokes f); [now apply Hgo|].
    destruct (render_buffer_shared (with_gp s g1)) as [rb2|]; [|discriminate].
    destruct (negb (rb_scene_gpencil_overwrite rb2)); [|now apply Hgo].
    inversion He; subst s'. reflexivity.
  - cbn [strokes flag_lanpr_cleared negb] in He. inversion He as [H1]. clear He.
    rewrite Hgen by apply Hb'. reflexivity.
Qed.

Lemma generate_buffer (s : State) ob k qb qe m col ty :
  render_buffer_shared (lanpr_generate_gpencil_from_chain s ob k qb qe m col ty)
  = mark_buffer ob qb qe col ty s.
Proof.
  unfold lanpr_generate_gpencil_from_chain, mark_buffer, software.
  destruct (render_buffer_shared s) as [rb|] eqn:Hrb; [|exact Hrb].
  destruct (is_software (dg_master_mode (depsgraph s))); cbn [negb]; [|exact Hrb].
  now rewrite emit_chains_walk.
Qed.

(** The buffer after an emission that is not held back by the overwrite
    protection. *)
Lemma emit_to_target_buffer (s s' : State) gpobj li frame ob qb qe m col ty :
  overwrite s = true ->
  emit_to_target s gpobj li frame ob qb qe m col ty = Some s' ->
  render_buffer_shared s' = mark_buffer ob qb qe col ty s.
Proof.
  intros Hov He. unfold emit_to_target in He.
  destruct (match BKE_gpencil_layer_get_index (gp s) gpobj li with
            | Some gpl => (gp s, gpl)
            | None => BKE_gpencil_layer_addnew (gp s) gpobj
            end) as [g1 gpl].
  destruct (BKE_gpencil_layer_getframe g1 gpl frame) as [[g2 k] f].
  assert (Hgo : forall s1,
             Some (lanpr_generate_gpencil_from_chain
                     (if negb (flag_lanpr_cleared f)
                      then with_gp (with_gp s g2)
                             (set_frame g2 k
                                (mkFrame (strokes (BKE_gpencil_free_strokes f)) true))
                      else with_gp s g2) ob k qb qe m col ty) = Some s1 ->
             render_buffer_shared s1 = mark_buffer ob qb qe col ty s).
  { intros s1 H. inversion H as [H1]. clear H. rewrite generate_buffer.
    now destruct (negb (flag_lanpr_cleared f)). }
  destruct (strokes f); [now apply Hgo|].
  unfold overwrite in Hov. cbn [with_gp render_buffer_shared] in He.
  destruct (render_buffer_shared s) as [rb|]; [|discriminate].
  rewrite Hov in He. cbn [negb] in He. now apply Hgo.
Qed.

Lemma target_layer_in_step (ga gb : GPStore) (o : ObjectId) (li : Z) :
  gp_layers ga o = gp_layers gb o \/ (gp_layers ga o = O /\ gp_layers gb o = 1%nat) ->
  target_layer ga o li = target_layer gb o li.
Proof.
  unfold target_layer, BKE_gpencil_layer_get_index, BKE_gpencil_layer_addnew.
  intros [H|[Ha Hb]].
  - rewrite H. reflexivity.
  - rewrite Ha, Hb. cbn [Nat.eqb snd Z.of_nat].
    destruct ((0 <=? li) && (li <? Z.pos (Pos.of_succ_nat 0))) eqn:E; [|reflexivity].
    apply andb_true_iff in E. destruct E as [E1 E2].
    apply Z.leb_le in E1. apply Z.ltb_lt in E2.
    replace li with 0 by lia. reflexivity.
Qed.

(** One emission keeps two runs in step. *)
Lemma emit_in_step frame (e : Emission) (a b : State) :
  in_step a b ->
  exists a' b',
    emit frame e a = Some a' /\ emit frame e b = Some b' /\ in_step a' b'.
Proof.
  intros (Hba & Hrb & Hdg & Hov & Hly & Hfr).
  assert (Hbb : has_buffer b) by (unfold has_buffer in *; now rewrite <- Hrb).
  assert (Hovb : overwrite b = true) by (unfold overwrite in *; now rewrite <- Hrb).
  assert (Hsw : software b = software a) by (unfold software; now rewrite Hdg).
  destruct e as [gpobj li ob qb qe m col ty]. unfold emit. cbn [em_target em_layer em_source
    em_level_begin em_level_end em_material em_collection em_types].
  destruct (Emitter_emit_to_target gpobj li frame ob qb qe m col ty a Hba)
    as (a' & ema & Hea & _).
  destruct (Emitter_emit_to_target gpobj li frame ob qb qe m col ty b Hbb)
    as (b' & emb & Heb & _).
  exists a', b'. split; [exact Hea|]. split; [exact Heb|].
  destruct (emit_to_target_effect a a' gpobj li frame ob qb qe m col ty Hba Hea)
    as (Hao & Hal & Hak).
  destruct (emit_to_target_effect b b' gpobj li frame ob qb qe m col ty Hbb Heb)
    as (Hbo & Hbl & Hbk).
  destruct (emit_to_target_static _ _ _ _ _ _ _ _ _ _ _ Hba Hea) as (Hda & Hoa & _).
  destruct (emit_to_target_static _ _ _ _ _ _ _ _ _ _ _ Hbb Heb) as (Hdb & _ & _).
  assert (Hkey : target_frame b gpobj li frame = target_frame a gpobj li frame).
  { unfold target_frame. f_equal. symmetry. apply target_layer_in_step. apply Hly. }
  rewrite Hkey in Hbo, Hbk. set (k := target_frame a gpobj li frame) in *.
  assert (Hpa : protected a k = false) by (unfold protected; now rewrite Hov).
  assert (Hpb : protected b k = false) by (unfold protected; now rewrite Hovb).
  rewrite Hpa in Hak. rewrite Hpb in Hbk.
  assert (Hem : emitted_strokes b k ob qb qe m col ty = emitted_strokes a k ob qb qe m col ty).
  { unfold emitted_strokes, buffer_chains. rewrite Hsw, <- Hrb. f_equal.
    destruct (Hfr k) as [[Ha Hb]|[Hsame Hc]].
    - now rewrite Ha, Hb.
    - unfold cleared_at, strokes_at in *. now rewrite <- Hsame. }
  split; [exact (emit_to_target_has_buffer _ _ _ _ _ _ _ _ _ _ _ Hba Hea)|].
  split.
  { rewrite (emit_to_target_buffer _ _ _ _ _ _ _ _ _ _ _ Hov Hea),
            (emit_to_target_buffer _ _ _ _ _ _ _ _ _ _ _ Hovb Heb).
    unfold mark_buffer. now rewrite Hsw, Hrb. }
  split; [congruence|]. split; [congruence|]. split.
  - intros o. destruct (Nat.eq_dec o gpobj) as [->|Hne].
    + rewrite (emit_to_target_layers _ _ _ _ _ _ _ _ _ _ _ Hba Hea),
              (emit_to_target_layers _ _ _ _ _ _ _ _ _ _ _ Hbb Heb).
      destruct (Hly gpobj) as [H|[Ha Hb]].
      * left. now rewrite H.
      * left. now rewrite Ha, Hb.
    + rewrite (Hal o Hne), (Hbl o Hne). apply Hly.
  - intros k'. destruct (FrameKey_eqb k' k) eqn:E.
    + apply FrameKey_eqb_eq in E. subst k'. right.
      unfold cleared_at. rewrite Hak, Hbk, Hem. split; reflexivity.
    + assert (Hne : k' <> k).
      { intros ->. assert (FrameKey_eqb k k = true) by now apply FrameKey_eqb_eq.
        congruence. }
      unfold cleared_at. rewrite (Hao k' Hne), (Hbo k' Hne). apply Hfr.
Qed.

Lemma script_in_step frame (es : list Emission) :
  forall a b, in_step a b ->
  exists a' b',
    for_each (emit frame) es a = Some a' /\
    for_each (emit frame) es b = Some b' /\ in_step a' b'.
Proof.
  induction es as [|e es IH]; intros a b H; cbn [for_each]; [eauto|].
  destruct (emit_in_step frame e a b H) as (a1 & b1 & Ha & Hb & H1).
  rewrite Ha, Hb. now apply IH.
Qed.

(** The layers after a run of emissions. *)
Lemma script_layers frame (es : list Emission) :
  forall s s', has_buffer s -> for_each (emit frame) es s = Some s' ->
  forall o, gp_layers (gp s) o = gp_layers (gp s') o \/
            (gp_layers (gp s) o = O /\ gp_layers (gp s') o = 1%nat).
Proof.
  induction es as [|e es IH]; intros s s' Hb He o; cbn [for_each] in He.
  - inversion He; subst. now left.
  - destruct (emit frame e s) as [s1|] eqn:H1; [|discriminate]. unfold emit in H1.
    pose proof (emit_to_target_has_buffer _ _ _ _ _ _ _ _ _ _ _ Hb H1) as Hb1.
    specialize (IH s1 s' Hb1 He o).
    assert (Hstep : gp_layers (gp s) o = gp_layers (gp s1) o \/
                    (gp_layers (gp s) o = O /\ gp_layers (gp s1) o = 1%nat)).
    { destruct (Nat.eq_dec o (em_target e)) as [->|Hne].
      - rewrite (emit_to_target_layers _ _ _ _ _ _ _ _ _ _ _ Hb H1).
        destruct (Nat.eqb_spec (gp_layers (gp s) (em_target e)) 0); [right|left]; auto.
      - left. symmetry.
        now apply (emit_to_target_effect _ _ _ _ _ _ _ _ _ _ _ Hb H1). }
    destruct Hstep as [H|[Ha Hb']], IH as [H'|[Ha' Hb'']]; try (left; congruence);
      right; split; congruence.
Qed.

Lemma clear_flags_cleared (s : State) (frame : Z) (o : ObjectId) (l : nat) (fr : Z) :
  cleared_at (lanpr_clear_gp_lanpr_flags s frame) (o, l, fr) =
  if evaluated_gpencil s o && (fr =? frame) then false else cleared_at s (o, l, fr).
Proof.
  unfold cleared_at, lanpr_clear_gp_lanpr_flags, evaluated_gpencil.
  cbn [with_gp gp gp_frame].
  destruct (gp_frame (gp s) (o, l, fr)) as [f|].
  - match goal with |- context [if ?c then _ else _] => destruct c end; reflexivity.
  - match goal with |- context [if ?c then _ else _] => destruct c end; reflexivity.
Qed.

Lemma script_emits frame (es : list Emission) (s s' : State) :
  has_buffer s -> for_each (emit frame) es s = Some s' -> exists em, emits s s' em.
Proof.
  intros Hb He.
  destruct (Emitter_for_each (emit frame) es) with (s := s) as (s'' & em & He' & Hem).
  - intros e _. apply Emitter_emit_to_target.
  - exact Hb.
  - rewrite He in He'. inversion He'; subst. eauto.
Qed.

Section Twice.

Variable feature_lines : Depsgraph -> list LANPR_RenderLineChain.

Local Abbreviation compute_if_needed := (compute_if_needed feature_lines).
Local Abbreviation update_gp_exec := (update_gp_exec feature_lines).

(** The buffer with which the passes start holds unmarked chains. *)
Lemma prelude_buffer (s : State) (frame : Z) :
  exists rb,
    render_buffer_shared (compute_if_needed s frame) = Some rb /\
    render_buffer_shared (lanpr_chain_clear_picked_flag (compute_if_needed s frame))
    = Some (mkRenderBuffer (map clear_picked (chains rb)) (cached_for_frame rb)
              (rb_scene_gpencil_overwrite rb)) /\
    (absent_or_stale s frame = true ->
     rb = mkRenderBuffer (feature_lines (depsgraph s)) (dg_cfra (depsgraph s))
            (dg_gpencil_overwrite (depsgraph s))) /\
    (absent_or_stale s frame = false ->
     render_buffer_shared s = Some rb /\ cached_for_frame rb = frame).
Proof.
  unfold LANPR.compute_if_needed.
  destruct (absent_or_stale s frame) eqn:Ha.
  - eexists. split; [reflexivity|]. split; [reflexivity|]. split; [reflexivity|discriminate].
  - apply absent_or_stale_false in Ha. destruct Ha as (rb & Hrb & Hf).
    exists rb. split; [exact Hrb|]. split.
    + unfold lanpr_chain_clear_picked_flag. cbn [render_buffer_shared]. now rewrite Hrb.
    + split; [discriminate|auto].
Qed.

Lemma update_twice (C : bContext) source_only target_only (s : State) :
  dg_gpencil_overwrite (depsgraph s) = true ->
  (forall rb, render_buffer_shared s = Some rb -> rb_scene_gpencil_overwrite rb = true) ->
  (forall k, cleared_at s k = false) ->
  targets_evaluated C source_only target_only s ->
  runs_twice_alike (update_gp_exec C source_only target_only) s.
Proof.
  intros Hdgov Hrbov H0 Hev.
  set (frame := cfra (CTX_data_scene C)).
  set (es := operator_emissions C source_only target_only).
  set (a0 := lanpr_chain_clear_picked_flag (compute_if_needed s frame)).
  destruct (prelude_facts feature_lines s frame) as (Hb & Hgp & Hdg & _ & Hov & _).
  cbv zeta in Hgp, Hdg, Hov. fold a0 in Hb, Hgp, Hdg, Hov.
  destruct (script_returns frame es a0 Hb) as (a' & Ha').
  pose proof (script_steps frame es a0 a' Hb Ha') as Hsteps.
  destruct (steps_static _ _ _ _ Hb Hsteps) as (Hdg' & Hov' & _).
  pose proof (steps_has_buffer _ _ _ _ Hb Hsteps) as Hb'.
  destruct (script_emits frame es a0 a' Hb Ha')
    as (em & rb0 & rb' & Hrb0 & Hrb' & _ & Hcf & Hovf & _).
  pose proof (steps_unmarked _ _ _ _ Hsteps) as Hun.
  unfold buffer_chains in Hun. rewrite Hrb0, Hrb' in Hun.
  set (s1 := lanpr_clear_gp_lanpr_flags a' frame).
  assert (Hop1 : update_gp_exec C source_only target_only s = Some s1).
  { rewrite update_gp_exec_script. fold frame es a0. now rewrite Ha'. }
  set (b0 := lanpr_chain_clear_picked_flag (compute_if_needed s1 frame)).
  destruct (prelude_facts feature_lines s1 frame) as (Hbb & Hgpb & Hdgb & _).
  cbv zeta in Hgpb, Hdgb. fold b0 in Hbb, Hgpb, Hdgb.
  assert (Hov0 : overwrite a0 = true).
  { rewrite Hov. destruct (absent_or_stale s frame) eqn:Ha; [exact Hdgov|].
    apply absent_or_stale_false in Ha. destruct Ha as (rb & Hrb & _).
    unfold overwrite. rewrite Hrb. now apply Hrbov. }
  assert (Hflags1 : forall k, cleared_at s1 k = false).
  { intros [[o l] fr]. subst s1. rewrite clear_flags_cleared.
    destruct (evaluated_gpencil a' o && (fr =? frame)) eqn:E; [reflexivity|].
    assert (Hsame : gp_frame (gp a') (o, l, fr) = gp_frame (gp a0) (o, l, fr)).
    { apply (steps_elsewhere _ _ _ _ Hb Hsteps).
      destruct (targeted es o) eqn:Ht; [|left; congruence].
      right. intros ->. rewrite Z.eqb_refl, andb_true_r in E.
      specialize (Hev o Ht). unfold evaluated_gpencil in *.
      rewrite Hdg', Hdg in E. congruence. }
    unfold cleared_at. rewrite Hsame, Hgp. apply H0. }
  assert (Hrbs : render_buffer_shared a0 = render_buffer_shared b0).
  { destruct (prelude_buffer s frame) as (ra & _ & Hra0 & Hfresh & Hcached).
    fold a0 in Hra0.
    destruct (prelude_buffer s1 frame) as (rb1 & _ & Hrb1 & Hfresh1 & Hcached1).
    fold b0 in Hrb1. rewrite Hra0, Hrb1.
    assert (Hdg1 : depsgraph s1 = depsgraph s) by (subst s1; cbn; congruence).
    assert (Hrbs1 : render_buffer_shared s1 = Some rb') by exact Hrb'.
    rewrite Hra0 in Hrb0. inversion Hrb0 as [Hrb0']. clear Hrb0.
    destruct (absent_or_stale s1 frame) eqn:Hst.
    - rewrite (Hfresh1 eq_refl), Hdg1.
      destruct (absent_or_stale s frame) eqn:Hs0; [now rewrite (Hfresh eq_refl)|].
      exfalso. destruct (Hcached eq_refl) as [_ Hf].
      unfold absent_or_stale in Hst. rewrite Hrbs1, Hcf, <- Hrb0' in Hst.
      cbn [cached_for_frame] in Hst. rewrite Hf, Z.eqb_refl in Hst. discriminate.
    - destruct (Hcached1 eq_refl) as [Hs1 _]. rewrite Hrbs1 in Hs1.
      inversion Hs1; subst rb1. clear Hs1.
      rewrite Hcf, Hovf, <- Hrb0'. cbn [cached_for_frame rb_scene_gpencil_overwrite].
      do 2 f_equal. symmetry.
      transitivity (map unmarked (chains rb')); [reflexivity|].
      rewrite Hun, <- Hrb0'. cbn [chains]. rewrite map_map. reflexivity. }
  assert (Hstep0 : in_step a0 b0).
  { split; [exact Hb|]. split; [exact Hrbs|]. split; [|split; [exact Hov0|split]].
    - rewrite Hdgb. subst s1. cbn [lanpr_clear_gp_lanpr_flags with_gp depsgraph]. congruence.
    - intros o. rewrite Hgpb. subst s1. cbn [lanpr_clear_gp_lanpr_flags with_gp gp gp_layers].
      apply (script_layers frame es a0 a' Hb Ha').
    - intros k. left. unfold cleared_at at 1 2. rewrite Hgp, Hgpb.
      split; [apply H0|apply Hflags1]. }
  destruct (script_in_step frame es a0 b0 Hstep0) as (a'' & b' & Ha'' & Hb'' & Hend).
  rewrite Ha' in Ha''. inversion Ha''; subst a''. clear Ha''.
  destruct Hend as (_ & Hrbe & _ & _ & _ & Hfre).
  exists s1, (lanpr_clear_gp_lanpr_flags b' frame).
  split; [exact Hop1|]. split; [|split].
  - rewrite update_gp_exec_script. fold frame es b0. now rewrite Hb''.
  - subst s1. cbn [lanpr_clear_gp_lanpr_flags with_gp render_buffer_shared]. congruence.
  - intros k. subst s1. rewrite !clear_flags_strokes.
    destruct (Hfre k) as [[_ Hcb]|[Hsame _]].
    + pose proof (script_steps frame es b0 b' Hbb Hb'') as Hsb.
      destruct (steps_flagged _ _ _ _ Hbb Hsb k) as [Hk|Hk]; [|congruence].
      unfold strokes_at. rewrite Hk, Hgpb.
      apply (clear_flags_strokes a' frame k).
    + unfold strokes_at. now rewrite Hsame.
Qed.

End Twice.

(** X18: with [gpencil_overwrite] on, no frame carrying
    [GP_FRAME_LANPR_CLEARED] at the start, and every target of the emissions
    of the operator an evaluated grease-pencil object, each single-frame
    operator can be run twice in a row, and the second run leaves in every
    frame the strokes that the first run has left, and the buffer with the
    same marks. *)
Theorem update_twice_leaves_same_strokes :
  forall (feature_lines : Depsgraph -> list LANPR_RenderLineChain)
         (C : bContext) (s : State),
    dg_gpencil_overwrite (depsgraph s) = true ->
    (forall rb, render_buffer_shared s = Some rb -> rb_scene_gpencil_overwrite rb = true) ->
    (forall k, cleared_at s k = false) ->
    let active := CTX_data_active_object C in
    (targets_evaluated C None None s ->
     runs_twice_alike (lanpr_update_gp_strokes_exec feature_lines C) s) /\
    (targets_evaluated C None (Some (ob_id active)) s ->
     runs_twice_alike (lanpr_update_gp_target_exec feature_lines C) s) /\
    (targets_evaluated C (Some active) None s ->
     runs_twice_alike (lanpr_update_gp_source_exec feature_lines C) s).
Proof.
  intros fl C s Hdg Hrb H0 active.
  split; [|split]; intros Hev; now apply update_twice.
Qed.

Lemma targeted_In (es : list Emission) (o : ObjectId) :
  targeted es o = true <-> In o (map em_target es).
Proof.
  unfold targeted. rewrite existsb_exists, in_map_iff.
  split; intros (e & H1 & H2).
  - exists e. apply Nat.eqb_eq in H2. auto.
  - exists e. split; [exact H2|]. now apply Nat.eqb_eq.
Qed.

Lemma update_twice_leaves_same_strokes_witness :
  dg_gpencil_overwrite (depsgraph (fresh_session true)) = true /\
  (forall rb, render_buffer_shared (fresh_session true) = Some rb ->
              rb_scene_gpencil_overwrite rb = true) /\
  (forall k, cleared_at (fresh_session true) k = false) /\
  targets_evaluated small_context None None (fresh_session true) /\
  runs_twice_alike (lanpr_update_gp_strokes_exec five_chains small_context)
    (fresh_session true).
Proof.
  assert (H1 : dg_gpencil_overwrite (depsgraph (fresh_session true)) = true) by reflexivity.
  assert (H2 : forall rb, render_buffer_shared (fresh_session true) = Some rb ->
                          rb_scene_gpencil_overwrite rb = true) by discriminate.
  assert (H3 : forall k, cleared_at (fresh_session true) k = false) by reflexivity.
  assert (H4 : targets_evaluated small_context None None (fresh_session true)).
  { intros o Ho. apply targeted_In in Ho.
    vm_compute in Ho.
    repeat (destruct Ho as [Ho|Ho]; [subst o; reflexivity|]). contradiction. }
  split; [exact H1|]. split; [exact H2|]. split; [exact H3|]. split; [exact H4|].
  apply (update_twice_leaves_same_strokes five_chains small_context (fresh_session true)
           H1 H2 H3). exact H4.
Defined.

End LanprScriptFacts.

(** ** Objects that share grease-pencil data *)

Module LanprSharedFacts.
Import LANPR LanprProps LanprFacts LanprSteps LanprStepFacts LanprInvariants
       LanprOperatorFacts LanprSharedProps.

Lemma Runner_ret allowed frame : Runner allowed frame Some.
Proof. intros s _. exists s. split; [reflexivity|constructor]. Qed.

Lemma Runner_emit_to_target (allowed : ObjectId -> Prop) frame key li ob qb qe m col ty :
  allowed key ->
  Runner allowed frame (fun s => emit_to_target s key li frame ob qb qe m col ty).
Proof.
  intros Ha s Hb.
  destruct (Emitter_emit_to_target key li frame ob qb qe m col ty s Hb)
    as (s' & em & He & _).
  exists s'. split; [exact He|]. eapply steps_emit; eauto. constructor.
Qed.

Lemma Runner_for_each {A} allowed frame (step : A -> State -> option State) (l : list A) :
  (forall a, In a l -> Runner allowed frame (step a)) ->
  Runner allowed frame (for_each step l).
Proof.
  induction l as [|a l IH]; intros Hstep s Hb; cbn [for_each].
  - exists s. split; [reflexivity|constructor].
  - destruct (Hstep a (or_introl eq_refl) s Hb) as (s1 & H1 & Hs1). rewrite H1.
    destruct (IH (fun b Hb' => Hstep b (or_intror Hb')) s1
                (steps_has_buffer _ _ _ _ Hb Hs1)) as (s' & He & Hs').
    exists s'. split; [exact He|]. eapply steps_trans; eauto.
Qed.

Section Datablocks.

Variable data : ObjectId -> ObjectId.

(** The keys a pass restricted by [target_only] may write to. *)
Local Abbreviation reached target_only :=
  (fun d : ObjectId => exists gpobj, not_excluded target_only gpobj /\ d = data gpobj).

Lemma Runner_update_modifier frame target_only ob md :
  Runner (reached target_only) frame
    (LanprShared.update_modifier data frame target_only ob md).
Proof.
  unfold LanprShared.update_modifier. destruct md as [flmd|]; [|apply Runner_ret].
  destruct (flmd_target flmd) as [gpobj|]; [|apply Runner_ret].
  destruct (ObjectType_eqb (ref_type gpobj) OB_GPENCIL); [|apply Runner_ret].
  destruct (target_excluded target_only (ref_id gpobj)) eqn:Hex; [apply Runner_ret|].
  apply Runner_emit_to_target. exists (ref_id gpobj). split; [exact Hex|reflexivity].
Qed.

Lemma Runner_update_object frame target_only ob :
  Runner (reached target_only) frame (LanprShared.update_object data frame target_only ob).
Proof.
  unfold LanprShared.update_object. apply Runner_for_each.
  intros md _. apply Runner_update_modifier.
Qed.

Lemma Runner_recursive col frame source_only target_only :
  Runner (reached target_only) frame
    (LanprShared.lanpr_update_gp_strokes_recursive data col frame source_only target_only).
Proof.
  induction col as [g ch l IH] using Collection_ind'.
  destruct source_only as [so|]; intros s Hs;
    cbn [LanprShared.lanpr_update_gp_strokes_recursive].
  - now apply Runner_update_object.
  - destruct (Runner_for_each (reached target_only) frame
                (LanprShared.update_object data frame target_only) g
                (fun a _ => Runner_update_object frame target_only a) s Hs)
      as (s1 & H1 & Hs1).
    rewrite H1. pose proof (steps_has_buffer _ _ _ _ Hs Hs1) as Hb1.
    assert (Hch : exists s2,
               (fix over_children (l : list Collection) (s : State) : option State :=
                  match l with
                  | [] => Some s
                  | cc :: l' =>
                      match LanprShared.lanpr_update_gp_strokes_recursive data cc frame None
                              target_only s with
                      | Some s' => over_children l' s'
                      | None => None
                      end
                  end) ch s1 = Some s2 /\
               emission_steps (reached target_only) frame s1 s2).
    { clear H1 Hs1 Hs. revert s1 Hb1.
      induction IH as [|cc ch Hcc _ IHch]; intros s1 Hb1.
      - exists s1. split; [reflexivity|constructor].
      - destruct (Hcc s1 Hb1) as (sa & Ha & Hsa). rewrite Ha.
        destruct (IHch sa (steps_has_buffer _ _ _ _ Hb1 Hsa)) as (sb & Hb & Hsb).
        exists sb. split; [exact Hb|]. eapply steps_trans; eauto. }
    destruct Hch as (s2 & H2 & Hs2).
    exists s2. split; [exact H2|]. eapply steps_trans; eauto.
Qed.

Lemma Runner_update_collection_here col frame target_only :
  Runner (reached target_only) frame
    (LanprShared.update_collection_here data col frame target_only).
Proof.
  unfold LanprShared.update_collection_here.
  destruct (target (lanpr col)) as [gpobj|]; [|apply Runner_ret].
  destruct (negb (is_include (usage (lanpr col)))); [apply Runner_ret|].
  destruct (target_excluded target_only (ref_id gpobj)) eqn:Hex; [apply Runner_ret|].
  apply Runner_emit_to_target. exists (ref_id gpobj). split; [exact Hex|reflexivity].
Qed.

Lemma Runner_collection col frame this_only target_only :
  Runner (reached target_only) frame
    (LanprShared.lanpr_update_gp_strokes_collection data col frame this_only target_only).
Proof.
  induction col as [g ch l IH] using Collection_ind'.
  intros s Hs. cbn [LanprShared.lanpr_update_gp_strokes_collection].
  assert (Hd : exists s1,
             (if this_only then Some s
              else
                (fix over_children (l : list Collection) (s : State) : option State :=
                   match l with
                   | [] => Some s
                   | cc :: l' =>
                       match LanprShared.lanpr_update_gp_strokes_collection data cc frame
                               this_only target_only s with
                       | Some s' => over_children l' s'
                       | None => None
                       end
                   end) ch s) = Some s1 /\
             emission_steps (reached target_only) frame s s1).
  { destruct this_only.
    - exists s. split; [reflexivity|constructor].
    - revert s Hs. induction IH as [|cc ch Hcc _ IHch]; intros s Hs.
      + exists s. split; [reflexivity|constructor].
      + destruct (Hcc s Hs) as (sa & Ha & Hsa). rewrite Ha.
        destruct (IHch sa (steps_has_buffer _ _ _ _ Hs Hsa)) as (sb & Hb & Hsb).
        exists sb. split; [exact Hb|]. eapply steps_trans; eauto. }
  destruct Hd as (s1 & H1 & Hs1). rewrite H1.
  destruct (Runner_update_collection_here (mkCollection g ch l) frame target_only s1
              (steps_has_buffer _ _ _ _ Hs Hs1)) as (s2 & H2 & Hs2).
  exists s2. split; [exact H2|]. eapply steps_trans; eauto.
Qed.

Lemma shared_clear_flags_strokes (s : State) (frame : Z) (k : FrameKey) :
  strokes_at (LanprShared.lanpr_clear_gp_lanpr_flags data s frame) k = strokes_at s k.
Proof.
  unfold strokes_at, LanprShared.lanpr_clear_gp_lanpr_flags. cbn [with_gp gp gp_frame].
  destruct k as [[o l] fr]. destruct (gp_frame (gp s) (o, l, fr)) as [f|]; [|reflexivity].
  match goal with |- context [if ?c then _ else _] => destruct c end; reflexivity.
Qed.

End Datablocks.

(** In [LANPR] every object has a datablock of its own. *)
Lemma own_datablocks (feature_lines : Depsgraph -> list LANPR_RenderLineChain)
  (C : bContext) (s : State) :
  LanprShared.lanpr_update_gp_target_exec (fun o => o) feature_lines C s
  = lanpr_update_gp_target_exec feature_lines C s.
Proof. reflexivity. Qed.

(** X10: whatever datablocks the objects use, [lanpr_update_gp_target_exec]
    returns, and every grease-pencil datablock other than that of the active
    object keeps its layers and the strokes of every frame: the passes emit
    only through targets that are the active object. *)
Theorem target_update_leaves_other_datablocks :
  forall (data : ObjectId -> ObjectId)
         (feature_lines : Depsgraph -> list LANPR_RenderLineChain)
         (C : bContext) (s : State),
  exists s',
    LanprShared.lanpr_update_gp_target_exec data feature_lines C s = Some s' /\
    forall d, d <> data (ob_id (CTX_data_active_object C)) ->
      gp_layers (gp s') d = gp_layers (gp s) d /\
      forall l fr, strokes_at s' (d, l, fr) = strokes_at s (d, l, fr).
Proof.
  intros data fl C s. unfold LanprShared.lanpr_update_gp_target_exec.
  set (frame := cfra (CTX_data_scene C)).
  set (gpo := ob_id (CTX_data_active_object C)).
  destruct (prelude_facts fl s frame) as (Hb & Hgp & _). cbv zeta in Hgp.
  destruct (Runner_recursive data (master_collection (CTX_data_scene C)) frame None
              (Some gpo) _ Hb) as (s3 & H3 & Hs3).
  rewrite H3.
  destruct (Runner_collection data (master_collection (CTX_data_scene C)) frame false
              (Some gpo) s3 (steps_has_buffer _ _ _ _ Hb Hs3)) as (s4 & H4 & Hs4).
  rewrite H4. eexists. split; [reflexivity|].
  pose proof (steps_trans _ _ _ _ _ Hs3 Hs4) as Hs.
  intros d Hd.
  assert (Hno : ~ (exists gpobj, not_excluded (Some gpo) gpobj /\ d = data gpobj)).
  { intros (g & Hg & ->). apply not_excluded_some in Hg. subst g. now apply Hd. }
  split.
  - cbn [LanprShared.lanpr_clear_gp_lanpr_flags with_gp gp gp_layers].
    rewrite (steps_layers _ _ _ _ Hb Hs d Hno). now rewrite Hgp.
  - intros l fr. rewrite shared_clear_flags_strokes. unfold strokes_at.
    rewrite (steps_elsewhere _ _ _ _ Hb Hs d l fr (or_introl Hno)). now rewrite Hgp.
Qed.

End LanprSharedFacts.

(** ** Copying and freeing line layers *)

Module LanprDataFacts.
Import LanprData LanprDataProps.
Local Open Scope nat_scope.

Section Layers.

Context {LayerFields ComponentFields : Type}.
Variable callocN : list nat -> nat.
Hypothesis callocN_fresh : forall l, ~ In (callocN l) l.

Local Abbreviation Mem := (Memory LayerFields ComponentFields).
Local Abbreviation Layer := (LANPR_LineLayer LayerFields ComponentFields).
Local Abbreviation Component := (LANPR_LineLayerComponent ComponentFields).

Lemma copy_components_spec (llcs : list Component) :
  forall (m : Mem),
    let r := copy_components callocN llcs m in
    map llc_fields (fst r) = map llc_fields llcs /\
    line_layers (snd r) = line_layers m /\
    live (snd r) = rev (map llc_self (fst r)) ++ live m /\
    NoDup (map llc_self (fst r)) /\
    (forall a, In a (map llc_self (fst r)) -> ~ In a (live m)).
Proof.
  induction llcs as [|c rest IH]; intros m; cbn [copy_components].
  - cbn. repeat split; try constructor. intros a [].
  - unfold MEM_callocN. cbn [live line_layers].
    specialize (IH (mkMemory (callocN (live m) :: live m) (line_layers m))).
    destruct (copy_components callocN rest
                (mkMemory (callocN (live m) :: live m) (line_layers m))) as [cs m2].
    cbn [fst snd live line_layers] in *.
    destruct IH as (Hf & Hl & Hlive & Hnd & Hfresh).
    cbn [map llc_self llc_fields rev].
    split; [now rewrite Hf|]. split; [exact Hl|]. split; [|split].
    + rewrite Hlive, <- app_assoc. reflexivity.
    + constructor; [|exact Hnd]. intros Hin. apply (Hfresh _ Hin). now left.
    + intros a [<-|Hin]; [apply callocN_fresh|].
      intros Ha. apply (Hfresh _ Hin). now right.
Qed.

Lemma copy_layers_spec (lls : list Layer) :
  forall (m : Mem),
    let r := copy_layers callocN lls m in
    contents (fst r) = contents lls /\
    line_layers (snd r) = line_layers m /\
    live (snd r) = rev (nodes (fst r)) ++ live m /\
    NoDup (nodes (fst r)) /\
    (forall a, In a (nodes (fst r)) -> ~ In a (live m)).
Proof.
  induction lls as [|ll rest IH]; intros m; cbn [copy_layers].
  - cbn. repeat split; try constructor. intros a [].
  - unfold MEM_callocN. cbn [live line_layers].
    set (m1 := mkMemory (callocN (live m) :: live m) (line_layers m)).
    pose proof (copy_components_spec (components ll) m1) as Hc. cbv zeta in Hc.
    destruct (copy_components callocN (components ll) m1) as [cs m2].
    cbn [fst snd] in Hc. destruct Hc as (Hcf & Hcl & Hclive & Hcnd & Hcfresh).
    specialize (IH m2).
    destruct (copy_layers callocN rest m2) as [ls m3].
    cbn [fst snd] in *. destruct IH as (Hf & Hl & Hlive & Hnd & Hfresh).
    subst m1. cbn [live line_layers] in *.
    unfold contents, nodes in *. cbn [map flat_map ll_self ll_fields components].
    split; [now rewrite Hf, Hcf|]. split; [congruence|].
    assert (Hold : forall a, In a (live m) -> In a (live m2)).
    { intros a Ha. rewrite Hclive. apply in_or_app. right. now right. }
    assert (Hhead : In (callocN (live m)) (live m2)).
    { rewrite Hclive. apply in_or_app. right. now left. }
    assert (Hcomp : forall a, In a (map llc_self cs) -> In a (live m2)).
    { intros a Ha. rewrite Hclive. apply in_or_app. left. now apply -> in_rev. }
    split; [|split].
    + rewrite Hlive, Hclive. cbn [rev]. rewrite !rev_app_distr, <- !app_assoc.
      cbn [rev app]. rewrite <- !app_assoc. reflexivity.
    + constructor.
      * intros Hin. apply in_app_or in Hin. destruct Hin as [Hin|Hin].
        -- apply (Hcfresh _ Hin). now left.
        -- apply (Hfresh _ Hin). exact Hhead.
      * apply NoDup_app; [exact Hcnd|exact Hnd|].
        intros a Ha Hb. apply (Hfresh _ Hb). now apply Hcomp.
    + intros a [<-|Hin]; [apply callocN_fresh|].
      intros Ha. apply in_app_or in Hin. destruct Hin as [Hin|Hin].
      * apply (Hcfresh _ Hin). now right.
      * apply (Hfresh _ Hin). now apply Hold.
Qed.

End Layers.

Lemma In_released (gone l : list nat) (a : nat) :
  In a (released gone l) <-> In a l /\ ~ In a gone.
Proof.
  unfold released. rewrite filter_In, negb_true_iff. split.
  - intros [Hl Hg]. split; [exact Hl|]. intros Hin.
    assert (existsb (Nat.eqb a) gone = true)
      by (apply existsb_exists; exists a; split; [exact Hin|apply Nat.eqb_refl]).
    congruence.
  - intros [Hl Hg]. split; [exact Hl|].
    destruct (existsb (Nat.eqb a) gone) eqn:E; [|reflexivity].
    apply existsb_exists in E. destruct E as (b & Hb & Heq).
    apply Nat.eqb_eq in Heq. subst b. contradiction.
Qed.

Lemma released_same (gone gone' l : list nat) :
  (forall a, In a gone <-> In a gone') -> released gone l = released gone' l.
Proof.
  intros H. unfold released. apply filter_ext. intros a. f_equal.
  destruct (existsb (Nat.eqb a) gone) eqn:E, (existsb (Nat.eqb a) gone') eqn:E';
    try reflexivity.
  - apply existsb_exists in E. destruct E as (b & Hb & Heq). apply Nat.eqb_eq in Heq.
    subst b. apply H in Hb.
    assert (existsb (Nat.eqb a) gone' = true)
      by (apply existsb_exists; exists a; split; [exact Hb|apply Nat.eqb_refl]).
    congruence.
  - apply existsb_exists in E'. destruct E' as (b & Hb & Heq). apply Nat.eqb_eq in Heq.
    subst b. apply H in Hb.
    assert (existsb (Nat.eqb a) gone = true)
      by (apply existsb_exists; exists a; split; [exact Hb|apply Nat.eqb_refl]).
    congruence.
Qed.

Lemma released_app (gone gone' l : list nat) :
  released gone' (released gone l) = released (gone ++ gone') l.
Proof.
  unfold released. induction l as [|a l IH]; [reflexivity|]. cbn [filter].
  rewrite existsb_app.
  destruct (existsb (Nat.eqb a) gone); cbn [negb orb filter]; [exact IH|].
  destruct (existsb (Nat.eqb a) gone'); cbn [negb]; [exact IH|now rewrite IH].
Qed.

Lemma released_one (a : nat) (l : list nat) :
  filter (fun b => negb (Nat.eqb b a)) l = released [a] l.
Proof.
  unfold released. apply filter_ext. intros b. cbn [existsb]. now rewrite orb_false_r.
Qed.

Lemma released_disjoint (gone l : list nat) :
  (forall a, In a gone -> ~ In a l) -> released gone l = l.
Proof.
  intros H. unfold released. induction l as [|a l IH]; [reflexivity|]. cbn [filter].
  destruct (existsb (Nat.eqb a) gone) eqn:E.
  - apply existsb_exists in E. destruct E as (b & Hb & Heq). apply Nat.eqb_eq in Heq.
    subst b. exfalso. apply (H a Hb). now left.
  - cbn [negb]. f_equal. apply IH. intros b Hb Hin. apply (H b Hb). now right.
Qed.

Lemma released_all (gone l : list nat) :
  (forall a, In a l -> In a gone) -> released gone l = [].
Proof.
  intros H. unfold released. induction l as [|a l IH]; [reflexivity|]. cbn [filter].
  assert (E : existsb (Nat.eqb a) gone = true).
  { apply existsb_exists. exists a. split; [apply H; now left|apply Nat.eqb_refl]. }
  rewrite E. cbn [negb]. apply IH. intros b Hb. apply H. now right.
Qed.

Section Release.

Context {LayerFields ComponentFields : Type}.

Local Abbreviation Mem := (Memory LayerFields ComponentFields).
Local Abbreviation Layer := (LANPR_LineLayer LayerFields ComponentFields).
Local Abbreviation Component := (LANPR_LineLayerComponent ComponentFields).

Lemma MEM_freeN_spec (m m' : Mem) (a : nat) :
  MEM_freeN m a = Some m' <->
  In a (live m) /\ m' = mkMemory (released [a] (live m)) (line_layers m).
Proof.
  unfold MEM_freeN. rewrite released_one.
  destruct (existsb (Nat.eqb a) (live m)) eqn:E.
  - apply existsb_exists in E. destruct E as (b & Hb & Heq). apply Nat.eqb_eq in Heq.
    subst b. split.
    + intros H. inversion H. auto.
    + intros [_ ->]. reflexivity.
  - split; [discriminate|]. intros [Hin _].
    assert (existsb (Nat.eqb a) (live m) = true)
      by (apply existsb_exists; exists a; split; [exact Hin|apply Nat.eqb_refl]).
    congruence.
Qed.

Lemma released_nil (l : list nat) : released [] l = l.
Proof. apply released_disjoint. intros a []. Qed.

Lemma free_all_app (l1 l2 : list nat) :
  forall m : Mem,
    free_all (l1 ++ l2) m =
    match free_all l1 m with Some m1 => free_all l2 m1 | None => None end.
Proof.
  induction l1 as [|a l1 IH]; intros m; cbn [free_all app]; [reflexivity|].
  destruct (MEM_freeN m a); [apply IH|reflexivity].
Qed.

Lemma free_components_all (cs : list Component) :
  forall m : Mem, free_components cs m = free_all (map llc_self cs) m.
Proof.
  induction cs as [|c cs IH]; intros m; cbn [free_components free_all map]; [reflexivity|].
  destruct (MEM_freeN m (llc_self c)); [apply IH|reflexivity].
Qed.

Lemma free_layers_all (lls : list Layer) :
  forall m : Mem, free_layers lls m = free_all (release_order lls) m.
Proof.
  induction lls as [|ll lls IH]; intros m; [reflexivity|].
  cbn [free_layers release_order flat_map].
  rewrite !free_all_app, free_components_all.
  destruct (free_all (map llc_self (components ll)) m) as [m1|]; [|reflexivity].
  cbn [free_all]. destruct (MEM_freeN m1 (ll_self ll)); [apply IH|reflexivity].
Qed.

(** Releasing a sequence of blocks goes through exactly when the blocks are
    distinct and allocated. *)
Lemma free_all_spec (l : list nat) :
  forall m m' : Mem,
    free_all l m = Some m' <->
    NoDup l /\ incl l (live m) /\
    m' = mkMemory (released l (live m)) (line_layers m).
Proof.
  induction l as [|a l IH]; intros m m'; cbn [free_all].
  - rewrite released_nil. split.
    + intros H. inversion H; subst m'. split; [constructor|]. split; [intros a []|].
      now destruct m.
    + intros (_ & _ & ->). now destruct m.
  - split.
    + destruct (MEM_freeN m a) as [m1|] eqn:H1; [|discriminate].
      apply MEM_freeN_spec in H1. destruct H1 as [Ha ->].
      intros H. apply IH in H. cbn [live line_layers] in H.
      destruct H as (Hnd & Hincl & ->).
      split; [|split].
      * constructor; [|exact Hnd]. intros Hin. apply Hincl, In_released in Hin.
        apply (proj2 Hin). now left.
      * intros b [<-|Hb]; [exact Ha|]. apply Hincl, In_released in Hb. apply Hb.
      * now rewrite released_app.
    + intros (Hnd & Hincl & ->). inversion Hnd as [|? ? Hnot Hnd']; subst.
      assert (H1 : MEM_freeN m a = Some (mkMemory (released [a] (live m)) (line_layers m))).
      { apply MEM_freeN_spec. split; [apply Hincl; now left|reflexivity]. }
      rewrite H1. apply IH. cbn [live line_layers].
      split; [exact Hnd'|]. split; [|now rewrite released_app].
      intros b Hb. apply In_released. split; [apply Hincl; now right|].
      intros [<-|[]]. contradiction.
Qed.

Lemma release_order_nodes (lls : list Layer) (a : nat) :
  In a (release_order lls) <-> In a (nodes lls).
Proof.
  unfold release_order, nodes. rewrite !in_flat_map.
  split; intros (ll & Hll & Ha); exists ll; (split; [exact Hll|]).
  - apply in_app_or in Ha. destruct Ha as [Ha|[<-|[]]]; [now right|now left].
  - apply in_or_app. destruct Ha as [<-|Ha]; [right; now left|now left].
Qed.

Lemma NoDup_app_apart (l1 l2 : list nat) :
  NoDup (l1 ++ l2) -> forall a, In a l1 -> In a l2 -> False.
Proof.
  induction l1 as [|b l1 IH]; intros H a Ha Hb; [contradiction|].
  cbn [app] in H. inversion H as [|? ? Hnot Hnd]; subst.
  destruct Ha as [<-|Ha]; [|now apply (IH Hnd a)].
  apply Hnot, in_or_app. now right.
Qed.

Lemma release_order_NoDup (lls : list Layer) :
  NoDup (release_order lls) <-> NoDup (nodes lls).
Proof.
  induction lls as [|ll lls IH]; [split; constructor|].
  cbn [release_order nodes flat_map].
  change (flat_map (fun ll => map llc_self (components ll) ++ [ll_self ll]) lls)
    with (release_order lls).
  change (flat_map (fun ll => ll_self ll :: map llc_self (components ll)) lls)
    with (nodes lls).
  assert (Hperm : Permutation
                    ((map llc_self (components ll) ++ [ll_self ll]) ++ release_order lls)
                    ((ll_self ll :: map llc_self (components ll)) ++ release_order lls)).
  { apply Permutation_app_tail. symmetry.
    apply Permutation_cons_append. }
  split; intros H.
  - apply (Permutation_NoDup Hperm) in H.
    cbn [app] in *. inversion H as [|? ? Hnot Hnd]; subst.
    constructor.
    + intros Hin. apply Hnot. apply in_app_or in Hin. apply in_or_app.
      destruct Hin as [Hin|Hin]; [now left|right; now apply release_order_nodes].
    + apply NoDup_app_remove_l in Hnd as Hr. apply NoDup_app_remove_r in Hnd as Hl.
      apply NoDup_app; [exact Hl|now apply IH|].
      intros a Ha Hb. apply release_order_nodes in Hb.
      now apply (NoDup_app_apart _ _ Hnd a).
  - apply (Permutation_NoDup (Permutation_sym Hperm)).
    cbn [app] in *. inversion H as [|? ? Hnot Hnd]; subst.
    constructor.
    + intros Hin. apply Hnot. apply in_app_or in Hin. apply in_or_app.
      destruct Hin as [Hin|Hin]; [now left|right; now apply release_order_nodes].
    + apply NoDup_app_remove_l in Hnd as Hr. apply NoDup_app_remove_r in Hnd as Hl.
      apply NoDup_app; [exact Hl|now apply IH|].
      intros a Ha Hb. apply release_order_nodes in Hb.
      now apply (NoDup_app_apart _ _ Hnd a).
Qed.

(** [ED_lanpr_free_everything] on a list of layers. *)
Lemma free_layers_spec (lls : list Layer) (m m' : Mem) :
  free_layers lls m = Some m' <->
  NoDup (nodes lls) /\ incl (nodes lls) (live m) /\
  m' = mkMemory (released (nodes lls) (live m)) (line_layers m).
Proof.
  rewrite free_layers_all, free_all_spec, release_order_NoDup.
  rewrite (released_same (release_order lls) (nodes lls) (live m) (release_order_nodes lls)).
  split; intros (Hnd & Hincl & Hm); (split; [exact Hnd|split; [|exact Hm]]);
    intros a Ha; apply Hincl; now apply release_order_nodes.
Qed.

End Release.

Lemma next_address_fresh (l : list nat) : ~ In (next_address l) l.
Proof.
  intros H. unfold next_address in H.
  assert (Hall : Forall (fun k => k <= list_max l) l) by now apply list_max_le.
  rewrite Forall_forall in Hall. specialize (Hall _ H). lia.
Qed.

Lemma released_over_app (gone l1 l2 : list nat) :
  released gone (l1 ++ l2) = released gone l1 ++ released gone l2.
Proof. apply filter_app. Qed.

Section Copy.

Context {LayerFields ComponentFields : Type}.
Variable callocN : list nat -> nat.
Hypothesis callocN_fresh : forall l, ~ In (callocN l) l.

Local Abbreviation Mem := (Memory LayerFields ComponentFields).

(** The copy: the layers of [to] afterwards, in terms of the walk. *)
Lemma copy_data_spec (from to : nat) (m : Mem) :
  let m' := ED_lanpr_copy_data callocN from to m in
  contents (line_layers m' to)
  = contents (if Nat.eqb from to then [] else line_layers m from) /\
  NoDup (nodes (line_layers m' to)) /\
  (forall a, In a (nodes (line_layers m' to)) -> ~ In a (live m)) /\
  live m' = rev (nodes (line_layers m' to)) ++ live m /\
  (forall sc, sc <> to -> line_layers m' sc = line_layers m sc).
Proof.
  cbv zeta. unfold ED_lanpr_copy_data, list_handle_empty.
  set (m0 := set_line_layers m to []).
  pose proof (copy_layers_spec callocN callocN_fresh (line_layers m0 from) m0) as H.
  cbv zeta in H. destruct (copy_layers callocN (line_layers m0 from) m0) as [ls m1].
  cbn [fst snd] in H. destruct H as (Hc & Hl & Hlive & Hnd & Hfresh).
  unfold set_line_layers. cbn [line_layers live]. rewrite Nat.eqb_refl.
  subst m0. unfold set_line_layers in *. cbn [line_layers live] in *.
  split; [exact Hc|]. split; [exact Hnd|]. split; [exact Hfresh|]. split; [exact Hlive|].
  intros sc Hsc. rewrite Hl. cbv beta.
  destruct (Nat.eqb_spec sc to); [contradiction|reflexivity].
Qed.

End Copy.

(** X19: with an allocator that hands out blocks that are not in use,
    [ED_lanpr_copy_data] to another scene gives [to] layers that hold, in
    order, the fields of the layers of [from] and of their components, and
    leaves [from] as it was; a copy of a scene to itself leaves it without
    layers.  The nodes of [to] are distinct blocks that were not in use, no
    block is released, and no other scene is touched. *)
Theorem copy_data_duplicates_layers :
  forall (LayerFields ComponentFields : Type) (callocN : list nat -> nat)
         (from to : nat) (m : Memory LayerFields ComponentFields),
    (forall l, ~ In (callocN l) l) ->
    let m' := ED_lanpr_copy_data callocN from to m in
    (from <> to ->
     contents (line_layers m' to) = contents (line_layers m from) /\
     line_layers m' from = line_layers m from) /\
    (from = to -> line_layers m' to = [] /\ live m' = live m) /\
    NoDup (nodes (line_layers m' to)) /\
    (forall a, In a (nodes (line_layers m' to)) -> ~ In a (live m)) /\
    live m' = rev (nodes (line_layers m' to)) ++ live m /\
    (forall sc, sc <> to -> line_layers m' sc = line_layers m sc).
Proof.
  intros LF CF callocN from to m Hfresh. cbv zeta.
  destruct (copy_data_spec callocN Hfresh from to m) as (Hc & Hnd & Hf & Hlive & Ho).
  cbv zeta in *.
  split; [|split; [|repeat split; assumption]].
  - intros Hne. destruct (Nat.eqb_spec from to); [contradiction|].
    split; [exact Hc|]. now apply Ho.
  - intros ->. rewrite Nat.eqb_refl in Hc.
    destruct (line_layers (ED_lanpr_copy_data callocN to to m) to) as [|ll ls] eqn:E;
      [|discriminate].
    split; [reflexivity|]. rewrite Hlive. reflexivity.
Qed.

Lemma copy_data_duplicates_layers_witness :
  (forall l, ~ In (next_address l) l) /\
  contents (line_layers (ED_lanpr_copy_data next_address 1 2 two_layers) 2)
  = [("contour"%string, [1%Z; 2%Z]); ("crease"%string, [])] /\
  nodes (line_layers (ED_lanpr_copy_data next_address 1 2 two_layers) 2) = [14; 15; 16; 17].
Proof.
  split; [exact next_address_fresh|].
  destruct (copy_data_duplicates_layers string Z next_address 1 2 two_layers
              next_address_fresh) as (Hc & _).
  destruct (Hc ltac:(discriminate)) as [Hc1 _].
  split; [exact Hc1|reflexivity].
Defined.

(** X20: [ED_lanpr_free_everything] goes through exactly when the nodes of
    the layers of the scene are distinct allocated blocks.  It then leaves the
    scene without layers, releases those blocks and no other, and touches no
    other scene; a scene whose list shares the nodes cannot be freed
    afterwards. *)
Theorem free_everything_releases_layers :
  forall (LayerFields ComponentFields : Type) (s : nat)
         (m : Memory LayerFields ComponentFields),
    let layers := line_layers m s in
    ((exists m', ED_lanpr_free_everything s m = Some m') <->
     NoDup (nodes layers) /\ incl (nodes layers) (live m)) /\
    (forall m', ED_lanpr_free_everything s m = Some m' ->
       line_layers m' s = [] /\
       (forall sc, sc <> s -> line_layers m' sc = line_layers m sc) /\
       live m' = released (nodes layers) (live m) /\
       (forall a, In a (live m') <-> In a (live m) /\ ~ In a (nodes layers)) /\
       (forall s2, s2 <> s -> line_layers m s2 = layers -> layers <> [] ->
                   ED_lanpr_free_everything s2 m' = None)).
Proof.
  intros LF CF s m. cbv zeta. unfold ED_lanpr_free_everything at 1 2.
  split.
  - split.
    + intros (m' & H).
      destruct (free_layers (line_layers m s) m) as [m1|] eqn:E; [|discriminate].
      apply free_layers_spec in E. destruct E as (Hnd & Hincl & _). auto.
    + intros (Hnd & Hincl).
      assert (E : free_layers (line_layers m s) m
                  = Some (mkMemory (released (nodes (line_layers m s)) (live m))
                            (line_layers m)))
        by (apply free_layers_spec; auto).
      rewrite E. eauto.
  - intros m' H.
    destruct (free_layers (line_layers m s) m) as [m1|] eqn:E; [|discriminate].
    apply free_layers_spec in E. destruct E as (Hnd & Hincl & ->).
    inversion H; subst m'. clear H. unfold set_line_layers. cbn [line_layers live].
    rewrite Nat.eqb_refl. split; [reflexivity|]. split; [|split; [reflexivity|split]].
    + intros sc Hsc. now destruct (Nat.eqb_spec sc s).
    + intros a. apply In_released.
    + intros s2 Hs2 Hshare Hne. unfold ED_lanpr_free_everything. cbn [line_layers].
      destruct (Nat.eqb_spec s2 s); [contradiction|]. rewrite Hshare.
      match goal with
      | |- match ?f with _ => _ end = None => destruct f as [m2|] eqn:E2; [|reflexivity]
      end.
      exfalso. apply free_layers_spec in E2. destruct E2 as (_ & Hincl2 & _).
      cbn [live] in Hincl2.
      destruct (line_layers m s) as [|ll ls]; [exact (Hne eq_refl)|].
      assert (Hin : In (ll_self ll) (nodes (ll :: ls))) by now left.
      apply Hincl2, In_released in Hin. apply (proj2 Hin). now left.
Qed.

(** X21: with an allocator that hands out blocks that are not in use,
    freeing the target of a copy goes through and releases the blocks that
    the copy has allocated: the blocks in use are those that were in use
    before the copy, and every scene but the target is as before. *)
Theorem copy_then_free_restores_memory :
  forall (LayerFields ComponentFields : Type) (callocN : list nat -> nat)
         (from to : nat) (m : Memory LayerFields ComponentFields),
    (forall l, ~ In (callocN l) l) ->
    exists m',
      ED_lanpr_free_everything to (ED_lanpr_copy_data callocN from to m) = Some m' /\
      live m' = live m /\
      line_layers m' to = [] /\
      (forall sc, sc <> to -> line_layers m' sc = line_layers m sc).
Proof.
  intros LF CF callocN from to m Hfresh.
  destruct (copy_data_spec callocN Hfresh from to m) as (_ & Hnd & Hf & Hlive & Ho).
  cbv zeta in *. set (mc := ED_lanpr_copy_data callocN from to m) in *.
  unfold ED_lanpr_free_everything.
  assert (E : free_layers (line_layers mc to) mc
              = Some (mkMemory (released (nodes (line_layers mc to)) (live mc))
                        (line_layers mc))).
  { apply free_layers_spec. split; [exact Hnd|]. split; [|reflexivity].
    intros a Ha. rewrite Hlive. apply in_or_app. left. now apply -> in_rev. }
  rewrite E. eexists. split; [reflexivity|].
  unfold set_line_layers. cbn [live line_layers]. rewrite Nat.eqb_refl.
  split; [|split; [reflexivity|]].
  - rewrite Hlive, released_over_app, released_all, released_disjoint; [reflexivity|exact Hf|].
    intros a Ha. now apply in_rev.
  - intros sc Hsc. destruct (Nat.eqb_spec sc to); [contradiction|]. now apply Ho.
Qed.

Lemma copy_then_free_restores_memory_witness :
  (forall l, ~ In (next_address l) l) /\
  option_map live
    (ED_lanpr_free_everything 2 (ED_lanpr_copy_data next_address 1 2 two_layers))
  = Some [10; 11; 12; 13].
Proof.
  split; [exact next_address_fresh|].
  destruct (copy_then_free_restores_memory string Z next_address 1 2 two_layers
              next_address_fresh) as (m' & He & Hl & _).
  rewrite He. cbn [option_map]. rewrite Hl. reflexivity.
Defined.

End LanprDataFacts.

(** ** NaN inputs of the map-range node *)

Module MapRangeSpecialFacts.
Import F32 F32Facts MapRange MapRangeProps MapRangeFacts MapRangeSpecial.

Lemma is_nan_eq (x : float) : is_nan x = true <-> x = S754_nan.
Proof. destruct x; cbn; split; congruence. Qed.

Lemma neq_nan_l (x : float) : neq S754_nan x = true.
Proof. reflexivity. Qed.

Lemma neq_nan_r (x : float) : neq x S754_nan = true.
Proof. now destruct x. Qed.

Lemma add_nan_l (x : float) : add S754_nan x = S754_nan.
Proof. reflexivity. Qed.

Lemma add_nan_r (x : float) : add x S754_nan = S754_nan.
Proof. now destruct x. Qed.

Lemma sub_nan_l (x : float) : sub S754_nan x = S754_nan.
Proof. reflexivity. Qed.

Lemma sub_nan_r (x : float) : sub x S754_nan = S754_nan.
Proof. now destruct x. Qed.

Lemma mul_nan_l (x : float) : mul S754_nan x = S754_nan.
Proof. reflexivity. Qed.

Lemma mul_nan_r (x : float) : mul x S754_nan = S754_nan.
Proof. now destruct x. Qed.

Lemma div_nan_l (x : float) : div S754_nan x = S754_nan.
Proof. reflexivity. Qed.

Lemma div_nan_r (x : float) : div x S754_nan = S754_nan.
Proof. now destruct x. Qed.

Lemma map_range_nan (value fromMin fromMax toMin toMax : float) :
  is_nan value || is_nan fromMin || is_nan fromMax || is_nan toMin || is_nan toMax = true ->
  map_range value fromMin fromMax toMin toMax =
  if neq fromMax fromMin && neq toMax toMin then S754_nan else zero.
Proof.
  intros H. unfold map_range.
  destruct (neq fromMax fromMin && neq toMax toMin); [|reflexivity].
  rewrite !orb_true_iff, !is_nan_eq in H.
  destruct H as [[[[->| ->]| ->]| ->]| ->];
    rewrite ?sub_nan_l, ?sub_nan_r, ?div_nan_l, ?div_nan_r, ?mul_nan_l, ?mul_nan_r,
            ?add_nan_l, ?add_nan_r; reflexivity.
Qed.

(** X22: NaN inputs of the map-range node.  A NaN bound makes the
    comparison [!=] of its range hold.  When one of the five inputs is a NaN,
    the output slot receives a NaN if both comparisons hold and [0.0f]
    otherwise; with a NaN bound in each of the two ranges it receives a
    NaN. *)
Theorem map_range_node_nan :
  forall (kg : KernelGlobals) (stack : list float)
         (value_offset fromMin_offset fromMax_offset offset : nat),
    let node1 := fst (read_node kg offset) in
    (w node1 < List.length stack)%nat ->
    let value := stack_load_float stack value_offset in
    let fromMin := stack_load_float stack fromMin_offset in
    let fromMax := stack_load_float stack fromMax_offset in
    let toMin := stack_load_float stack (y node1) in
    let toMax := stack_load_float stack (z node1) in
    let r := stack_load_float
               (fst (svm_node_map_range kg stack value_offset fromMin_offset
                       fromMax_offset offset)) (w node1) in
    (is_nan fromMin || is_nan fromMax = true -> neq fromMax fromMin = true) /\
    (is_nan toMin || is_nan toMax = true -> neq toMax toMin = true) /\
    (is_nan value || is_nan fromMin || is_nan fromMax || is_nan toMin || is_nan toMax = true ->
     r = if neq fromMax fromMin && neq toMax toMin then S754_nan else zero) /\
    ((is_nan fromMin || is_nan fromMax) && (is_nan toMin || is_nan toMax) = true ->
     r = S754_nan).
Proof.
  intros kg stack vo fmin fmax offset node1 Hw value fromMin fromMax toMin toMax r.
  assert (H1 : is_nan fromMin || is_nan fromMax = true -> neq fromMax fromMin = true).
  { rewrite orb_true_iff, !is_nan_eq. intros [-> | ->]; [apply neq_nan_r|apply neq_nan_l]. }
  assert (H2 : is_nan toMin || is_nan toMax = true -> neq toMax toMin = true).
  { rewrite orb_true_iff, !is_nan_eq. intros [-> | ->]; [apply neq_nan_r|apply neq_nan_l]. }
  assert (Hr : r = map_range value fromMin fromMax toMin toMax).
  { subst r. unfold svm_node_map_range.
    change (read_node kg offset) with (node1, S offset). cbn [fst].
    now rewrite stack_load_store_same by exact Hw. }
  split; [exact H1|]. split; [exact H2|]. split.
  - intros H. rewrite Hr. now apply map_range_nan.
  - intros H. apply andb_true_iff in H. destruct H as [Ha Hb].
    rewrite Hr, map_range_nan, (H1 Ha), (H2 Hb); [reflexivity|].
    apply orb_true_iff in Ha. destruct Ha as [Ha|Ha]; rewrite Ha;
      rewrite ?orb_true_r; reflexivity.
Qed.

Lemma map_range_node_nan_witness :
  (w (fst (read_node example_kernel 0)) < List.length nan_stack)%nat /\
  stack_load_float (fst (svm_node_map_range example_kernel nan_stack 0 1 2 0)) 5 = S754_nan.
Proof.
  assert (Hw : (w (fst (read_node example_kernel 0)) < List.length nan_stack)%nat)
    by (cbn; lia).
  split; [exact Hw|].
  destruct (map_range_node_nan example_kernel nan_stack 0 1 2 0 Hw) as (_ & _ & H & _).
  exact (H eq_refl).
Defined.

End MapRangeSpecialFacts.
